(** * Schema designer: data model and validation engine

    A shallow embedding of the schema graph (models/Column.ts, models/Table.ts,
    models/Relationship.ts, models/Schema.ts), of the validation engine
    (services/ValidationEngine.ts), of the rectangles of utils/types.ts, of
    renderer/DirtyRegionManager.ts and of the relationship statement of
    ddl/generators/SnowflakeGenerator.ts, followed by the properties proved
    of them.

    Conventions of the embedding:
    - a JavaScript string is a [string]: an ASCII character is one
      character of it, and any other character is a run of characters
      outside the ASCII range;
    - the built-in string methods that consult the Unicode tables
      ([toLowerCase], [toUpperCase], [trim], iteration by code point) are
      not part of the repository: they are the operations of the class
      [JsString.Unicode], known only through what they do on ASCII strings,
      and everything below holds for every such set of operations;
    - a JavaScript [Set<string>] is a [gset string];
    - a JavaScript [Map<string, V>] iterates in insertion order, and the
      validation output depends on that order, so it is an association list
      with pairwise distinct keys ([JsMap.wf]);
    - an array that the source fills with [push] is a list extended at its
      end;
    - the models are typed as their classes are declared; [fromJSON], which
      takes [json: any], reads a [JsValue], and says so when it throws or
      when what it returns does not have the declared types;
    - a [number] is a binary64 float. *)

From Stdlib Require Import ZArith Lia Ascii.
From Stdlib Require Floats.
From stdpp Require Import base decidable option list strings gmap.

#[local] Set Warnings "-clear-no-such-hyp".

Local Open Scope Z_scope.
Local Open Scope nat_scope.

(** ** JavaScript strings *)

Module JsString.

Definition isUpper (c : ascii) : bool :=
  let n := nat_of_ascii c in (65 <=? n) && (n <=? 90).

Definition isLower (c : ascii) : bool :=
  let n := nat_of_ascii c in (97 <=? n) && (n <=? 122).

Definition lowerChar (c : ascii) : ascii :=
  if isUpper c then ascii_of_nat (nat_of_ascii c + 32) else c.

Definition upperChar (c : ascii) : ascii :=
  if isLower c then ascii_of_nat (nat_of_ascii c - 32) else c.

Fixpoint mapChars (f : ascii → ascii) (s : string) : string :=
  match s with
  | EmptyString => EmptyString
  | String c r => String (f c) (mapChars f r)
  end.

(** What the built-in methods do to an ASCII string: [mapChars lowerChar]
    and [mapChars upperChar] change the case of its letters, [trimStart]
    and [trimEnd] strip the six blanks of the ASCII range (tab, line feed,
    vertical tab, form feed, carriage return, space), [chars] gives its
    characters one by one. *)
Fixpoint trimStart (s : string) : string :=
  match s with
  | EmptyString => EmptyString
  | String c r => if Ascii.is_space c then trimStart r else s
  end.

Fixpoint trimEnd (s : string) : string :=
  match s with
  | EmptyString => EmptyString
  | String c r =>
      match trimEnd r with
      | EmptyString => if Ascii.is_space c then EmptyString else String c EmptyString
      | r' => String c r'
      end
  end.

Fixpoint chars (s : string) : list string :=
  match s with
  | EmptyString => []
  | String c r => String c EmptyString :: chars r
  end.

(** Every character of [s] is in the ASCII range. *)
Fixpoint isAscii (s : string) : bool :=
  match s with
  | EmptyString => true
  | String c r => (nat_of_ascii c <? 128) && isAscii r
  end.

(** [s.toLowerCase()], [s.toUpperCase()], [s.trim()] and [[...s]]. What they
    do to a character outside the ASCII range is decided by the Unicode
    tables of the engine; on an ASCII string they change the case of the
    twenty-six letters, strip the six ASCII blanks, and give the characters
    one by one. *)
Class Unicode := {
  toLowerCase : string → string;
  toUpperCase : string → string;
  trim : string → string;
  codePoints : string → list string;
  toLowerCase_ascii s : isAscii s = true → toLowerCase s = mapChars lowerChar s;
  toUpperCase_ascii s : isAscii s = true → toUpperCase s = mapChars upperChar s;
  trim_ascii s : isAscii s = true → trim s = trimEnd (trimStart s);
  codePoints_ascii s : isAscii s = true → codePoints s = chars s
}.

(** One such set of operations: the one that leaves every character
    outside the ASCII range alone. It is not the engine's; it stands in for
    it where an example is run, and the strings of the examples are all
    ASCII, on which the four laws leave the operations no choice. *)
Definition asciiOnly : Unicode :=
  {| toLowerCase := mapChars lowerChar;
     toUpperCase := mapChars upperChar;
     trim := λ s, trimEnd (trimStart s);
     codePoints := chars;
     toLowerCase_ascii := λ _ _, eq_refl;
     toUpperCase_ascii := λ _ _, eq_refl;
     trim_ascii := λ _ _, eq_refl;
     codePoints_ascii := λ _ _, eq_refl |}.

(** [s.split(sep)[0]] for a one-character separator: the part of [s] before
    the first [sep], all of [s] when there is none. *)
Fixpoint splitHead (sep : ascii) (s : string) : string :=
  match s with
  | EmptyString => EmptyString
  | String c r => if decide (c = sep) then EmptyString else String c (splitHead sep r)
  end.

(** A string is falsy exactly when it is empty: [!s]. *)
Definition falsy (s : string) : bool := bool_decide (s = "").

(** [a === b] on strings *)
Definition eqb (a b : string) : bool := bool_decide (a = b).

(** [parts.join(sep)] *)
Fixpoint join (sep : string) (parts : list string) : string :=
  match parts with
  | [] => ""
  | [p] => p
  | p :: rest => p +:+ sep +:+ join sep rest
  end.

End JsString.

(** ** JavaScript arrays and insertion-ordered maps *)

Module JsArray.

(** [arr.includes(x)] *)
Definition includes (arr : list string) (x : string) : bool :=
  bool_decide (x ∈ arr).

(** [arr.indexOf(x)]: the first index holding [x], [-1] when there is none. *)
Fixpoint indexOf (x : string) (arr : list string) : Z :=
  match arr with
  | [] => (-1)%Z
  | y :: rest =>
      if decide (y = x) then 0%Z
      else let i := indexOf x rest in
           if (i <? 0)%Z then (-1)%Z else (i + 1)%Z
  end.

(** [arr.slice(start)]: a negative [start] counts from the end. *)
Definition slice {A} (start : Z) (arr : list A) : list A :=
  if (start <? 0)%Z
  then drop (Z.to_nat (Z.max (Z.of_nat (length arr) + start) 0)) arr
  else drop (Z.to_nat start) arr.

(** [if (cond) arr.push(x)] *)
Definition pushIf {A} (cond : bool) (x : A) (arr : list A) : list A :=
  if cond then arr ++ [x] else arr.

End JsArray.

Module JsMap.

Abbreviation t V := (list (string * V)).

Fixpoint get {V} (k : string) (m : t V) : option V :=
  match m with
  | [] => None
  | (k', v) :: m' => if decide (k' = k) then Some v else get k m'
  end.

(** [m.set(k, v)]: an existing key keeps its place, a new key goes last. *)
Fixpoint set {V} (k : string) (v : V) (m : t V) : t V :=
  match m with
  | [] => [(k, v)]
  | (k', v') :: m' =>
      if decide (k' = k) then (k', v) :: m' else (k', v') :: set k v m'
  end.

(** [m.delete(k)] *)
Definition delete {V} (k : string) (m : t V) : t V :=
  filter (λ e, e.1 ≠ k) m.

Definition keys {V} (m : t V) : list string := m.*1.
Definition values {V} (m : t V) : list V := m.*2.
Definition size {V} (m : t V) : nat := length m.

(** The keys of a [Map] are pairwise distinct. *)
Definition wf {V} (m : t V) : Prop := NoDup (keys m).

End JsMap.

(** [any]: the values that [metadata] can hold and that [fromJSON] is
    handed. *)
#[warnings="-register-all"]
Inductive JsValue : Type :=
| JsUndefined
| JsNull
| JsBool (b : bool)
| JsNum (n : PrimFloat.float)
| JsStr (s : string)
| JsArr (items : list JsValue)
| JsObj (props : list (string * JsValue)).

(** What a call that takes [json: any] does: it throws a [TypeError], or it
    returns. The models are typed as the classes are declared, so what is
    returned is followed only when every field that is kept holds a value of
    its declared type: [Returns None] is a return with an object that the
    typed models do not describe. *)
Inductive outcome (A : Type) : Type :=
| TypeError
| Returns (value : option A).

Arguments TypeError {A}.
Arguments Returns {A} value.

Module JsAny.

(** [v === null || v === undefined]: reading a property of such a value
    throws. *)
Definition nullish (v : JsValue) : bool :=
  match v with
  | JsUndefined | JsNull => true
  | _ => false
  end.

(** [!!v] *)
Definition truthy (v : JsValue) : bool :=
  match v with
  | JsUndefined | JsNull => false
  | JsBool b => b
  | JsNum n => negb (PrimFloat.eqb n PrimFloat.zero || PrimFloat.is_nan n)
  | JsStr s => negb (JsString.falsy s)
  | JsArr _ | JsObj _ => true
  end.

(** [a || b] and [a ?? b] *)
Definition or (a b : JsValue) : JsValue := if truthy a then a else b.
Definition coalesce (a b : JsValue) : JsValue := if nullish a then b else a.

Fixpoint lookup (k : string) (props : list (string * JsValue)) : JsValue :=
  match props with
  | [] => JsUndefined
  | (k', v) :: rest => if String.eqb k' k then v else lookup k rest
  end.

(** [v.k], for a [v] that is neither [null] nor [undefined] and a [k] that
    no array, string, number or boolean has of its own: the names of the
    fields of the models. *)
Definition prop (k : string) (v : JsValue) : JsValue :=
  match v with
  | JsObj props => lookup k props
  | _ => JsUndefined
  end.

(** What [for (const x of v)] goes through: the items of an array, the
    characters of a string; [None] when [v] is not iterable, and the loop
    throws. *)
Definition iterate {unicode : JsString.Unicode} (v : JsValue) : option (list JsValue) :=
  match v with
  | JsArr items => Some items
  | JsStr s => Some (JsStr <$> JsString.codePoints s)
  | _ => None
  end.

(** [for (const x of items) add(step(x))], where [step] may throw. The
    accumulator is [None] once something of another type than declared has
    gone into it. *)
Fixpoint forEach {A S} (step : JsValue → outcome A) (add : A → S → S)
    (items : list JsValue) (acc : option S) : outcome S :=
  match items with
  | [] => Returns acc
  | item :: rest =>
      match step item with
      | TypeError => TypeError
      | Returns a => forEach step add rest (a ← a; acc ← acc; Some (add a acc))
      end
  end.

(** The values of the declared types. *)
Definition asString (v : JsValue) : option string :=
  match v with JsStr s => Some s | _ => None end.

Definition asBool (v : JsValue) : option bool :=
  match v with JsBool b => Some b | _ => None end.

Definition asNumber (v : JsValue) : option PrimFloat.float :=
  match v with JsNum n => Some n | _ => None end.

(** [T | undefined], for an optional field *)
Definition asOptional {A} (as_ : JsValue → option A) (v : JsValue) : option (option A) :=
  match v with
  | JsUndefined => Some None
  | _ => Some <$> as_ v
  end.

(** [T[]] *)
Definition asArray {A} (as_ : JsValue → option A) (v : JsValue) : option (list A) :=
  match v with
  | JsArr items => mapM as_ items
  | _ => None
  end.

Definition ofOptional {A} (of_ : A → JsValue) (o : option A) : JsValue :=
  match o with
  | Some a => of_ a
  | None => JsUndefined
  end.

End JsAny.

(** ** models/Column.ts *)

Module Column.

Record t := mk {
  id : string;
  name : string;
  type : string;
  nullable : bool;
  primaryKey : bool;
  foreignKey : bool;
  unique : bool;
  autoIncrement : bool;
  defaultValue : option string;
  comment : option string
}.

Definition toJSON (c : t) : JsValue :=
  JsObj [("id", JsStr (id c));
         ("name", JsStr (name c));
         ("type", JsStr (type c));
         ("nullable", JsBool (nullable c));
         ("primaryKey", JsBool (primaryKey c));
         ("foreignKey", JsBool (foreignKey c));
         ("unique", JsBool (unique c));
         ("autoIncrement", JsBool (autoIncrement c));
         ("defaultValue", JsAny.ofOptional JsStr (defaultValue c));
         ("comment", JsAny.ofOptional JsStr (comment c))].

(** [json.id] throws when [json] is [null] or [undefined]; nothing else
    does. *)
Definition fromJSON (json : JsValue) : outcome t :=
  if JsAny.nullish json then TypeError
  else
    Returns
      (id ← JsAny.asString (JsAny.prop "id" json);
       name ← JsAny.asString (JsAny.prop "name" json);
       type ← JsAny.asString (JsAny.prop "type" json);
       nullable ←
         JsAny.asBool (JsAny.coalesce (JsAny.prop "nullable" json) (JsBool true));
       primaryKey ←
         JsAny.asBool (JsAny.coalesce (JsAny.prop "primaryKey" json) (JsBool false));
       foreignKey ←
         JsAny.asBool (JsAny.coalesce (JsAny.prop "foreignKey" json) (JsBool false));
       unique ←
         JsAny.asBool (JsAny.coalesce (JsAny.prop "unique" json) (JsBool false));
       autoIncrement ←
         JsAny.asBool (JsAny.coalesce (JsAny.prop "autoIncrement" json) (JsBool false));
       defaultValue ←
         JsAny.asOptional JsAny.asString (JsAny.prop "defaultValue" json);
       comment ← JsAny.asOptional JsAny.asString (JsAny.prop "comment" json);
       Some {| id := id; name := name; type := type;
               nullable := nullable; primaryKey := primaryKey;
               foreignKey := foreignKey; unique := unique;
               autoIncrement := autoIncrement;
               defaultValue := defaultValue; comment := comment |}).

End Column.

(** ** models/Table.ts *)

Module Table.

Record Point := mkPoint { x : PrimFloat.float; y : PrimFloat.float }.

Record Index := mkIndex {
  index_name : string;
  index_columns : list string;
  index_unique : bool
}.

Inductive ConstraintType := CHECK | UNIQUE | FOREIGN_KEY.

Record Constraint := mkConstraint {
  constraint_type : ConstraintType;
  definition : string
}.

Record t := mk {
  id : string;
  name : string;
  position : Point;
  columns : list Column.t;
  indexes : list Index;
  constraints : list Constraint;
  comment : option string
}.

Definition addColumn (column : Column.t) (tbl : t) : t :=
  {| id := id tbl; name := name tbl; position := position tbl;
     columns := columns tbl ++ [column];
     indexes := indexes tbl; constraints := constraints tbl;
     comment := comment tbl |}.

(** [this.columns.find((c) => c.id === columnId)] *)
Fixpoint findColumn (columnId : string) (cols : list Column.t) : option Column.t :=
  match cols with
  | [] => None
  | c :: rest =>
      if JsString.eqb (Column.id c) columnId then Some c
      else findColumn columnId rest
  end.

Definition getColumn (tbl : t) (columnId : string) : option Column.t :=
  findColumn columnId (columns tbl).

Definition getPrimaryKeys (tbl : t) : list Column.t :=
  filter (λ c, Column.primaryKey c = true) (columns tbl).

(** [this.columns = this.columns.filter((c) => c.id !== columnId)] *)
Definition removeColumn (columnId : string) (tbl : t) : t :=
  {| id := id tbl; name := name tbl; position := position tbl;
     columns := filter (λ c, Column.id c ≠ columnId) (columns tbl);
     indexes := indexes tbl; constraints := constraints tbl;
     comment := comment tbl |}.

Definition getForeignKeys (tbl : t) : list Column.t :=
  filter (λ c, Column.foreignKey c = true) (columns tbl).

(** [indexes] and [constraints] are kept as they come, not rebuilt: they
    are followed when they are written as [toJSON] writes them. *)
Definition ofIndex (i : Index) : JsValue :=
  JsObj [("name", JsStr (index_name i));
         ("columns", JsArr (JsStr <$> index_columns i));
         ("unique", JsBool (index_unique i))].

Definition asIndex (v : JsValue) : option Index :=
  match v with
  | JsObj [(k1, JsStr name); (k2, JsArr columns); (k3, JsBool unique)] =>
      if String.eqb k1 "name" && String.eqb k2 "columns" && String.eqb k3 "unique"
      then columns ← mapM JsAny.asString columns;
           Some {| index_name := name; index_columns := columns; index_unique := unique |}
      else None
  | _ => None
  end.

Definition ofConstraintType (c : ConstraintType) : string :=
  match c with
  | CHECK => "CHECK"
  | UNIQUE => "UNIQUE"
  | FOREIGN_KEY => "FOREIGN_KEY"
  end.

Definition asConstraintType (s : string) : option ConstraintType :=
  if String.eqb s "CHECK" then Some CHECK
  else if String.eqb s "UNIQUE" then Some UNIQUE
  else if String.eqb s "FOREIGN_KEY" then Some FOREIGN_KEY
  else None.

Definition ofConstraint (c : Constraint) : JsValue :=
  JsObj [("type", JsStr (ofConstraintType (constraint_type c)));
         ("definition", JsStr (definition c))].

Definition asConstraint (v : JsValue) : option Constraint :=
  match v with
  | JsObj [(k1, JsStr type); (k2, JsStr definition)] =>
      if String.eqb k1 "type" && String.eqb k2 "definition"
      then type ← asConstraintType type;
           Some {| constraint_type := type; definition := definition |}
      else None
  | _ => None
  end.

Definition toJSON (tbl : t) : JsValue :=
  JsObj [("id", JsStr (id tbl));
         ("name", JsStr (name tbl));
         ("position", JsObj [("x", JsNum (x (position tbl)));
                             ("y", JsNum (y (position tbl)))]);
         ("columns", JsArr (Column.toJSON <$> columns tbl));
         ("indexes", JsArr (ofIndex <$> indexes tbl));
         ("constraints", JsArr (ofConstraint <$> constraints tbl));
         ("comment", JsAny.ofOptional JsStr (comment tbl))].

(** [json.id] throws when [json] is [null] or [undefined],
    [json.position.x] when [json.position] is, the loop when
    [json.columns] is neither falsy nor iterable, and [Column.fromJSON] on
    an item that is [null] or [undefined]. *)
Definition fromJSON {unicode : JsString.Unicode} (json : JsValue) : outcome t :=
  if JsAny.nullish json then TypeError
  else
    let position := JsAny.prop "position" json in
    if JsAny.nullish position then TypeError
    else
      let table :=
        id ← JsAny.asString (JsAny.prop "id" json);
        name ← JsAny.asString (JsAny.prop "name" json);
        x ← JsAny.asNumber (JsAny.prop "x" position);
        y ← JsAny.asNumber (JsAny.prop "y" position);
        comment ← JsAny.asOptional JsAny.asString (JsAny.prop "comment" json);
        indexes ←
          JsAny.asArray asIndex (JsAny.or (JsAny.prop "indexes" json) (JsArr []));
        constraints ←
          JsAny.asArray asConstraint
            (JsAny.or (JsAny.prop "constraints" json) (JsArr []));
        Some {| id := id; name := name; position := {| x := x; y := y |};
                columns := [];
                indexes := indexes; constraints := constraints;
                comment := comment |} in
      match JsAny.iterate (JsAny.or (JsAny.prop "columns" json) (JsArr [])) with
      | None => TypeError
      | Some items => JsAny.forEach Column.fromJSON addColumn items table
      end.

End Table.

(** ** models/Relationship.ts: the relationship record and the result types *)

Module ValidationError.
Record t := mk {
  code : string;
  message : string;
  field : option string;
  suggestion : option string
}.
End ValidationError.

Module ValidationWarning.
Record t := mk {
  code : string;
  message : string;
  field : option string;
  suggestion : option string
}.
End ValidationWarning.

Module ValidationResult.
Record t := mk {
  valid : bool;
  errors : list ValidationError.t;
  warnings : list ValidationWarning.t
}.
End ValidationResult.

Module Relationship.

Inductive RelationType := OneToOne | OneToMany | ManyToMany.
Inductive ReferentialAction := CASCADE | SET_NULL | RESTRICT | NO_ACTION.

Record t := mk {
  id : string;
  name : option string;
  type : RelationType;
  sourceTableId : string;
  targetTableId : string;
  sourceColumnId : string;
  targetColumnId : string;
  onDelete : option ReferentialAction;
  onUpdate : option ReferentialAction;
  comment : option string
}.

Definition ofRelationType (t : RelationType) : string :=
  match t with
  | OneToOne => "one-to-one"
  | OneToMany => "one-to-many"
  | ManyToMany => "many-to-many"
  end.

Definition asRelationType (v : JsValue) : option RelationType :=
  match v with
  | JsStr s =>
      if String.eqb s "one-to-one" then Some OneToOne
      else if String.eqb s "one-to-many" then Some OneToMany
      else if String.eqb s "many-to-many" then Some ManyToMany
      else None
  | _ => None
  end.

Definition ofReferentialAction (a : ReferentialAction) : JsValue :=
  JsStr match a with
        | CASCADE => "CASCADE"
        | SET_NULL => "SET NULL"
        | RESTRICT => "RESTRICT"
        | NO_ACTION => "NO ACTION"
        end.

Definition asReferentialAction (v : JsValue) : option ReferentialAction :=
  match v with
  | JsStr s =>
      if String.eqb s "CASCADE" then Some CASCADE
      else if String.eqb s "SET NULL" then Some SET_NULL
      else if String.eqb s "RESTRICT" then Some RESTRICT
      else if String.eqb s "NO ACTION" then Some NO_ACTION
      else None
  | _ => None
  end.

Definition toJSON (r : t) : JsValue :=
  JsObj [("id", JsStr (id r));
         ("name", JsAny.ofOptional JsStr (name r));
         ("type", JsStr (ofRelationType (type r)));
         ("sourceTableId", JsStr (sourceTableId r));
         ("targetTableId", JsStr (targetTableId r));
         ("sourceColumnId", JsStr (sourceColumnId r));
         ("targetColumnId", JsStr (targetColumnId r));
         ("onDelete", JsAny.ofOptional ofReferentialAction (onDelete r));
         ("onUpdate", JsAny.ofOptional ofReferentialAction (onUpdate r));
         ("comment", JsAny.ofOptional JsStr (comment r))].

(** [json.id] throws when [json] is [null] or [undefined]; nothing else
    does. *)
Definition fromJSON (json : JsValue) : outcome t :=
  if JsAny.nullish json then TypeError
  else
    Returns
      (id ← JsAny.asString (JsAny.prop "id" json);
       type ← asRelationType (JsAny.prop "type" json);
       sourceTableId ← JsAny.asString (JsAny.prop "sourceTableId" json);
       targetTableId ← JsAny.asString (JsAny.prop "targetTableId" json);
       sourceColumnId ← JsAny.asString (JsAny.prop "sourceColumnId" json);
       targetColumnId ← JsAny.asString (JsAny.prop "targetColumnId" json);
       name ← JsAny.asOptional JsAny.asString (JsAny.prop "name" json);
       onDelete ← JsAny.asOptional asReferentialAction (JsAny.prop "onDelete" json);
       onUpdate ← JsAny.asOptional asReferentialAction (JsAny.prop "onUpdate" json);
       comment ← JsAny.asOptional JsAny.asString (JsAny.prop "comment" json);
       Some {| id := id; name := name; type := type;
               sourceTableId := sourceTableId; targetTableId := targetTableId;
               sourceColumnId := sourceColumnId; targetColumnId := targetColumnId;
               onDelete := onDelete; onUpdate := onUpdate;
               comment := comment |}).

End Relationship.

(** ** models/Schema.ts *)

Module Schema.

Record t := mk {
  name : string;
  tables : JsMap.t Table.t;
  relationships : JsMap.t Relationship.t;
  metadata : list (string * JsValue)
}.

(** [new Schema()] *)
Definition empty : t :=
  {| name := "Untitled Schema"; tables := []; relationships := []; metadata := [] |}.

Definition addTable (table : Table.t) (s : t) : t :=
  {| name := name s;
     tables := JsMap.set (Table.id table) table (tables s);
     relationships := relationships s;
     metadata := metadata s |}.

Definition getTable (s : t) (id : string) : option Table.t :=
  JsMap.get id (tables s).

Definition addRelationship (rel : Relationship.t) (s : t) : t :=
  {| name := name s;
     tables := tables s;
     relationships := JsMap.set (Relationship.id rel) rel (relationships s);
     metadata := metadata s |}.

Definition removeRelationship (id : string) (s : t) : t :=
  {| name := name s;
     tables := tables s;
     relationships := JsMap.delete id (relationships s);
     metadata := metadata s |}.

Definition getRelationship (s : t) (id : string) : option Relationship.t :=
  JsMap.get id (relationships s).

(** The ids collected by the first loop of [removeTable]. *)
Definition toDelete (id : string) (rels : JsMap.t Relationship.t) : list string :=
  foldl (λ acc e,
           JsArray.pushIf
             (JsString.eqb (Relationship.sourceTableId e.2) id
              || JsString.eqb (Relationship.targetTableId e.2) id)
             e.1 acc)
        [] rels.

Definition removeTable (id : string) (s : t) : t :=
  {| name := name s;
     tables := JsMap.delete id (tables s);
     relationships :=
       foldl (λ rels relId, JsMap.delete relId rels)
             (relationships s) (toDelete id (relationships s));
     metadata := metadata s |}.

Definition toJSON (s : t) : JsValue :=
  JsObj [("name", JsStr (name s));
         ("tables", JsArr (Table.toJSON <$> JsMap.values (tables s)));
         ("relationships",
          JsArr (Relationship.toJSON <$> JsMap.values (relationships s)));
         ("metadata", JsObj (metadata s))].

(** [json.name] throws when [json] is [null] or [undefined], each loop when
    what it goes through is neither falsy nor iterable, and
    [Table.fromJSON] and [Relationship.fromJSON] as they do; the tables are
    read before the relationships. *)
Definition fromJSON {unicode : JsString.Unicode} (json : JsValue) : outcome t :=
  if JsAny.nullish json then TypeError
  else
    let schema :=
      name ← JsAny.asString
                (JsAny.or (JsAny.prop "name" json) (JsStr "Untitled Schema"));
      metadata ← match JsAny.or (JsAny.prop "metadata" json) (JsObj []) with
                 | JsObj props => Some props
                 | _ => None
                 end;
      Some {| name := name; tables := []; relationships := [];
              metadata := metadata |} in
    match JsAny.iterate (JsAny.or (JsAny.prop "tables" json) (JsArr [])) with
    | None => TypeError
    | Some items =>
        match JsAny.forEach Table.fromJSON addTable items schema with
        | TypeError => TypeError
        | Returns schema =>
            match JsAny.iterate
                    (JsAny.or (JsAny.prop "relationships" json) (JsArr [])) with
            | None => TypeError
            | Some items =>
                JsAny.forEach Relationship.fromJSON addRelationship items schema
            end
        end
    end.

Definition clone {unicode : JsString.Unicode} (s : t) : outcome t := fromJSON (toJSON s).

(** The invariant of the two maps: keys are pairwise distinct, and every
    entry sits under the id of its value, as [addTable] and
    [addRelationship] file it. *)
Definition wf (s : t) : Prop :=
  JsMap.wf (tables s) ∧ JsMap.wf (relationships s)
  ∧ Forall (λ e, e.1 = Table.id e.2) (tables s)
  ∧ Forall (λ e, e.1 = Relationship.id e.2) (relationships s).

End Schema.

(** ** models/Relationship.ts: [validate] and [areTypesCompatible]

    [Relationship.validate] reads the schema, which is declared after the
    relationship record, so the two methods live in a module of their own. *)

Module RelationshipValidator.

Import JsArray.

Section WithUnicode.

Context {unicode : JsString.Unicode}.

(** [type.split('(')[0].trim().toUpperCase()] *)
Definition normalize (type : string) : string :=
  JsString.toUpperCase (JsString.trim (JsString.splitHead "("%char type)).

Definition numericTypes : list string :=
  ["INT"; "INTEGER"; "BIGINT"; "SMALLINT"; "TINYINT";
   "DECIMAL"; "NUMERIC"; "FLOAT"; "DOUBLE"; "NUMBER"].
Definition stringTypes : list string :=
  ["VARCHAR"; "CHAR"; "TEXT"; "STRING"; "CLOB"].
Definition dateTypes : list string :=
  ["DATE"; "DATETIME"; "TIMESTAMP"; "TIME"].

Definition areTypesCompatible (type1 type2 : string) : bool :=
  let t1 := normalize type1 in
  let t2 := normalize type2 in
  if JsString.eqb t1 t2 then true
  else if includes numericTypes t1 && includes numericTypes t2 then true
  else if includes stringTypes t1 && includes stringTypes t2 then true
  else if includes dateTypes t1 && includes dateTypes t2 then true
  else false.

Definition sourceTableNotFound (r : Relationship.t) : ValidationError.t :=
  {| ValidationError.code := "SOURCE_TABLE_NOT_FOUND";
     ValidationError.message :=
       "Source table with ID '" +:+ Relationship.sourceTableId r +:+ "' not found";
     ValidationError.field := Some "sourceTableId";
     ValidationError.suggestion :=
       Some "Remove this relationship or restore the source table" |}.

Definition targetTableNotFound (r : Relationship.t) : ValidationError.t :=
  {| ValidationError.code := "TARGET_TABLE_NOT_FOUND";
     ValidationError.message :=
       "Target table with ID '" +:+ Relationship.targetTableId r +:+ "' not found";
     ValidationError.field := Some "targetTableId";
     ValidationError.suggestion :=
       Some "Remove this relationship or restore the target table" |}.

Definition sourceColumnNotFound (r : Relationship.t) (sourceTable : Table.t)
  : ValidationError.t :=
  {| ValidationError.code := "SOURCE_COLUMN_NOT_FOUND";
     ValidationError.message :=
       "Source column with ID '" +:+ Relationship.sourceColumnId r
       +:+ "' not found in table '" +:+ Table.name sourceTable +:+ "'";
     ValidationError.field := Some "sourceColumnId";
     ValidationError.suggestion :=
       Some "Select a valid column from the source table" |}.

Definition targetColumnNotFound (r : Relationship.t) (targetTable : Table.t)
  : ValidationError.t :=
  {| ValidationError.code := "TARGET_COLUMN_NOT_FOUND";
     ValidationError.message :=
       "Target column with ID '" +:+ Relationship.targetColumnId r
       +:+ "' not found in table '" +:+ Table.name targetTable +:+ "'";
     ValidationError.field := Some "targetColumnId";
     ValidationError.suggestion :=
       Some "Select a valid column from the target table" |}.

Definition typeMismatch (sourceColumn targetColumn : Column.t) : ValidationError.t :=
  {| ValidationError.code := "TYPE_MISMATCH";
     ValidationError.message :=
       "Column types are incompatible: '" +:+ Column.type sourceColumn
       +:+ "' and '" +:+ Column.type targetColumn +:+ "'";
     ValidationError.field := Some "sourceColumnId";
     ValidationError.suggestion :=
       Some "Ensure both columns have compatible data types" |}.

Definition targetNotPrimaryKey (targetColumn : Column.t) : ValidationWarning.t :=
  {| ValidationWarning.code := "TARGET_NOT_PRIMARY_KEY";
     ValidationWarning.message :=
       "Target column '" +:+ Column.name targetColumn
       +:+ "' is not a primary key or unique";
     ValidationWarning.field := Some "targetColumnId";
     ValidationWarning.suggestion :=
       Some "Consider making the target column a primary key or unique" |}.

Definition sourceNoIndex (sourceColumn : Column.t) : ValidationWarning.t :=
  {| ValidationWarning.code := "SOURCE_NO_INDEX";
     ValidationWarning.message :=
       "Source column '" +:+ Column.name sourceColumn
       +:+ "' should have an index for better performance";
     ValidationWarning.field := Some "sourceColumnId";
     ValidationWarning.suggestion := Some "Add an index on the source column" |}.

Definition expectedName (targetTable : Table.t) : string :=
  JsString.toLowerCase (Table.name targetTable) +:+ "_id".

Definition namingConvention (sourceColumn : Column.t) (targetTable : Table.t)
  : ValidationWarning.t :=
  {| ValidationWarning.code := "NAMING_CONVENTION";
     ValidationWarning.message :=
       "Foreign key column '" +:+ Column.name sourceColumn
       +:+ "' doesn't follow naming convention";
     ValidationWarning.field := Some "sourceColumnId";
     ValidationWarning.suggestion :=
       Some ("Consider renaming to '" +:+ expectedName targetTable +:+ "'") |}.

Definition isToMany (ty : Relationship.RelationType) : bool :=
  match ty with
  | Relationship.OneToMany | Relationship.ManyToMany => true
  | Relationship.OneToOne => false
  end.

Definition validate (r : Relationship.t) (schema : Schema.t) : ValidationResult.t :=
  let sourceTable := Schema.getTable schema (Relationship.sourceTableId r) in
  let targetTable := Schema.getTable schema (Relationship.targetTableId r) in
  let errors := [] in
  let warnings := [] in
  let errors := pushIf (negb (bool_decide (is_Some sourceTable)))
                       (sourceTableNotFound r) errors in
  let errors := pushIf (negb (bool_decide (is_Some targetTable)))
                       (targetTableNotFound r) errors in
  match sourceTable, targetTable with
  | Some sourceTable, Some targetTable =>
      let sourceColumn := Table.getColumn sourceTable (Relationship.sourceColumnId r) in
      let targetColumn := Table.getColumn targetTable (Relationship.targetColumnId r) in
      let errors := pushIf (negb (bool_decide (is_Some sourceColumn)))
                           (sourceColumnNotFound r sourceTable) errors in
      let errors := pushIf (negb (bool_decide (is_Some targetColumn)))
                           (targetColumnNotFound r targetTable) errors in
      match sourceColumn, targetColumn with
      | Some sourceColumn, Some targetColumn =>
          let errors :=
            pushIf (negb (areTypesCompatible (Column.type sourceColumn)
                                             (Column.type targetColumn)))
                   (typeMismatch sourceColumn targetColumn) errors in
          let warnings :=
            pushIf (negb (Column.primaryKey targetColumn)
                    && negb (Column.unique targetColumn))
                   (targetNotPrimaryKey targetColumn) warnings in
          let warnings :=
            pushIf (negb (Column.primaryKey sourceColumn)
                    && negb (Column.unique sourceColumn))
                   (sourceNoIndex sourceColumn) warnings in
          let warnings :=
            pushIf (isToMany (Relationship.type r)
                    && negb (JsString.eqb
                               (JsString.toLowerCase (Column.name sourceColumn))
                               (expectedName targetTable)))
                   (namingConvention sourceColumn targetTable) warnings in
          {| ValidationResult.valid := bool_decide (length errors = 0);
             ValidationResult.errors := errors;
             ValidationResult.warnings := warnings |}
      | _, _ =>
          {| ValidationResult.valid := false;
             ValidationResult.errors := errors;
             ValidationResult.warnings := warnings |}
      end
  | _, _ =>
      {| ValidationResult.valid := false;
         ValidationResult.errors := errors;
         ValidationResult.warnings := warnings |}
  end.

End WithUnicode.

End RelationshipValidator.

(** ** services/ValidationEngine.ts *)

Module ValidationEngine.

Import JsArray.

Section WithUnicode.

Context {unicode : JsString.Unicode}.

(** A loop body that may run out of [fuel]: [forM f l st] runs [f] on
    the items of [l] from left to right, threading the state. *)
Fixpoint forM {A S} (f : A → S → option S) (l : list A) (st : S) : option S :=
  match l with
  | [] => Some st
  | a :: l' => st' ← f a st; forM f l' st'
  end.

(** *** The table pass *)

Definition blank (s : string) : bool :=
  JsString.falsy s || JsString.eqb (JsString.trim s) "".

Definition isNumericType (type : string) : bool :=
  let normalizedType :=
    JsString.toUpperCase (JsString.trim (JsString.splitHead "("%char type)) in
  includes
    ["INT"; "INTEGER"; "BIGINT"; "SMALLINT"; "TINYINT";
     "DECIMAL"; "NUMERIC"; "FLOAT"; "DOUBLE"; "NUMBER"]
    normalizedType.

Definition duplicateTableName (table : Table.t) : ValidationError.t :=
  {| ValidationError.code := "DUPLICATE_TABLE_NAME";
     ValidationError.message := "Duplicate table name: '" +:+ Table.name table +:+ "'";
     ValidationError.field := Some (Table.id table);
     ValidationError.suggestion :=
       Some "Rename one of the tables with duplicate names" |}.

Definition tableEmptyName (table : Table.t) : ValidationError.t :=
  {| ValidationError.code := "TABLE_EMPTY_NAME";
     ValidationError.message := "Table has empty name";
     ValidationError.field := Some (Table.id table);
     ValidationError.suggestion := Some "Provide a name for the table" |}.

Definition tableNoColumns (table : Table.t) : ValidationError.t :=
  {| ValidationError.code := "TABLE_NO_COLUMNS";
     ValidationError.message := "Table '" +:+ Table.name table +:+ "' has no columns";
     ValidationError.field := Some (Table.id table);
     ValidationError.suggestion := Some "Add at least one column to the table" |}.

Definition tableNoPrimaryKey (table : Table.t) : ValidationError.t :=
  {| ValidationError.code := "TABLE_NO_PRIMARY_KEY";
     ValidationError.message :=
       "Table '" +:+ Table.name table +:+ "' has no primary key";
     ValidationError.field := Some (Table.id table);
     ValidationError.suggestion := Some "Add a primary key to the table" |}.

Definition duplicateColumnName (table : Table.t) (column : Column.t)
  : ValidationError.t :=
  {| ValidationError.code := "DUPLICATE_COLUMN_NAME";
     ValidationError.message :=
       "Duplicate column name '" +:+ Column.name column
       +:+ "' in table '" +:+ Table.name table +:+ "'";
     ValidationError.field := Some (Column.id column);
     ValidationError.suggestion :=
       Some "Rename one of the columns with duplicate names" |}.

(** The two entry points report an empty column name and an empty column
    type under different codes; [code] is the only difference. *)
Definition columnEmptyName (code : string) (table : Table.t) (column : Column.t)
  : ValidationError.t :=
  {| ValidationError.code := code;
     ValidationError.message :=
       "Column in table '" +:+ Table.name table +:+ "' has empty name";
     ValidationError.field := Some (Column.id column);
     ValidationError.suggestion := Some "Provide a name for the column" |}.

Definition columnEmptyType (code : string) (table : Table.t) (column : Column.t)
  : ValidationError.t :=
  {| ValidationError.code := code;
     ValidationError.message :=
       "Column '" +:+ Column.name column
       +:+ "' in table '" +:+ Table.name table +:+ "' has empty type";
     ValidationError.field := Some (Column.id column);
     ValidationError.suggestion := Some "Specify a data type for the column" |}.

Definition primaryKeyNullable (table : Table.t) (column : Column.t)
  : ValidationError.t :=
  {| ValidationError.code := "PRIMARY_KEY_NULLABLE";
     ValidationError.message :=
       "Primary key column '" +:+ Column.name column
       +:+ "' in table '" +:+ Table.name table +:+ "' cannot be nullable";
     ValidationError.field := Some (Column.id column);
     ValidationError.suggestion := Some "Set the column as NOT NULL" |}.

Definition autoIncrementNonNumeric (table : Table.t) (column : Column.t)
  : ValidationError.t :=
  {| ValidationError.code := "AUTO_INCREMENT_NON_NUMERIC";
     ValidationError.message :=
       "Auto increment column '" +:+ Column.name column
       +:+ "' in table '" +:+ Table.name table +:+ "' must be numeric";
     ValidationError.field := Some (Column.id column);
     ValidationError.suggestion :=
       Some "Change the column type to a numeric type (INT, BIGINT, etc.)" |}.

(** The state of a loop that tracks the names seen so far next to the
    errors collected so far. *)
Abbreviation Seen := (gset string * list ValidationError.t)%type.

(** Body of the column loop of [validateTables]. *)
Definition validateTables_column (table : Table.t) (acc : Seen) (column : Column.t)
  : Seen :=
  let columnNames := acc.1 in
  let errors := acc.2 in
  let errors :=
    pushIf (bool_decide (JsString.toLowerCase (Column.name column) ∈ columnNames))
           (duplicateColumnName table column) errors in
  let columnNames := {[JsString.toLowerCase (Column.name column)]} ∪ columnNames in
  let errors := pushIf (blank (Column.name column))
                       (columnEmptyName "EMPTY_COLUMN_NAME" table column) errors in
  let errors := pushIf (blank (Column.type column))
                       (columnEmptyType "EMPTY_COLUMN_TYPE" table column) errors in
  let errors := pushIf (Column.primaryKey column && Column.nullable column)
                       (primaryKeyNullable table column) errors in
  let errors := pushIf (Column.autoIncrement column
                        && negb (isNumericType (Column.type column)))
                       (autoIncrementNonNumeric table column) errors in
  (columnNames, errors).

(** Body of the table loop of [validateTables]. *)
Definition validateTables_table (acc : Seen) (table : Table.t) : Seen :=
  let tableNames := acc.1 in
  let errors := acc.2 in
  let errors :=
    pushIf (bool_decide (JsString.toLowerCase (Table.name table) ∈ tableNames))
           (duplicateTableName table) errors in
  let tableNames := {[JsString.toLowerCase (Table.name table)]} ∪ tableNames in
  let errors := pushIf (blank (Table.name table)) (tableEmptyName table) errors in
  let errors := pushIf (bool_decide (length (Table.columns table) = 0))
                       (tableNoColumns table) errors in
  let primaryKeys := Table.getPrimaryKeys table in
  let errors := pushIf (bool_decide (length primaryKeys = 0))
                       (tableNoPrimaryKey table) errors in
  let columnLoop :=
    foldl (validateTables_column table) (∅, errors) (Table.columns table) in
  (tableNames, columnLoop.2).

Definition validateTables (schema : Schema.t) : ValidationResult.t :=
  let errors :=
    (foldl validateTables_table (∅, []) (JsMap.values (Schema.tables schema))).2 in
  {| ValidationResult.valid := bool_decide (length errors = 0);
     ValidationResult.errors := errors;
     ValidationResult.warnings := [] |}.

(** *** The relationship pass *)

Definition validateRelationships_step
    (schema : Schema.t)
    (acc : list ValidationError.t * list ValidationWarning.t)
    (relationship : Relationship.t)
  : list ValidationError.t * list ValidationWarning.t :=
  let result := RelationshipValidator.validate relationship schema in
  (acc.1 ++ ValidationResult.errors result,
   acc.2 ++ ValidationResult.warnings result).

Definition validateRelationships (schema : Schema.t) : ValidationResult.t :=
  let acc := foldl (validateRelationships_step schema) ([], [])
                   (JsMap.values (Schema.relationships schema)) in
  {| ValidationResult.valid := bool_decide (length acc.1 = 0);
     ValidationResult.errors := acc.1;
     ValidationResult.warnings := acc.2 |}.

(** *** The circular-dependency pass *)

Record Dfs := mkDfs {
  visited : gset string;
  recursionStack : gset string;
  found : list ValidationWarning.t
}.

(** [table ? table.name : id] *)
Definition tableLabel (schema : Schema.t) (id : string) : string :=
  match Schema.getTable schema id with
  | Some table => Table.name table
  | None => id
  end.

Definition circularDependency (schema : Schema.t) (tableId : string)
    (path : list string) : ValidationWarning.t :=
  let cycleStart := indexOf tableId path in
  let cyclePath :=
    JsString.join " → " (tableLabel schema <$> slice cycleStart path) in
  {| ValidationWarning.code := "CIRCULAR_DEPENDENCY";
     ValidationWarning.message := "Circular dependency detected: " +:+ cyclePath;
     ValidationWarning.field := Some tableId;
     ValidationWarning.suggestion :=
       Some "Review the relationships to break the circular dependency" |}.

(** The closure [hasCycle]. Its recursion is bounded by the number of ids
    that can sit on the recursion stack at once; [fuel] counts the levels
    of recursion still allowed, and [None] means that they ran out. *)
Fixpoint hasCycle (fuel : nat) (schema : Schema.t) (tableId : string)
    (path : list string) (st : Dfs) : option (bool * Dfs) :=
  match fuel with
  | 0 => None
  | S fuel' =>
      if bool_decide (tableId ∈ recursionStack st) then
        Some (true,
              {| visited := visited st;
                 recursionStack := recursionStack st;
                 found := found st ++ [circularDependency schema tableId path] |})
      else if bool_decide (tableId ∈ visited st) then
        Some (false, st)
      else
        let st := {| visited := {[tableId]} ∪ visited st;
                     recursionStack := {[tableId]} ∪ recursionStack st;
                     found := found st |} in
        let path := path ++ [tableId] in
        st ← forM (λ rel st,
                     if JsString.eqb (Relationship.sourceTableId rel) tableId
                     then snd <$> hasCycle fuel' schema
                                    (Relationship.targetTableId rel) path st
                     else Some st)
                  (JsMap.values (Schema.relationships schema)) st;
        Some (false,
              {| visited := visited st;
                 recursionStack := recursionStack st ∖ {[tableId]};
                 found := found st |})
  end.

(** The outer loop over [this.schema.tables.keys()]. *)
Definition circularWarnings (fuel : nat) (schema : Schema.t)
  : option (list ValidationWarning.t) :=
  st ← forM (λ tableId st,
               if bool_decide (tableId ∈ visited st) then Some st
               else snd <$> hasCycle fuel schema tableId [] st)
            (JsMap.keys (Schema.tables schema))
            {| visited := ∅; recursionStack := ∅; found := [] |};
  Some (found st).

(** One level of recursion for every id that can be on the stack (a key of
    the table map or the target of a relationship), and one more for the
    call that finds the stack closed. *)
Definition dfsFuel (schema : Schema.t) : nat :=
  S (JsMap.size (Schema.tables schema) + JsMap.size (Schema.relationships schema)).

Definition checkCircularDependencies (schema : Schema.t) : ValidationResult.t :=
  {| ValidationResult.valid := true;
     ValidationResult.errors := [];
     ValidationResult.warnings := default [] (circularWarnings (dfsFuel schema) schema) |}.

(** *** The orphan-table pass *)

Definition orphanTable (table : Table.t) : ValidationWarning.t :=
  {| ValidationWarning.code := "ORPHAN_TABLE";
     ValidationWarning.message :=
       "Table '" +:+ Table.name table +:+ "' has no relationships with other tables";
     ValidationWarning.field := Some (Table.id table);
     ValidationWarning.suggestion :=
       Some "Consider adding relationships or removing the table if not needed" |}.

Definition connectedTables (schema : Schema.t) : gset string :=
  foldl (λ (acc : gset string) rel,
           {[Relationship.targetTableId rel]}
           ∪ ({[Relationship.sourceTableId rel]} ∪ acc))
        ∅ (JsMap.values (Schema.relationships schema)).

Definition checkOrphanTables (schema : Schema.t) : ValidationResult.t :=
  if bool_decide (JsMap.size (Schema.tables schema) ≤ 1) then
    {| ValidationResult.valid := true;
       ValidationResult.errors := [];
       ValidationResult.warnings := [] |}
  else
    let connected := connectedTables schema in
    let warnings :=
      foldl (λ warnings table,
               pushIf (negb (bool_decide (Table.id table ∈ connected)))
                      (orphanTable table) warnings)
            [] (JsMap.values (Schema.tables schema)) in
    {| ValidationResult.valid := true;
       ValidationResult.errors := [];
       ValidationResult.warnings := warnings |}.

(** *** Entry points *)

Definition validateSchema (schema : Schema.t) : ValidationResult.t :=
  let tableValidation := validateTables schema in
  let relationshipValidation := validateRelationships schema in
  let circularValidation := checkCircularDependencies schema in
  let orphanValidation := checkOrphanTables schema in
  let errors :=
    ValidationResult.errors tableValidation
    ++ ValidationResult.errors relationshipValidation in
  let warnings :=
    ValidationResult.warnings tableValidation
    ++ ValidationResult.warnings relationshipValidation
    ++ ValidationResult.warnings circularValidation
    ++ ValidationResult.warnings orphanValidation in
  {| ValidationResult.valid := bool_decide (length errors = 0);
     ValidationResult.errors := errors;
     ValidationResult.warnings := warnings |}.

Definition tableNotFound (tableId : string) : ValidationError.t :=
  {| ValidationError.code := "TABLE_NOT_FOUND";
     ValidationError.message := "Table with ID '" +:+ tableId +:+ "' not found";
     ValidationError.field := Some tableId;
     ValidationError.suggestion := Some "Check if the table exists" |}.

(** Body of the column loop of [validateTable]. *)
Definition validateTable_column (table : Table.t) (acc : Seen) (column : Column.t)
  : Seen :=
  let columnNames := acc.1 in
  let errors := acc.2 in
  let errors :=
    pushIf (bool_decide (JsString.toLowerCase (Column.name column) ∈ columnNames))
           (duplicateColumnName table column) errors in
  let columnNames := {[JsString.toLowerCase (Column.name column)]} ∪ columnNames in
  let errors := pushIf (blank (Column.name column))
                       (columnEmptyName "COLUMN_EMPTY_NAME" table column) errors in
  let errors := pushIf (blank (Column.type column))
                       (columnEmptyType "COLUMN_EMPTY_TYPE" table column) errors in
  (columnNames, errors).

Definition validateTable (schema : Schema.t) (tableId : string) : ValidationResult.t :=
  match Schema.getTable schema tableId with
  | None =>
      {| ValidationResult.valid := false;
         ValidationResult.errors := [tableNotFound tableId];
         ValidationResult.warnings := [] |}
  | Some table =>
      let errors := [] in
      let errors := pushIf (blank (Table.name table)) (tableEmptyName table) errors in
      let errors := pushIf (bool_decide (length (Table.columns table) = 0))
                           (tableNoColumns table) errors in
      let primaryKeys := Table.getPrimaryKeys table in
      let errors := pushIf (bool_decide (length primaryKeys = 0))
                           (tableNoPrimaryKey table) errors in
      let errors :=
        (foldl (validateTable_column table) (∅, errors) (Table.columns table)).2 in
      {| ValidationResult.valid := bool_decide (length errors = 0);
         ValidationResult.errors := errors;
         ValidationResult.warnings := [] |}
  end.

Definition relationshipNotFound (relationshipId : string) : ValidationError.t :=
  {| ValidationError.code := "RELATIONSHIP_NOT_FOUND";
     ValidationError.message :=
       "Relationship with ID '" +:+ relationshipId +:+ "' not found";
     ValidationError.field := Some relationshipId;
     ValidationError.suggestion := Some "Check if the relationship exists" |}.

Definition validateRelationship (schema : Schema.t) (relationshipId : string)
  : ValidationResult.t :=
  match Schema.getRelationship schema relationshipId with
  | None =>
      {| ValidationResult.valid := false;
         ValidationResult.errors := [relationshipNotFound relationshipId];
         ValidationResult.warnings := [] |}
  | Some relationship => RelationshipValidator.validate relationship schema
  end.

End WithUnicode.

End ValidationEngine.

(** ** utils/types.ts: rectangles *)

Module Geometry.

Import FloatClass PrimFloat.

Record Point := mkPoint { px : float; py : float }.

Record Rect := mkRect { x : float; y : float; width : float; height : float }.

(** [a >= b] and [a <= b] on numbers: both are false when a side is NaN. *)
Definition geb (a b : float) : bool := leb b a.

Definition rectContainsPoint (rect : Rect) (point : Point) : bool :=
  geb (px point) (x rect)
  && leb (px point) (x rect + width rect)
  && geb (py point) (y rect)
  && leb (py point) (y rect + height rect).

Definition rectsIntersect (a b : Rect) : bool :=
  negb (ltb (x a + width a) (x b)
        || ltb (x b + width b) (x a)
        || ltb (y a + height a) (y b)
        || ltb (y b + height b) (y a)).

Definition isNegZero (a : float) : bool :=
  match classify a with NZero => true | _ => false end.

Definition isPosZero (a : float) : bool :=
  match classify a with PZero => true | _ => false end.

(** [Math.min(...values)]: +∞ for no value, NaN as soon as a value is NaN,
    and -0 below +0. *)
Definition mathMin (values : list float) : float :=
  foldl (λ lowest number,
           if is_nan lowest || is_nan number then nan
           else if isNegZero number && isPosZero lowest then number
           else if ltb number lowest then number
           else lowest)
        infinity values.

(** [Math.max(...values)]: -∞ for no value, NaN as soon as a value is NaN,
    and +0 above -0. *)
Definition mathMax (values : list float) : float :=
  foldl (λ highest number,
           if is_nan highest || is_nan number then nan
           else if isPosZero number && isNegZero highest then number
           else if ltb highest number then number
           else highest)
        neg_infinity values.

End Geometry.

(** ** renderer/DirtyRegionManager.ts *)

Module DirtyRegionManager.

Import PrimFloat.

Record t := mk {
  regions : list Geometry.Rect;
  fullRedraw : bool
}.

(** [new DirtyRegionManager()] *)
Definition empty : t := {| regions := []; fullRedraw := false |}.

(** [addRegion(region?)]: no region asks for a full redraw. *)
Definition addRegion (region : option Geometry.Rect) (m : t) : t :=
  match region with
  | None => {| regions := []; fullRedraw := true |}
  | Some region =>
      if fullRedraw m then m
      else {| regions := regions m ++ [region]; fullRedraw := fullRedraw m |}
  end.

Definition mergeRegions (regions : list Geometry.Rect) : list Geometry.Rect :=
  match regions with
  | [] => []
  | [_] => regions
  | _ =>
      let minX := Geometry.mathMin (Geometry.x <$> regions) in
      let minY := Geometry.mathMin (Geometry.y <$> regions) in
      let maxX :=
        Geometry.mathMax ((λ r, Geometry.x r + Geometry.width r)%float <$> regions) in
      let maxY :=
        Geometry.mathMax ((λ r, Geometry.y r + Geometry.height r)%float <$> regions) in
      [{| Geometry.x := minX;
          Geometry.y := minY;
          Geometry.width := (maxX - minX)%float;
          Geometry.height := (maxY - minY)%float |}]
  end.

Definition everything : Geometry.Rect :=
  {| Geometry.x := 0%float; Geometry.y := 0%float;
     Geometry.width := infinity; Geometry.height := infinity |}.

Definition getRegions (m : t) : list Geometry.Rect :=
  if fullRedraw m then [everything]
  else if bool_decide (length (regions m) = 0) then []
  else mergeRegions (regions m).

Definition clear (m : t) : t := {| regions := []; fullRedraw := false |}.

Definition isDirty (m : t) : bool :=
  fullRedraw m || bool_decide (0 < length (regions m)).

Definition isRegionDirty (region : Geometry.Rect) (m : t) : bool :=
  if fullRedraw m then true
  else existsb (λ dirty, Geometry.rectsIntersect region dirty) (regions m).

End DirtyRegionManager.

(** ** ddl/generators/SnowflakeGenerator.ts: [generateRelationship] *)

Module SnowflakeGenerator.

Section WithUnicode.

Context {unicode : JsString.Unicode}.

Definition newline : string := String "010"%char EmptyString.

(** The ALTER TABLE statement of a relationship whose tables and columns
    resolve; the empty string otherwise. *)
Definition generateRelationship (rel : Relationship.t) (schema : Schema.t) : string :=
  let sourceTable := Schema.getTable schema (Relationship.sourceTableId rel) in
  let targetTable := Schema.getTable schema (Relationship.targetTableId rel) in
  match sourceTable, targetTable with
  | Some sourceTable, Some targetTable =>
      let sourceCol := Table.getColumn sourceTable (Relationship.sourceColumnId rel) in
      let targetCol := Table.getColumn targetTable (Relationship.targetColumnId rel) in
      match sourceCol, targetCol with
      | Some sourceCol, Some targetCol =>
          "ALTER TABLE " +:+ JsString.toUpperCase (Table.name sourceTable)
          +:+ " ADD CONSTRAINT FK_" +:+ JsString.toUpperCase (Table.name sourceTable)
          +:+ "_" +:+ JsString.toUpperCase (Table.name targetTable)
          +:+ " " +:+ newline
          +:+ "  FOREIGN KEY (" +:+ JsString.toUpperCase (Column.name sourceCol)
          +:+ ") REFERENCES " +:+ JsString.toUpperCase (Table.name targetTable)
          +:+ " (" +:+ JsString.toUpperCase (Column.name targetCol) +:+ ");"
      | _, _ => ""
      end
  | _, _ => ""
  end.

End WithUnicode.

End SnowflakeGenerator.

(** ** Fixtures

    Small schemas in the style of test/unit/ValidationEngine.test.ts, with
    ids written out instead of generated. *)

Module Fixtures.

Definition column (id name type : string) (primaryKey nullable autoIncrement : bool)
  : Column.t :=
  {| Column.id := id; Column.name := name; Column.type := type;
     Column.nullable := nullable; Column.primaryKey := primaryKey;
     Column.foreignKey := false; Column.unique := false;
     Column.autoIncrement := autoIncrement;
     Column.defaultValue := None; Column.comment := None |}.

Definition table (id name : string) (columns : list Column.t) : Table.t :=
  {| Table.id := id; Table.name := name;
     Table.position := {| Table.x := PrimFloat.zero; Table.y := PrimFloat.zero |};
     Table.columns := columns; Table.indexes := []; Table.constraints := [];
     Table.comment := None |}.

Definition oneToMany (id sourceTableId targetTableId sourceColumnId targetColumnId : string)
  : Relationship.t :=
  {| Relationship.id := id; Relationship.name := None;
     Relationship.type := Relationship.OneToMany;
     Relationship.sourceTableId := sourceTableId;
     Relationship.targetTableId := targetTableId;
     Relationship.sourceColumnId := sourceColumnId;
     Relationship.targetColumnId := targetColumnId;
     Relationship.onDelete := None; Relationship.onUpdate := None;
     Relationship.comment := None |}.

Definition build (tables : list Table.t) (relationships : list Relationship.t)
  : Schema.t :=
  foldl (λ s r, Schema.addRelationship r s)
        (foldl (λ s t, Schema.addTable t s) Schema.empty tables)
        relationships.

(** 'should detect direct circular dependency' *)
Definition table1 : Table.t :=
  table "t1" "table1" [column "t1_id" "id" "INT" true true false;
                       column "t1_fk" "table2_id" "INT" false true false].
Definition table2 : Table.t :=
  table "t2" "table2" [column "t2_id" "id" "INT" true true false;
                       column "t2_fk" "table1_id" "INT" false true false].
Definition directCycle : Schema.t :=
  build [table1; table2]
        [oneToMany "rel1" "t1" "t2" "t1_fk" "t2_id";
         oneToMany "rel2" "t2" "t1" "t2_fk" "t1_id"].

(** 'should validate a correct table': the primary key keeps the default
    [nullable = true]. *)
Definition users : Table.t :=
  table "u" "users" [column "u_id" "id" "INT" true true false].
Definition usersOnly : Schema.t := build [users] [].

(** 'should detect duplicate table names' *)
Definition users2 : Table.t := table "u2" "users" [].
Definition twoUsers : Schema.t := build [users; users2] [].

(** The same two tables, the first one renamed 'Users'. *)
Definition usersCapital : Table.t :=
  table "u" "Users" [column "u_id" "id" "INT" true true false].
Definition usersAnyCase : Schema.t := build [usersCapital; users2] [].

(** A table whose key is in order but for its type: an auto-increment
    column of a type that is not numeric. *)
Definition tags : Table.t :=
  table "g" "tags" [column "g_id" "id" "VARCHAR(50)" true false true].
Definition tagsOnly : Schema.t := build [tags] [].

(** 'should detect orphan tables', with [user_id] pointing at a column
    that [posts] does not have. *)
Definition posts : Table.t :=
  table "p" "posts" [column "p_id" "id" "INT" true false false].
Definition orphan : Table.t :=
  table "o" "orphan" [column "o_id" "id" "INT" true false false].
Definition postsToUsers : Relationship.t :=
  oneToMany "fk" "p" "u" "user_id" "u_id".
Definition blog : Schema.t := build [users; posts; orphan] [postsToUsers].

(** 'should validate a correct relationship': [posts.user_id] refers to
    [users.id], which is not nullable here. *)
Definition usersStrict : Table.t :=
  table "u" "users" [column "u_id" "id" "INT" true false false].
Definition postsWithUser : Table.t :=
  table "p" "posts" [column "p_id" "id" "INT" true false false;
                     column "user_id" "user_id" "INT" false true false].
Definition validBlog : Schema.t :=
  build [usersStrict; postsWithUser] [postsToUsers].

(** What is left of [directCycle] once [table1] is gone but a relationship
    naming it was added back. *)
Definition dangling : Schema.t :=
  Schema.addRelationship (oneToMany "rel3" "t2" "t1" "t2_fk" "t1_id")
                         (Schema.removeTable "t1" directCycle).

End Fixtures.

(** ** Vocabulary of the statements *)

(** What [areTypesCompatible] decides, in terms of the normalized types. *)
Definition sameGroup (t1 t2 : string) : Prop :=
  t1 = t2
  ∨ (t1 ∈ RelationshipValidator.numericTypes ∧ t2 ∈ RelationshipValidator.numericTypes)
  ∨ (t1 ∈ RelationshipValidator.stringTypes ∧ t2 ∈ RelationshipValidator.stringTypes)
  ∨ (t1 ∈ RelationshipValidator.dateTypes ∧ t2 ∈ RelationshipValidator.dateTypes).

(** [result.valid == (result.errors.length == 0)] *)
Definition validIffNoErrors (r : ValidationResult.t) : Prop :=
  ValidationResult.valid r
  = bool_decide (length (ValidationResult.errors r) = 0).

(** A loop body [f] over a state and a result list is appending when it
    leaves what is already collected alone and decides what it adds without
    looking at it. *)
Definition appending {A B S : Type} (f : S * list B → A → S * list B) : Prop :=
  ∀ s e a, f (s, e) a = ((f (s, []) a).1, e ++ (f (s, []) a).2).

Definition hasCode (c : string) (e : ValidationError.t) : Prop :=
  ValidationError.code e = c.

#[global] Instance hasCode_dec c e : Decision (hasCode c e).
Proof. unfold hasCode. apply _. Defined.

Definition hasWarningCode (c : string) (w : ValidationWarning.t) : Prop :=
  ValidationWarning.code w = c.

#[global] Instance hasWarningCode_dec c w : Decision (hasWarningCode c w).
Proof. unfold hasWarningCode. apply _. Defined.

(** The codes of the column loop of the table pass, of the errors of
    [Relationship.validate] and of its warnings. *)
Definition columnCodes : list string :=
  ["DUPLICATE_COLUMN_NAME"; "EMPTY_COLUMN_NAME"; "EMPTY_COLUMN_TYPE";
   "PRIMARY_KEY_NULLABLE"; "AUTO_INCREMENT_NON_NUMERIC"].

Definition relationshipErrorCodes : list string :=
  ["SOURCE_TABLE_NOT_FOUND"; "TARGET_TABLE_NOT_FOUND";
   "SOURCE_COLUMN_NOT_FOUND"; "TARGET_COLUMN_NOT_FOUND"; "TYPE_MISMATCH"].

Definition relationshipWarningCodes : list string :=
  ["TARGET_NOT_PRIMARY_KEY"; "SOURCE_NO_INDEX"; "NAMING_CONVENTION"].

Definition lowerName {unicode : JsString.Unicode} (t : Table.t) : string :=
  JsString.toLowerCase (Table.name t).

(** The names in [tableNames] once the table loop has gone through [ts]. *)
Definition seenTableNames {unicode : JsString.Unicode} (ts : list Table.t) : gset string :=
  list_to_set (lowerName <$> ts).

(** What the table pass adds for [table] when [tableNames] holds [seen]. *)
Definition tableErrors {unicode : JsString.Unicode} (seen : gset string) (table : Table.t)
  : list ValidationError.t :=
  (ValidationEngine.validateTables_table (seen, []) table).2.

(** [id] is the source or the target table of some relationship. *)
Definition isEndpoint (schema : Schema.t) (id : string) : Prop :=
  Exists (λ r, Relationship.sourceTableId r = id ∨ Relationship.targetTableId r = id)
         (JsMap.values (Schema.relationships schema)).

(** The checks that [validateTable] shares with the table pass, under the
    codes of the table pass and under its own. *)
Definition sharedCodes : list string :=
  ["TABLE_EMPTY_NAME"; "TABLE_NO_COLUMNS"; "TABLE_NO_PRIMARY_KEY";
   "DUPLICATE_COLUMN_NAME"; "EMPTY_COLUMN_NAME"; "EMPTY_COLUMN_TYPE"].

Definition singleTableCodes : list string :=
  ["TABLE_EMPTY_NAME"; "TABLE_NO_COLUMNS"; "TABLE_NO_PRIMARY_KEY";
   "DUPLICATE_COLUMN_NAME"; "COLUMN_EMPTY_NAME"; "COLUMN_EMPTY_TYPE"].

Definition singleTableCode (c : string) : string :=
  if decide (c = "EMPTY_COLUMN_NAME") then "COLUMN_EMPTY_NAME"
  else if decide (c = "EMPTY_COLUMN_TYPE") then "COLUMN_EMPTY_TYPE"
  else c.

(** An error of the table pass as [validateTable] words it: the same
    message, field and suggestion under the single-table code. *)
Definition asSingleTable (e : ValidationError.t) : ValidationError.t :=
  {| ValidationError.code := singleTableCode (ValidationError.code e);
     ValidationError.message := ValidationError.message e;
     ValidationError.field := ValidationError.field e;
     ValidationError.suggestion := ValidationError.suggestion e |}.

(** The relationship [r] has the table [id] as its source or its target. *)
Definition touches (id : string) (r : Relationship.t) : Prop :=
  Relationship.sourceTableId r = id ∨ Relationship.targetTableId r = id.

#[global] Instance touches_dec id r : Decision (touches id r).
Proof. unfold touches. apply _. Defined.

(** Some relationship runs from table [a] to table [b]. *)
Definition edge (schema : Schema.t) (a b : string) : Prop :=
  Exists (λ r, Relationship.sourceTableId r = a ∧ Relationship.targetTableId r = b)
         (JsMap.values (Schema.relationships schema)).

(** Each id of [path] is linked to the next one by a relationship. *)
Fixpoint chain (schema : Schema.t) (path : list string) : Prop :=
  match path with
  | a :: (b :: _) as rest => edge schema a b ∧ chain schema rest
  | _ => True
  end.

(** The warning of a cycle that starts at [tableId] and goes on through
    [rest]: every table of the cycle is listed once. *)
Definition cycleWarning (schema : Schema.t) (tableId : string) (rest : list string)
  : ValidationWarning.t :=
  {| ValidationWarning.code := "CIRCULAR_DEPENDENCY";
     ValidationWarning.message :=
       "Circular dependency detected: "
       +:+ JsString.join " → " (ValidationEngine.tableLabel schema <$> tableId :: rest);
     ValidationWarning.field := Some tableId;
     ValidationWarning.suggestion :=
       Some "Review the relationships to break the circular dependency" |}.

(** [w] reports a cycle of the relationship graph: distinct tables, each
    linked to the next, the last one linked back to the first. *)
Definition reportsCycle (schema : Schema.t) (w : ValidationWarning.t) : Prop :=
  ∃ tableId rest closing,
    w = cycleWarning schema tableId rest
    ∧ NoDup (tableId :: rest)
    ∧ chain schema (tableId :: rest)
    ∧ last (tableId :: rest) = Some closing
    ∧ edge schema closing tableId.

(** The ids that the traversal can put on its stack: the keys of the table
    map and the targets of the relationships. *)
Definition stackable (schema : Schema.t) : list string :=
  JsMap.keys (Schema.tables schema)
  ++ (Relationship.targetTableId <$> JsMap.values (Schema.relationships schema)).

(** The state of the traversal when [hasCycle] is entered with [path]. *)
Definition onPath (schema : Schema.t) (path : list string) (st : ValidationEngine.Dfs)
  : Prop :=
  NoDup path
  ∧ ValidationEngine.recursionStack st = list_to_set path
  ∧ ValidationEngine.recursionStack st ⊆ ValidationEngine.visited st
  ∧ (∀ x, x ∈ path → x ∈ stackable schema)
  ∧ chain schema path
  ∧ Forall (reportsCycle schema) (ValidationEngine.found st).

(** The schemas that the mutation surface can build. Changing a table in
    place is [addTable] of the changed table: it goes under the same id and
    keeps its place in the map. *)
Inductive reachable : Schema.t → Prop :=
| reachable_empty : reachable Schema.empty
| reachable_addTable table s :
    reachable s → reachable (Schema.addTable table s)
| reachable_addRelationship rel s :
    reachable s → reachable (Schema.addRelationship rel s)
| reachable_removeTable id s :
    reachable s → reachable (Schema.removeTable id s)
| reachable_removeRelationship id s :
    reachable s → reachable (Schema.removeRelationship id s).

(** The two tables and the two columns that a relationship names, when all
    four are there. *)
Definition endpoints (r : Relationship.t) (schema : Schema.t)
  : option (Table.t * Table.t * Column.t * Column.t) :=
  sourceTable ← Schema.getTable schema (Relationship.sourceTableId r);
  targetTable ← Schema.getTable schema (Relationship.targetTableId r);
  sourceColumn ← Table.getColumn sourceTable (Relationship.sourceColumnId r);
  targetColumn ← Table.getColumn targetTable (Relationship.targetColumnId r);
  Some (sourceTable, targetTable, sourceColumn, targetColumn).

Definition notFoundCodes : list string :=
  ["SOURCE_TABLE_NOT_FOUND"; "TARGET_TABLE_NOT_FOUND";
   "SOURCE_COLUMN_NOT_FOUND"; "TARGET_COLUMN_NOT_FOUND"].

(** Every relationship of the schema names two tables that are there. *)
Definition noDangling (schema : Schema.t) : Prop :=
  Forall (λ e, is_Some (Schema.getTable schema (Relationship.sourceTableId e.2))
               ∧ is_Some (Schema.getTable schema (Relationship.targetTableId e.2)))
         (Schema.relationships schema).

(** The codes of the column loop of [validateTable]. *)
Definition singleTableColumnCodes : list string :=
  ["DUPLICATE_COLUMN_NAME"; "COLUMN_EMPTY_NAME"; "COLUMN_EMPTY_TYPE"].

(** A column that the table pass has nothing to say about, apart from its
    name being used twice. *)
Definition cleanColumn {unicode : JsString.Unicode} (c : Column.t) : Prop :=
  ValidationEngine.blank (Column.name c) = false
  ∧ ValidationEngine.blank (Column.type c) = false
  ∧ ¬ (Column.primaryKey c = true ∧ Column.nullable c = true)
  ∧ (Column.autoIncrement c = true →
     ValidationEngine.isNumericType (Column.type c) = true).

(** A table that the table pass has nothing to say about, apart from its
    name being used twice. *)
Definition cleanTable {unicode : JsString.Unicode} (t : Table.t) : Prop :=
  ValidationEngine.blank (Table.name t) = false
  ∧ Exists (λ c, Column.primaryKey c = true) (Table.columns t)
  ∧ NoDup ((λ c, JsString.toLowerCase (Column.name c)) <$> Table.columns t)
  ∧ Forall cleanColumn (Table.columns t).

(** The tables that the traversal has left: visited, and no longer on the
    recursion stack. *)
Definition finished (st : ValidationEngine.Dfs) : gset string :=
  ValidationEngine.visited st ∖ ValidationEngine.recursionStack st.

(** [c] lies on a cycle of the relationship graph. *)
Definition cyclic (schema : Schema.t) (c : string) : Prop :=
  tc (edge schema) c c.

(** [c] can be reached from a key of the table map along relationships. *)
Definition fromTable (schema : Schema.t) (c : string) : Prop :=
  ∃ k, k ∈ JsMap.keys (Schema.tables schema) ∧ rtc (edge schema) k c.

(** What holds of the tables the traversal has left as long as it has
    reported nothing: their successors are left too, and none of them lies
    on a cycle. *)
Definition settled (schema : Schema.t) (st : ValidationEngine.Dfs) : Prop :=
  (∀ a b, a ∈ finished st → edge schema a b → b ∈ finished st)
  ∧ (∀ a, a ∈ finished st → ¬ cyclic schema a).

(** [w] is reported on a table that can be reached from a key of the table
    map. *)
Definition reportedFromTable (schema : Schema.t) (w : ValidationWarning.t) : Prop :=
  ∃ t, ValidationWarning.field w = Some t ∧ fromTable schema t.

(** [normalize] on the ASCII range: the part before the first parenthesis,
    without the ASCII blanks at its ends, its letters in upper case. *)
Definition asciiNormalize (type : string) : string :=
  JsString.mapChars JsString.upperChar
    (JsString.trimEnd (JsString.trimStart (JsString.splitHead "("%char type))).

(** A schema whose table names, column names and column types are written in
    ASCII: what the examples are. *)
Definition asciiColumn (c : Column.t) : Prop :=
  JsString.isAscii (Column.name c) = true ∧ JsString.isAscii (Column.type c) = true.

Definition asciiTable (t : Table.t) : Prop :=
  JsString.isAscii (Table.name t) = true ∧ Forall asciiColumn (Table.columns t).

Definition asciiSchema (s : Schema.t) : Prop :=
  Forall asciiTable (JsMap.values (Schema.tables s)).

(** ** Strings written in ASCII *)

Section AsciiStrings.

Context {unicode : JsString.Unicode}.

Import RelationshipValidator.

Lemma isAscii_splitHead (sep : ascii) (s : string) :
  JsString.isAscii s = true → JsString.isAscii (JsString.splitHead sep s) = true.
Proof.
  induction s as [|c s IH]; [done|]. cbn [JsString.isAscii JsString.splitHead].
  intros [Hc Hs]%andb_true_iff. case_decide; [done|].
  cbn [JsString.isAscii]. by rewrite Hc, IH.
Qed.

Lemma isAscii_trimStart (s : string) :
  JsString.isAscii s = true → JsString.isAscii (JsString.trimStart s) = true.
Proof.
  induction s as [|c s IH]; [done|]. cbn [JsString.trimStart].
  destruct (Ascii.is_space c); [|done].
  cbn [JsString.isAscii]. intros [_ Hs]%andb_true_iff. auto.
Qed.

Lemma isAscii_trimEnd (s : string) :
  JsString.isAscii s = true → JsString.isAscii (JsString.trimEnd s) = true.
Proof.
  induction s as [|c s IH]; [done|]. cbn [JsString.isAscii JsString.trimEnd].
  intros [Hc Hs]%andb_true_iff. specialize (IH Hs).
  destruct (JsString.trimEnd s) as [|c' s'].
  - destruct (Ascii.is_space c); [done|]. cbn [JsString.isAscii]. by rewrite Hc.
  - cbn [JsString.isAscii] in *. by rewrite Hc.
Qed.

Lemma isAscii_mapChars (f : ascii → ascii) (s : string) :
  (∀ c, (nat_of_ascii c <? 128) = true → (nat_of_ascii (f c) <? 128) = true) →
  JsString.isAscii s = true → JsString.isAscii (JsString.mapChars f s) = true.
Proof.
  intros Hf. induction s as [|c s IH]; [done|].
  cbn [JsString.isAscii JsString.mapChars].
  intros [Hc Hs]%andb_true_iff. by rewrite (Hf c Hc), IH.
Qed.

Lemma normalize_ascii (type : string) :
  JsString.isAscii type = true → normalize type = asciiNormalize type.
Proof.
  intros Hascii. unfold normalize, asciiNormalize.
  pose proof (isAscii_splitHead "("%char type Hascii) as Hhead.
  rewrite (JsString.trim_ascii _ Hhead).
  apply JsString.toUpperCase_ascii. by apply isAscii_trimEnd, isAscii_trimStart.
Qed.

End AsciiStrings.

(** ** The examples and the engine

    The examples are run with [JsString.asciiOnly]. Their schemas are
    written in ASCII, and on such a schema validation does not depend on the
    string operations it is given: what the examples show holds of every
    engine. *)

Section Engines.

Context (u u' : JsString.Unicode).

Import RelationshipValidator ValidationEngine.

Lemma foldl_agree {A St} (f g : St → A → St) (l : list A) (P : A → Prop) :
Forall P l → (∀ st a, P a → f st a = g st a) → ∀ st, foldl f st l = foldl g st l.
Proof.
intros Hl Hfg. induction Hl as [|a l Ha _ IH]; intros st; [reflexivity|].
cbn [foldl]. by rewrite (Hfg st a Ha), IH.
Qed.

Lemma toLowerCase_agree (s : string) :
JsString.isAscii s = true →
JsString.toLowerCase (Unicode := u) s = JsString.toLowerCase (Unicode := u') s.
Proof. intros Hs. by rewrite !JsString.toLowerCase_ascii. Qed.

Lemma blank_agree (s : string) :
JsString.isAscii s = true → blank (unicode := u) s = blank (unicode := u') s.
Proof. intros Hs. unfold blank. by rewrite !JsString.trim_ascii. Qed.

Lemma normalize_agree (s : string) :
JsString.isAscii s = true → normalize (unicode := u) s = normalize (unicode := u') s.
Proof. intros Hs. by rewrite !normalize_ascii. Qed.

Lemma isNumericType_agree (s : string) :
JsString.isAscii s = true →
isNumericType (unicode := u) s = isNumericType (unicode := u') s.
Proof.
intros Hs. unfold isNumericType. cbv zeta.
change (JsString.toUpperCase (Unicode := u)
          (JsString.trim (Unicode := u) (JsString.splitHead "(" s)))
  with (normalize (unicode := u) s).
change (JsString.toUpperCase (Unicode := u')
          (JsString.trim (Unicode := u') (JsString.splitHead "(" s)))
  with (normalize (unicode := u') s).
by rewrite normalize_agree.
Qed.

Lemma areTypesCompatible_agree (a b : string) :
JsString.isAscii a = true → JsString.isAscii b = true →
areTypesCompatible (unicode := u) a b = areTypesCompatible (unicode := u') a b.
Proof.
intros Ha Hb. unfold areTypesCompatible.
by rewrite (normalize_agree a Ha), (normalize_agree b Hb).
Qed.

Lemma validateTables_column_agree (table : Table.t)
  (acc : gset string * list ValidationError.t) (c : Column.t) :
asciiColumn c →
validateTables_column (unicode := u) table acc c
= validateTables_column (unicode := u') table acc c.
Proof.
intros [Hname Htype]. unfold validateTables_column.
by rewrite (toLowerCase_agree _ Hname), (blank_agree _ Hname), (blank_agree _ Htype),
  (isNumericType_agree _ Htype).
Qed.

Lemma validateTable_column_agree (table : Table.t)
  (acc : gset string * list ValidationError.t) (c : Column.t) :
asciiColumn c →
validateTable_column (unicode := u) table acc c
= validateTable_column (unicode := u') table acc c.
Proof.
intros [Hname Htype]. unfold validateTable_column.
by rewrite (toLowerCase_agree _ Hname), (blank_agree _ Hname), (blank_agree _ Htype).
Qed.

Lemma validateTables_table_agree (acc : gset string * list ValidationError.t) (t : Table.t) :
asciiTable t →
validateTables_table (unicode := u) acc t = validateTables_table (unicode := u') acc t.
Proof.
intros [Hname Hcolumns]. unfold validateTables_table. cbv zeta.
rewrite (toLowerCase_agree _ Hname), (blank_agree _ Hname).
by rewrite (foldl_agree _ (validateTables_column (unicode := u') t) _ _ Hcolumns
              (λ st c, validateTables_column_agree t st c)).
Qed.

Lemma findColumn_elem (id : string) (cols : list Column.t) (c : Column.t) :
Table.findColumn id cols = Some c → c ∈ cols.
Proof.
induction cols as [|c' cols IH]; [done|]. cbn [Table.findColumn].
destruct (JsString.eqb (Column.id c') id).
- intros [= ->]. by left.
- intros Hc. right. auto.
Qed.

Lemma get_values {V} (m : JsMap.t V) (k : string) (v : V) :
JsMap.get k m = Some v → v ∈ JsMap.values m.
Proof.
unfold JsMap.values. induction m as [|[k' v'] m IH]; cbn [JsMap.get fmap list_fmap].
- done.
- cbn [snd]. destruct (decide (k' = k)).
  + intros [= ->]. by left.
  + intros Hv. right. auto.
Qed.

Lemma getTable_ascii (s : Schema.t) (id : string) (t : Table.t) :
asciiSchema s → Schema.getTable s id = Some t → asciiTable t.
Proof.
intros Hs Ht. unfold asciiSchema in Hs. rewrite Forall_forall in Hs.
by apply Hs, (get_values _ id).
Qed.

Lemma getColumn_ascii (t : Table.t) (id : string) (c : Column.t) :
asciiTable t → Table.getColumn t id = Some c → asciiColumn c.
Proof.
intros [_ Hcolumns] Hc%findColumn_elem. rewrite Forall_forall in Hcolumns. auto.
Qed.

Lemma validate_agree (r : Relationship.t) (s : Schema.t) :
asciiSchema s → validate (unicode := u) r s = validate (unicode := u') r s.
Proof.
intros Hs. unfold validate.
destruct (Schema.getTable s (Relationship.sourceTableId r)) as [st|] eqn:Hst;
  [|reflexivity].
destruct (Schema.getTable s (Relationship.targetTableId r)) as [tt|] eqn:Htt;
  [|reflexivity].
pose proof (getTable_ascii s _ st Hs Hst) as Hsa.
pose proof (getTable_ascii s _ tt Hs Htt) as Hta.
destruct (Table.getColumn st (Relationship.sourceColumnId r)) as [sc|] eqn:Hsc;
  [|reflexivity].
destruct (Table.getColumn tt (Relationship.targetColumnId r)) as [tc|] eqn:Htc;
  [|reflexivity].
destruct (getColumn_ascii st _ sc Hsa Hsc) as [Hscn Hsct].
destruct (getColumn_ascii tt _ tc Hta Htc) as [_ Htct].
cbv zeta. unfold namingConvention, expectedName.
by rewrite (areTypesCompatible_agree _ _ Hsct Htct), (toLowerCase_agree _ Hscn),
  (toLowerCase_agree _ (proj1 Hta)).
Qed.

(** On a schema written in ASCII, the three entry points of validation
  return the same results whatever the engine. *)
Lemma validation_agree (s : Schema.t) :
asciiSchema s →
validateSchema (unicode := u) s = validateSchema (unicode := u') s
∧ (∀ id, validateTable (unicode := u) s id = validateTable (unicode := u') s id)
∧ (∀ id, validateRelationship (unicode := u) s id
         = validateRelationship (unicode := u') s id).
Proof.
intros Hs. split; [|split].
- unfold validateSchema, validateTables, validateRelationships. cbv zeta.
  rewrite (foldl_agree _ (validateTables_table (unicode := u')) _ _ Hs
             (λ st t, validateTables_table_agree st t)).
  rewrite (foldl_agree (validateRelationships_step (unicode := u) s)
             (validateRelationships_step (unicode := u') s) _ (λ _, True));
    [reflexivity | by apply Forall_true |].
  intros st r _. unfold validateRelationships_step. by rewrite validate_agree.
- intros id. unfold validateTable.
  destruct (Schema.getTable s id) as [t|] eqn:Ht; [|reflexivity].
  destruct (getTable_ascii s id t Hs Ht) as [Hname Hcolumns]. cbv zeta.
  rewrite (blank_agree _ Hname).
  by rewrite (foldl_agree _ (validateTable_column (unicode := u') t) _ _ Hcolumns
                (λ st c, validateTable_column_agree t st c)).
- intros id. unfold validateRelationship.
  destruct (Schema.getRelationship s id); [by apply validate_agree | reflexivity].
Qed.

End Engines.

(** The schemas of the examples are written in ASCII. *)
Lemma fixtures_ascii :
Forall asciiSchema
  [Fixtures.directCycle; Fixtures.usersOnly; Fixtures.twoUsers; Fixtures.usersAnyCase;
   Fixtures.tagsOnly; Fixtures.blog; Fixtures.validBlog; Fixtures.dangling].
Proof. repeat (constructor; try reflexivity). Qed.

(** * Properties *)

(** ** Type compatibility *)

Section TypeCompatibility.

Context {unicode : JsString.Unicode}.

Import RelationshipValidator.

Lemma includes_spec (arr : list string) (x : string) :
  JsArray.includes arr x = true ↔ x ∈ arr.
Proof. unfold JsArray.includes. by rewrite bool_decide_eq_true. Qed.

Lemma sameGroup_sym (t1 t2 : string) : sameGroup t1 t2 → sameGroup t2 t1.
Proof. unfold sameGroup. intuition auto. Qed.

Lemma areTypesCompatible_spec (a b : string) :
  areTypesCompatible a b = true ↔ sameGroup (normalize a) (normalize b).
Proof.
  unfold areTypesCompatible, sameGroup, JsString.eqb.
  set (t1 := normalize a). set (t2 := normalize b).
  pose proof (bool_decide_eq_true (t1 = t2)).
  pose proof (includes_spec numericTypes t1).
  pose proof (includes_spec numericTypes t2).
  pose proof (includes_spec stringTypes t1).
  pose proof (includes_spec stringTypes t2).
  pose proof (includes_spec dateTypes t1).
  pose proof (includes_spec dateTypes t2).
  destruct (bool_decide (t1 = t2)),
    (JsArray.includes numericTypes t1), (JsArray.includes numericTypes t2),
    (JsArray.includes stringTypes t1), (JsArray.includes stringTypes t2),
    (JsArray.includes dateTypes t1), (JsArray.includes dateTypes t2);
    simpl; intuition discriminate.
Qed.

End TypeCompatibility.

(** C8. The type-compatibility check is symmetric, and it holds exactly when
    the two normalized types (the part before the first parenthesis, trimmed
    and upper-cased) are identical or lie together in the numeric, the
    string or the date/time group. *)
Theorem areTypesCompatible_symmetric {unicode : JsString.Unicode} (a b : string) :
  RelationshipValidator.areTypesCompatible a b
  = RelationshipValidator.areTypesCompatible b a
  ∧ (RelationshipValidator.areTypesCompatible a b = true
     ↔ sameGroup (RelationshipValidator.normalize a) (RelationshipValidator.normalize b))
  ∧ RelationshipValidator.normalize a
    = JsString.toUpperCase (JsString.trim (JsString.splitHead "("%char a)).
Proof.
  split; [|split; [apply areTypesCompatible_spec | reflexivity]].
  apply eq_true_iff_eq. rewrite !areTypesCompatible_spec.
  split; apply sameGroup_sym.
Qed.

(** ** Validity of a result *)

Section Validity.

Context {unicode : JsString.Unicode}.

Import RelationshipValidator ValidationEngine.

Lemma validIffNoErrors_iff (r : ValidationResult.t) :
  validIffNoErrors r →
  (ValidationResult.valid r = true ↔ ValidationResult.errors r = []).
Proof.
  unfold validIffNoErrors. intros ->.
  rewrite bool_decide_eq_true. apply length_zero_iff_nil.
Qed.

(** Both early returns of [validate] answer [valid: false] outright; a
    not-found error has been pushed on each of them. *)
Lemma validate_validIffNoErrors (r : Relationship.t) (schema : Schema.t) :
  validIffNoErrors (validate r schema).
Proof.
  unfold validIffNoErrors, validate.
  destruct (Schema.getTable schema (Relationship.sourceTableId r)) as [sourceTable|],
           (Schema.getTable schema (Relationship.targetTableId r)) as [targetTable|];
    try reflexivity.
  destruct (Table.getColumn sourceTable (Relationship.sourceColumnId r)),
           (Table.getColumn targetTable (Relationship.targetColumnId r));
    reflexivity.
Qed.

Lemma validateTable_validIffNoErrors (schema : Schema.t) (tableId : string) :
  validIffNoErrors (validateTable schema tableId).
Proof.
  unfold validIffNoErrors, validateTable.
  destruct (Schema.getTable schema tableId); reflexivity.
Qed.

Lemma validateRelationship_validIffNoErrors (schema : Schema.t) (relationshipId : string) :
  validIffNoErrors (validateRelationship schema relationshipId).
Proof.
  unfold validateRelationship.
  destruct (Schema.getRelationship schema relationshipId).
  - apply validate_validIffNoErrors.
  - reflexivity.
Qed.

End Validity.

(** C1. Every result of [validateSchema], [validateTable] and
    [validateRelationship] (and of [Relationship.validate], early returns
    included) has [valid] equal to "the error sequence is empty"; the
    warnings play no part in it. *)
Theorem valid_iff_no_errors {unicode : JsString.Unicode} (schema : Schema.t) :
  validIffNoErrors (ValidationEngine.validateSchema schema)
  ∧ (ValidationResult.valid (ValidationEngine.validateSchema schema) = true
     ↔ ValidationResult.errors (ValidationEngine.validateSchema schema) = [])
  ∧ (∀ tableId,
       validIffNoErrors (ValidationEngine.validateTable schema tableId)
       ∧ (ValidationResult.valid (ValidationEngine.validateTable schema tableId) = true
          ↔ ValidationResult.errors (ValidationEngine.validateTable schema tableId) = []))
  ∧ (∀ relationshipId,
       validIffNoErrors (ValidationEngine.validateRelationship schema relationshipId)
       ∧ (ValidationResult.valid
            (ValidationEngine.validateRelationship schema relationshipId) = true
          ↔ ValidationResult.errors
              (ValidationEngine.validateRelationship schema relationshipId) = []))
  ∧ (∀ r,
       validIffNoErrors (RelationshipValidator.validate r schema)
       ∧ (ValidationResult.valid (RelationshipValidator.validate r schema) = true
          ↔ ValidationResult.errors (RelationshipValidator.validate r schema) = [])).
Proof.
  assert (validIffNoErrors (ValidationEngine.validateSchema schema)) by reflexivity.
  repeat split; intros;
    try (apply validIffNoErrors_iff);
    auto using validate_validIffNoErrors, validateTable_validIffNoErrors,
      validateRelationship_validIffNoErrors.
  all: eapply validIffNoErrors_iff;
    eauto using validate_validIffNoErrors, validateTable_validIffNoErrors,
      validateRelationship_validIffNoErrors.
Qed.

(** ** The column short-circuit of [Relationship.validate] *)

(** C2. With both tables resolved and the source column missing, [validate]
    returns at once: the result is invalid, carries no warning, and its
    errors are SOURCE_COLUMN_NOT_FOUND (field [sourceColumnId]) alone when
    the target column resolves, followed by TARGET_COLUMN_NOT_FOUND when it
    does not. No type or naming check has been run. *)
Theorem validate_source_column_not_found {unicode : JsString.Unicode}
    (r : Relationship.t) (schema : Schema.t) (sourceTable targetTable : Table.t) :
  Schema.getTable schema (Relationship.sourceTableId r) = Some sourceTable →
  Schema.getTable schema (Relationship.targetTableId r) = Some targetTable →
  Table.getColumn sourceTable (Relationship.sourceColumnId r) = None →
  RelationshipValidator.validate r schema
  = {| ValidationResult.valid := false;
       ValidationResult.errors :=
         RelationshipValidator.sourceColumnNotFound r sourceTable
         :: match Table.getColumn targetTable (Relationship.targetColumnId r) with
            | Some _ => []
            | None => [RelationshipValidator.targetColumnNotFound r targetTable]
            end;
       ValidationResult.warnings := [] |}
  ∧ ValidationError.code (RelationshipValidator.sourceColumnNotFound r sourceTable)
    = "SOURCE_COLUMN_NOT_FOUND"
  ∧ ValidationError.field (RelationshipValidator.sourceColumnNotFound r sourceTable)
    = Some "sourceColumnId"
  ∧ ValidationError.code (RelationshipValidator.targetColumnNotFound r targetTable)
    = "TARGET_COLUMN_NOT_FOUND".
Proof.
  intros Hsource Htarget Hcolumn.
  repeat split.
  unfold RelationshipValidator.validate.
  rewrite Hsource, Htarget, Hcolumn.
  destruct (Table.getColumn targetTable (Relationship.targetColumnId r));
    reflexivity.
Qed.

Section validate_source_column_not_found_example.

#[local] Existing Instance JsString.asciiOnly.

Lemma validate_source_column_not_found_witness :
  RelationshipValidator.validate Fixtures.postsToUsers Fixtures.blog
  = {| ValidationResult.valid := false;
       ValidationResult.errors :=
         [RelationshipValidator.sourceColumnNotFound Fixtures.postsToUsers Fixtures.posts];
       ValidationResult.warnings := [] |}.
Proof.
  exact (proj1 (validate_source_column_not_found
                  Fixtures.postsToUsers Fixtures.blog Fixtures.posts Fixtures.users
                  eq_refl eq_refl eq_refl)).
Defined.

End validate_source_column_not_found_example.

(** ** Loops that only append to their result *)

Section Accumulators.

Context {unicode : JsString.Unicode}.

Lemma pushIf_app {A} (c : bool) (x : A) (l : list A) :
  JsArray.pushIf c x l = l ++ (if c then [x] else []).
Proof. destruct c; simpl; [reflexivity | by rewrite app_nil_r]. Qed.

Context {A B S : Type} (f : S * list B → A → S * list B).

Lemma foldl_appending :
  appending f →
  ∀ l s e, foldl f (s, e) l = ((foldl f (s, []) l).1, e ++ (foldl f (s, []) l).2).
Proof.
  intros Happ l. induction l as [|a l IH]; intros s e; simpl.
  - by rewrite app_nil_r.
  - rewrite (Happ s e a).
    destruct (f (s, []) a) as [s' d] eqn:Hstep; simpl.
    rewrite (IH s' (e ++ d)), (IH s' d). simpl.
    by rewrite app_assoc.
Qed.

Lemma filter_none {X} (P : X → Prop) `{∀ x, Decision (P x)} (l : list X) :
  Forall (λ x, ¬ P x) l → filter P l = [].
Proof.
  induction 1 as [|x l Hx _ IH]; [reflexivity|].
  by rewrite filter_cons_False.
Qed.

End Accumulators.

(** ** The table pass, table by table *)

Section TablePass.

Context {unicode : JsString.Unicode}.

Import ValidationEngine.

Lemma validateTables_column_appending (table : Table.t) :
  appending (validateTables_column table).
Proof.
  intros names e c. unfold validateTables_column; simpl.
  rewrite !pushIf_app, <- !app_assoc. reflexivity.
Qed.

Lemma validateTable_column_appending (table : Table.t) :
  appending (validateTable_column table).
Proof.
  intros names e c. unfold validateTable_column; simpl.
  rewrite !pushIf_app, <- !app_assoc. reflexivity.
Qed.

Lemma validateTables_table_appending : appending validateTables_table.
Proof.
  intros names e t. unfold validateTables_table; simpl.
  rewrite !pushIf_app.
  rewrite (foldl_appending _ (validateTables_column_appending t)); simpl.
  symmetry.
  rewrite (foldl_appending _ (validateTables_column_appending t)); simpl.
  rewrite <- !app_assoc. reflexivity.
Qed.

Lemma validateTables_table_step (seen : gset string) e (table : Table.t) :
  validateTables_table (seen, e) table
  = ({[lowerName table]} ∪ seen, e ++ tableErrors seen table).
Proof. by rewrite validateTables_table_appending. Qed.

Lemma seenTableNames_snoc (pre : list Table.t) (t : Table.t) :
  {[lowerName t]} ∪ seenTableNames pre = seenTableNames (pre ++ [t]).
Proof.
  unfold seenTableNames. rewrite fmap_app, list_to_set_app_L. simpl.
  set_solver.
Qed.

Lemma validateTables_from (pre ts : list Table.t) e :
  foldl validateTables_table (seenTableNames pre, e) ts
  = (seenTableNames (pre ++ ts),
     e ++ concat (imap (λ i t, tableErrors (seenTableNames (pre ++ take i ts)) t) ts)).
Proof.
  revert pre e. induction ts as [|t ts IH]; intros pre e; simpl.
  - by rewrite !app_nil_r.
  - rewrite validateTables_table_step, seenTableNames_snoc, IH.
    rewrite <- !app_assoc. simpl. rewrite app_nil_r.
    do 4 f_equal. apply imap_ext. intros i u _. simpl.
    by rewrite <- app_assoc.
Qed.

(** The errors of the table pass are the blocks of the tables in iteration
    order, each computed against the names of the tables before it. *)
Lemma validateTables_blocks (schema : Schema.t) :
  ValidationResult.errors (validateTables schema)
  = concat (imap (λ i t,
                    tableErrors
                      (seenTableNames (take i (JsMap.values (Schema.tables schema)))) t)
                 (JsMap.values (Schema.tables schema))).
Proof.
  unfold validateTables; simpl.
  change (∅ : gset string) with (seenTableNames []).
  by rewrite (validateTables_from [] _ []).
Qed.

End TablePass.

(** ** The codes each pass can emit *)

Lemma Forall_pushIf {A} (P : A → Prop) (c : bool) (x : A) (l : list A) :
  P x → Forall P l → Forall P (JsArray.pushIf c x l).
Proof.
  intros Hx Hl. rewrite pushIf_app. apply Forall_app. split; [done|].
  destruct c; auto.
Qed.



Ltac literal_code :=
  cbv beta;
  lazymatch goal with
  | |- _ ∈ _ => apply (bool_decide_unpack _); vm_compute; exact I
  end.
Ltac foreign := apply (bool_decide_unpack _); vm_compute; exact I.
Ltac codes :=
  cbv beta iota zeta delta [ValidationResult.errors ValidationResult.warnings];
  repeat first [apply Forall_pushIf | apply Forall_nil_2];
  literal_code.

Section Codes.

Context {unicode : JsString.Unicode}.

Import RelationshipValidator ValidationEngine.

Lemma validateTables_column_codes (table : Table.t) (cols : list Column.t)
    (names : gset string) :
  Forall (λ e, ValidationError.code e ∈ columnCodes)
         (foldl (validateTables_column table) (names, []) cols).2.
Proof.
  revert names. induction cols as [|c cols IH]; intros names; simpl; [constructor|].
  destruct (validateTables_column table (names, []) c) as [names' d] eqn:Hstep.
  rewrite (foldl_appending _ (validateTables_column_appending table)); simpl.
  apply Forall_app. split; [|apply IH].
  apply (f_equal snd) in Hstep. simpl in Hstep. subst d.
  unfold validateTables_column; cbn [snd fst].
  codes.
Qed.

Lemma validate_error_codes (r : Relationship.t) (schema : Schema.t) :
  Forall (λ e, ValidationError.code e ∈ relationshipErrorCodes)
         (ValidationResult.errors (validate r schema)).
Proof.
  unfold validate.
  destruct (Schema.getTable schema (Relationship.sourceTableId r)) as [sourceTable|],
           (Schema.getTable schema (Relationship.targetTableId r)) as [targetTable|];
    try solve [codes].
  destruct (Table.getColumn sourceTable (Relationship.sourceColumnId r)),
           (Table.getColumn targetTable (Relationship.targetColumnId r));
    codes.
Qed.

Lemma validate_warning_codes (r : Relationship.t) (schema : Schema.t) :
  Forall (λ w, ValidationWarning.code w ∈ relationshipWarningCodes)
         (ValidationResult.warnings (validate r schema)).
Proof.
  unfold validate.
  destruct (Schema.getTable schema (Relationship.sourceTableId r)) as [sourceTable|],
           (Schema.getTable schema (Relationship.targetTableId r)) as [targetTable|];
    try solve [codes].
  destruct (Table.getColumn sourceTable (Relationship.sourceColumnId r)),
           (Table.getColumn targetTable (Relationship.targetColumnId r));
    codes.
Qed.

Lemma validateRelationships_from (schema : Schema.t) (rels : list Relationship.t) e w :
  foldl (validateRelationships_step schema) (e, w) rels
  = (e ++ concat ((λ r, ValidationResult.errors (validate r schema)) <$> rels),
     w ++ concat ((λ r, ValidationResult.warnings (validate r schema)) <$> rels)).
Proof.
  revert e w. induction rels as [|r rels IH]; intros e w; simpl.
  - by rewrite !app_nil_r.
  - unfold validateRelationships_step at 2. simpl.
    by rewrite IH, <- !app_assoc.
Qed.

Lemma validateRelationships_error_codes (schema : Schema.t) :
  Forall (λ e, ValidationError.code e ∈ relationshipErrorCodes)
         (ValidationResult.errors (validateRelationships schema)).
Proof.
  unfold validateRelationships. rewrite validateRelationships_from. simpl.
  apply Forall_concat, Forall_fmap, Forall_forall. intros r _.
  apply validate_error_codes.
Qed.

Lemma validateRelationships_warning_codes (schema : Schema.t) :
  Forall (λ w, ValidationWarning.code w ∈ relationshipWarningCodes)
         (ValidationResult.warnings (validateRelationships schema)).
Proof.
  unfold validateRelationships. rewrite validateRelationships_from. simpl.
  apply Forall_concat, Forall_fmap, Forall_forall. intros r _.
  apply validate_warning_codes.
Qed.

(** A list whose codes all come from [codes] has no entry of a code
    outside [codes]. *)
Lemma filter_foreign_code (codes : list string) (c : string)
    (l : list ValidationError.t) :
  c ∉ codes →
  Forall (λ e, ValidationError.code e ∈ codes) l →
  filter (hasCode c) l = [].
Proof.
  intros Hc Hl. apply filter_none.
  eapply Forall_impl; [exact Hl|]. unfold hasCode. intros e He Heq. congruence.
Qed.

Lemma filter_foreign_warning_code (codes : list string) (c : string)
    (l : list ValidationWarning.t) :
  c ∉ codes →
  Forall (λ w, ValidationWarning.code w ∈ codes) l →
  filter (hasWarningCode c) l = [].
Proof.
  intros Hc Hl. apply filter_none.
  eapply Forall_impl; [exact Hl|]. unfold hasWarningCode. intros e He Heq. congruence.
Qed.

End Codes.

(** ** Duplicate table names *)

Section DuplicateTableNames.

Context {unicode : JsString.Unicode}.

Import ValidationEngine.

Lemma seenTableNames_elem (pre : list Table.t) (t : Table.t) :
  lowerName t ∈ seenTableNames pre ↔ Exists (λ u, lowerName u = lowerName t) pre.
Proof.
  unfold seenTableNames.
  rewrite elem_of_list_to_set, list_elem_of_fmap, Exists_exists.
  split; intros (u & H1 & H2); exists u; auto.
Qed.

(** Within the block of one table, DUPLICATE_TABLE_NAME is reported exactly
    when an earlier table bears the same lower-cased name. *)
Lemma tableErrors_duplicate (pre : list Table.t) (t : Table.t) :
  filter (hasCode "DUPLICATE_TABLE_NAME") (tableErrors (seenTableNames pre) t)
  = if bool_decide (Exists (λ u, lowerName u = lowerName t) pre)
    then [duplicateTableName t] else [].
Proof.
  unfold tableErrors, validateTables_table; simpl.
  rewrite (foldl_appending _ (validateTables_column_appending t)); simpl.
  rewrite !pushIf_app, !filter_app; simpl.
  rewrite (filter_foreign_code columnCodes "DUPLICATE_TABLE_NAME" _
             ltac:(foreign) (validateTables_column_codes t _ _)).
  rewrite (bool_decide_ext _ _ (seenTableNames_elem pre t)).
  fold (lowerName t).
  destruct (bool_decide (Exists _ pre)), (blank (Table.name t)),
    (bool_decide (length (Table.columns t) = 0)),
    (bool_decide (length (Table.getPrimaryKeys t) = 0)); reflexivity.
Qed.

Lemma filter_concat_imap {A B} (P : B → Prop) `{∀ x, Decision (P x)}
    (f : nat → A → list B) (l : list A) :
  filter P (concat (imap f l)) = concat (imap (λ i x, filter P (f i x)) l).
Proof.
  revert f. induction l as [|x l IH]; intros f; simpl; [reflexivity|].
  by rewrite filter_app, IH.
Qed.

Lemma validateSchema_errors (schema : Schema.t) :
  ValidationResult.errors (validateSchema schema)
  = ValidationResult.errors (validateTables schema)
    ++ ValidationResult.errors (validateRelationships schema).
Proof. reflexivity. Qed.

Lemma validateSchema_duplicates (schema : Schema.t) :
  filter (hasCode "DUPLICATE_TABLE_NAME")
         (ValidationResult.errors (validateSchema schema))
  = concat (imap (λ i t,
                    if bool_decide
                         (Exists (λ u, lowerName u = lowerName t)
                                 (take i (JsMap.values (Schema.tables schema))))
                    then [duplicateTableName t] else [])
                 (JsMap.values (Schema.tables schema))).
Proof.
  rewrite validateSchema_errors, filter_app.
  rewrite (filter_foreign_code relationshipErrorCodes "DUPLICATE_TABLE_NAME" _
             ltac:(foreign) (validateRelationships_error_codes schema)).
  rewrite app_nil_r, validateTables_blocks, filter_concat_imap.
  f_equal. apply imap_ext. intros i t _. apply tableErrors_duplicate.
Qed.

Lemma elem_of_concat_imap {A B} (f : nat → A → list B) (l : list A)
    (i : nat) (x : A) (y : B) :
  l !! i = Some x → y ∈ f i x → y ∈ concat (imap f l).
Proof.
  revert f i. induction l as [|z l IH]; intros f i Hi Hy; [done|].
  rewrite imap_cons. cbn [concat]. apply elem_of_app.
  destruct i as [|i]; cbn in Hi.
  - left. by simplify_eq.
  - right. by apply (IH (f ∘ S) i).
Qed.

End DuplicateTableNames.

(** C5. The DUPLICATE_TABLE_NAME errors of a whole-schema validation are, in
    iteration order, one for every table that comes after another table of
    the same lower-cased name: the first bearer of a name is not flagged,
    every later one is, once. Two tables both named "users" give exactly one
    such error, on the second table. The comparison does not see the case of
    letters: a table whose ASCII name is, up to the case of its letters, the
    ASCII name of an earlier table is flagged. *)
Theorem duplicate_table_name_after_first {unicode : JsString.Unicode} (schema : Schema.t) :
  filter (hasCode "DUPLICATE_TABLE_NAME")
         (ValidationResult.errors (ValidationEngine.validateSchema schema))
  = concat (imap (λ i t,
                    if bool_decide
                         (Exists (λ u, JsString.toLowerCase (Table.name u)
                                       = JsString.toLowerCase (Table.name t))
                                 (take i (JsMap.values (Schema.tables schema))))
                    then [ValidationEngine.duplicateTableName t] else [])
                 (JsMap.values (Schema.tables schema)))
  ∧ (∀ t, ValidationError.code (ValidationEngine.duplicateTableName t)
          = "DUPLICATE_TABLE_NAME"
          ∧ ValidationError.field (ValidationEngine.duplicateTableName t)
            = Some (Table.id t))
  ∧ (∀ first second,
       JsMap.values (Schema.tables schema) = [first; second] →
       Table.name first = "users" →
       Table.name second = "users" →
       filter (hasCode "DUPLICATE_TABLE_NAME")
              (ValidationResult.errors (ValidationEngine.validateSchema schema))
       = [ValidationEngine.duplicateTableName second])
  ∧ (∀ i earlier later,
       JsMap.values (Schema.tables schema) !! i = Some later →
       earlier ∈ take i (JsMap.values (Schema.tables schema)) →
       JsString.isAscii (Table.name earlier) = true →
       JsString.isAscii (Table.name later) = true →
       JsString.mapChars JsString.lowerChar (Table.name earlier)
       = JsString.mapChars JsString.lowerChar (Table.name later) →
       ValidationEngine.duplicateTableName later
       ∈ ValidationResult.errors (ValidationEngine.validateSchema schema)).
Proof.
  split; [apply validateSchema_duplicates|].
  split; [by intros t|]. split.
  - intros first second Hvalues Hfirst Hsecond.
    rewrite validateSchema_duplicates, Hvalues. cbn [imap concat take app compose].
    rewrite (bool_decide_eq_false_2 (Exists _ [])) by (intros H; inversion H).
    rewrite bool_decide_eq_true_2; [reflexivity|].
    apply Exists_cons_hd. unfold lowerName. by rewrite Hfirst, Hsecond.
  - intros i earlier later Hlater Hearlier Hascii Hascii' Hsame.
    apply (list_elem_of_filter (hasCode "DUPLICATE_TABLE_NAME")).
    rewrite validateSchema_duplicates.
    apply (elem_of_concat_imap _ _ i later); [done|].
    rewrite bool_decide_eq_true_2; [by left|].
    apply Exists_exists. exists earlier. split; [done|]. unfold lowerName.
    by rewrite !JsString.toLowerCase_ascii.
Qed.

Section duplicate_table_name_after_first_example.

#[local] Existing Instance JsString.asciiOnly.

Lemma duplicate_table_name_after_first_witness :
  filter (hasCode "DUPLICATE_TABLE_NAME")
         (ValidationResult.errors (ValidationEngine.validateSchema Fixtures.twoUsers))
  = [ValidationEngine.duplicateTableName Fixtures.users2]
  ∧ Table.name Fixtures.usersCapital = "Users"
  ∧ Table.name Fixtures.users2 = "users"
  ∧ ValidationEngine.duplicateTableName Fixtures.users2
    ∈ ValidationResult.errors (ValidationEngine.validateSchema Fixtures.usersAnyCase).
Proof.
  split; [|split; [reflexivity|split; [reflexivity|]]].
  - exact (proj1 (proj2 (proj2 (duplicate_table_name_after_first
                                  (unicode := JsString.asciiOnly) Fixtures.twoUsers)))
                 Fixtures.users Fixtures.users2 eq_refl eq_refl eq_refl).
  - exact (proj2 (proj2 (proj2 (duplicate_table_name_after_first
                                  (unicode := JsString.asciiOnly) Fixtures.usersAnyCase)))
                 1 Fixtures.usersCapital Fixtures.users2
                 eq_refl (list_elem_of_here _ _) eq_refl eq_refl eq_refl).
Defined.

End duplicate_table_name_after_first_example.

(** ** The orphan-table pass *)

Section OrphanTables.

Context {unicode : JsString.Unicode}.

Import ValidationEngine.

Lemma forM_preserves {A S} (I : S → Prop) (f : A → S → option S) (l : list A) :
  (∀ a st st', a ∈ l → I st → f a st = Some st' → I st') →
  ∀ st st', I st → forM f l st = Some st' → I st'.
Proof.
  induction l as [|a l IH]; intros Hf st st' Hst Hrun; simpl in Hrun.
  - by simplify_eq.
  - destruct (f a st) as [st1|] eqn:Hstep; simpl in Hrun; [|done].
    eapply IH; [| |exact Hrun].
    + intros. eapply Hf; eauto. by right.
    + eapply Hf; eauto. by left.
Qed.

Lemma hasCycle_codes (schema : Schema.t) (fuel : nat) :
  ∀ tableId path st b st',
    Forall (hasWarningCode "CIRCULAR_DEPENDENCY") (found st) →
    hasCycle fuel schema tableId path st = Some (b, st') →
    Forall (hasWarningCode "CIRCULAR_DEPENDENCY") (found st').
Proof.
  induction fuel as [|fuel IH]; intros tableId path st b st' Hst Hrun;
    simpl in Hrun; [done|].
  repeat case_bool_decide; simplify_eq; simpl.
  - apply Forall_app. split; [done|]. by constructor.
  - done.
  - match type of Hrun with
    | context [forM ?f ?l ?s] => destruct (forM f l s) as [st1|] eqn:Hloop
    end; simpl in Hrun; simplify_eq. simpl.
    refine (forM_preserves
              (λ s, Forall (hasWarningCode "CIRCULAR_DEPENDENCY") (found s))
              _ _ _ _ _ _ Hloop); [|done].
    intros rel st2 st3 _ Hst2 Hstep.
    destruct (JsString.eqb _ _); [|by simplify_eq].
    destruct (hasCycle fuel schema _ _ st2) as [[b' st4]|] eqn:Hcall;
      simpl in Hstep; simplify_eq.
    eapply IH; eauto.
Qed.

Lemma circularWarnings_codes (schema : Schema.t) (fuel : nat) ws :
  circularWarnings fuel schema = Some ws →
  Forall (hasWarningCode "CIRCULAR_DEPENDENCY") ws.
Proof.
  unfold circularWarnings. intros Hrun.
  match type of Hrun with
  | context [forM ?f ?l ?s] => destruct (forM f l s) as [st1|] eqn:Hloop
  end; cbn [mbind option_bind] in Hrun; simplify_eq.
  refine (forM_preserves
            (λ s, Forall (hasWarningCode "CIRCULAR_DEPENDENCY") (found s))
            _ _ _ _ _ _ Hloop); [|constructor].
  intros tableId st2 st3 _ Hst2 Hstep.
  case_bool_decide; [by simplify_eq|].
  destruct (hasCycle fuel schema tableId [] st2) as [[b' st4]|] eqn:Hcall;
    cbn [fmap option_fmap option_map snd] in Hstep; simplify_eq.
  eapply hasCycle_codes; eauto.
Qed.

Lemma checkCircularDependencies_codes (schema : Schema.t) :
  Forall (λ w, ValidationWarning.code w ∈ ["CIRCULAR_DEPENDENCY"])
         (ValidationResult.warnings (checkCircularDependencies schema)).
Proof.
  unfold checkCircularDependencies. cbn [ValidationResult.warnings].
  destruct (circularWarnings (dfsFuel schema) schema) as [ws|] eqn:Hrun;
    cbn [default]; [|constructor].
  eapply Forall_impl; [exact (circularWarnings_codes _ _ _ Hrun)|].
  intros w ->. by left.
Qed.

Lemma connectedTables_from (rels : list Relationship.t) (acc : gset string) (id : string) :
  id ∈ foldl (λ (acc : gset string) rel,
                {[Relationship.targetTableId rel]}
                ∪ ({[Relationship.sourceTableId rel]} ∪ acc)) acc rels
  ↔ id ∈ acc
    ∨ Exists (λ r, Relationship.sourceTableId r = id ∨ Relationship.targetTableId r = id)
             rels.
Proof.
  revert acc. induction rels as [|r rels IH]; intros acc; simpl.
  - rewrite Exists_nil. tauto.
  - rewrite IH, Exists_cons. set_solver.
Qed.

Lemma connectedTables_spec (schema : Schema.t) (id : string) :
  id ∈ connectedTables schema ↔ isEndpoint schema id.
Proof.
  unfold connectedTables, isEndpoint. rewrite connectedTables_from. set_solver.
Qed.

Lemma orphan_loop (connected : gset string) (ts : list Table.t) ws :
  foldl (λ warnings table,
           JsArray.pushIf (negb (bool_decide (Table.id table ∈ connected)))
                          (orphanTable table) warnings) ws ts
  = ws ++ (orphanTable <$> filter (λ t, Table.id t ∉ connected) ts).
Proof.
  revert ws. induction ts as [|t ts IH]; intros ws; simpl.
  - by rewrite app_nil_r.
  - rewrite IH, pushIf_app, <- app_assoc. f_equal.
    rewrite filter_cons. case_bool_decide; case_decide; done.
Qed.

Lemma checkOrphanTables_warnings (schema : Schema.t) :
  ValidationResult.warnings (checkOrphanTables schema)
  = if bool_decide (2 ≤ JsMap.size (Schema.tables schema))
    then orphanTable
           <$> filter (λ t, ¬ isEndpoint schema (Table.id t))
                      (JsMap.values (Schema.tables schema))
    else [].
Proof.
  unfold checkOrphanTables.
  repeat case_bool_decide; try lia; simpl; [reflexivity|].
  rewrite orphan_loop. simpl. f_equal.
  apply list_filter_iff. intros t. by rewrite connectedTables_spec.
Qed.

Lemma filter_orphanTable (ts : list Table.t) :
  filter (hasWarningCode "ORPHAN_TABLE") (orphanTable <$> ts) = orphanTable <$> ts.
Proof.
  induction ts as [|t ts IH]; [reflexivity|].
  rewrite fmap_cons, filter_cons_True by reflexivity. by rewrite IH.
Qed.

Lemma validateSchema_warnings (schema : Schema.t) :
  ValidationResult.warnings (validateSchema schema)
  = ValidationResult.warnings (validateRelationships schema)
    ++ ValidationResult.warnings (checkCircularDependencies schema)
    ++ ValidationResult.warnings (checkOrphanTables schema).
Proof. reflexivity. Qed.

End OrphanTables.

(** C6. The ORPHAN_TABLE warnings of a whole-schema validation: none when
    the schema has at most one table; with two tables or more, one for every
    table whose id is neither the source nor the target of any relationship,
    in iteration order. The orphan pass itself returns just these warnings
    and no error. *)
Theorem orphan_tables_warned {unicode : JsString.Unicode} (schema : Schema.t) :
  filter (hasWarningCode "ORPHAN_TABLE")
         (ValidationResult.warnings (ValidationEngine.validateSchema schema))
  = (if bool_decide (2 ≤ JsMap.size (Schema.tables schema))
     then ValidationEngine.orphanTable
            <$> filter (λ t, ¬ isEndpoint schema (Table.id t))
                       (JsMap.values (Schema.tables schema))
     else [])
  ∧ ValidationResult.warnings (ValidationEngine.checkOrphanTables schema)
    = filter (hasWarningCode "ORPHAN_TABLE")
             (ValidationResult.warnings (ValidationEngine.validateSchema schema))
  ∧ ValidationResult.errors (ValidationEngine.checkOrphanTables schema) = []
  ∧ ValidationResult.valid (ValidationEngine.checkOrphanTables schema) = true
  ∧ (∀ t, ValidationWarning.code (ValidationEngine.orphanTable t) = "ORPHAN_TABLE"
          ∧ ValidationWarning.field (ValidationEngine.orphanTable t) = Some (Table.id t)).
Proof.
  assert (Hschema :
    filter (hasWarningCode "ORPHAN_TABLE")
           (ValidationResult.warnings (ValidationEngine.validateSchema schema))
    = ValidationResult.warnings (ValidationEngine.checkOrphanTables schema)).
  { rewrite validateSchema_warnings, !filter_app.
    rewrite (filter_foreign_warning_code relationshipWarningCodes "ORPHAN_TABLE" _
               ltac:(foreign) (validateRelationships_warning_codes schema)).
    rewrite (filter_foreign_warning_code ["CIRCULAR_DEPENDENCY"] "ORPHAN_TABLE" _
               ltac:(foreign) (checkCircularDependencies_codes schema)).
    rewrite !app_nil_l, checkOrphanTables_warnings.
    case_bool_decide; [apply filter_orphanTable | reflexivity]. }
  split; [by rewrite Hschema, checkOrphanTables_warnings|].
  split; [done|].
  unfold ValidationEngine.checkOrphanTables.
  case_bool_decide; done.
Qed.

(** ** Single-table validation against the table pass *)

Section SingleTable.

Context {unicode : JsString.Unicode}.

Import ValidationEngine.

Lemma filter_all {X} (P : X → Prop) `{∀ x, Decision (P x)} (l : list X) :
Forall P l → filter P l = l.
Proof.
induction 1 as [|x l Hx _ IH]; [reflexivity|].
by rewrite filter_cons_True, IH.
Qed.

Lemma foldl_appending_cons {A B S} (f : S * list B → A → S * list B)
  (a : A) (l : list A) (s : S) :
appending f →
(foldl f (s, []) (a :: l)).2
= (f (s, []) a).2 ++ (foldl f ((f (s, []) a).1, []) l).2.
Proof.
intros Happ. simpl.
destruct (f (s, []) a) as [s' d]. by rewrite (foldl_appending f Happ).
Qed.

Lemma validateTable_columns (table : Table.t) (cols : list Column.t)
  (names : gset string) :
(foldl (validateTable_column table) (names, []) cols).2
= asSingleTable
    <$> filter (λ e, ValidationError.code e ∈ sharedCodes)
               (foldl (validateTables_column table) (names, []) cols).2.
Proof.
revert names. induction cols as [|c cols IH]; intros names; [reflexivity|].
rewrite (foldl_appending_cons _ _ _ _ (validateTable_column_appending table)).
rewrite (foldl_appending_cons _ _ _ _ (validateTables_column_appending table)).
rewrite filter_app, fmap_app. f_equal; [|apply IH].
unfold validateTable_column, validateTables_column; simpl.
destruct (bool_decide (JsString.toLowerCase (Column.name c) ∈ names)),
  (blank (Column.name c)), (blank (Column.type c)),
  (Column.primaryKey c), (Column.nullable c), (Column.autoIncrement c),
  (isNumericType (Column.type c)); reflexivity.
Qed.

(** The errors of [validateTable] are those of the table's block in the
  table pass that carry a shared code, reworded. *)
Lemma validateTable_errors (schema : Schema.t) (tableId : string)
  (table : Table.t) (seen : gset string) :
Schema.getTable schema tableId = Some table →
ValidationResult.errors (validateTable schema tableId)
= asSingleTable
    <$> filter (λ e, ValidationError.code e ∈ sharedCodes) (tableErrors seen table).
Proof.
intros Htable. unfold validateTable, tableErrors, validateTables_table.
rewrite Htable; simpl.
rewrite (foldl_appending _ (validateTable_column_appending table)); simpl.
rewrite (foldl_appending _ (validateTables_column_appending table)); simpl.
rewrite filter_app, fmap_app, validateTable_columns. f_equal.
destruct (bool_decide (JsString.toLowerCase (Table.name table) ∈ seen)),
  (blank (Table.name table)), (bool_decide (length (Table.columns table) = 0)),
  (bool_decide (length (Table.getPrimaryKeys table) = 0)); reflexivity.
Qed.

Lemma asSingleTable_codes (l : list ValidationError.t) :
Forall (λ e, ValidationError.code e ∈ singleTableCodes)
       (asSingleTable <$> filter (λ e, ValidationError.code e ∈ sharedCodes) l).
Proof.
apply Forall_fmap, Forall_forall. intros e [He _]%list_elem_of_filter.
simpl. unfold sharedCodes in He.
repeat (apply elem_of_cons in He as [->|He]; [by apply (bool_decide_unpack _)|]).
by apply elem_of_nil in He.
Qed.

End SingleTable.

(** X30. What [validateTable] does check. It returns the single error
    TABLE_NOT_FOUND when the id resolves to no table. Otherwise its errors
    under the codes TABLE_EMPTY_NAME, TABLE_NO_COLUMNS, TABLE_NO_PRIMARY_KEY,
    DUPLICATE_COLUMN_NAME, COLUMN_EMPTY_NAME and COLUMN_EMPTY_TYPE are, in
    order and with the same message, field and suggestion, the errors that
    the table pass reports for that table under TABLE_EMPTY_NAME,
    TABLE_NO_COLUMNS, TABLE_NO_PRIMARY_KEY, DUPLICATE_COLUMN_NAME,
    EMPTY_COLUMN_NAME and EMPTY_COLUMN_TYPE, whatever table names the pass
    has seen before; and it has no warning. *)
Theorem validateTable_shared_checks {unicode : JsString.Unicode} (schema : Schema.t)
    (tableId : string) :
  (Schema.getTable schema tableId = None →
   ValidationEngine.validateTable schema tableId
   = {| ValidationResult.valid := false;
        ValidationResult.errors := [ValidationEngine.tableNotFound tableId];
        ValidationResult.warnings := [] |})
  ∧ (∀ table seen,
       Schema.getTable schema tableId = Some table →
       filter (λ e, ValidationError.code e ∈ singleTableCodes)
              (ValidationResult.errors (ValidationEngine.validateTable schema tableId))
       = asSingleTable
           <$> filter (λ e, ValidationError.code e ∈ sharedCodes)
                      (tableErrors seen table)
       ∧ ValidationResult.warnings (ValidationEngine.validateTable schema tableId) = []).
Proof.
  split.
  - intros Hnone. unfold ValidationEngine.validateTable. by rewrite Hnone.
  - intros table seen Htable.
    rewrite (validateTable_errors schema tableId table seen Htable).
    split; [apply filter_all, asSingleTable_codes|].
    unfold ValidationEngine.validateTable. by rewrite Htable.
Qed.

Section validateTable_shared_checks_example.

#[local] Existing Instance JsString.asciiOnly.

Lemma validateTable_shared_checks_witness :
  ValidationEngine.validateTable Fixtures.usersOnly "missing"
  = {| ValidationResult.valid := false;
       ValidationResult.errors := [ValidationEngine.tableNotFound "missing"];
       ValidationResult.warnings := [] |}
  ∧ filter (λ e, ValidationError.code e ∈ singleTableCodes)
           (ValidationResult.errors
              (ValidationEngine.validateTable Fixtures.twoUsers "u2"))
    = asSingleTable
        <$> filter (λ e, ValidationError.code e ∈ sharedCodes)
                   (tableErrors (seenTableNames [Fixtures.users]) Fixtures.users2).
Proof.
  split.
  - exact (proj1 (validateTable_shared_checks (unicode := JsString.asciiOnly)
                    Fixtures.usersOnly "missing") eq_refl).
  - exact (proj1 (proj2 (validateTable_shared_checks (unicode := JsString.asciiOnly)
                           Fixtures.twoUsers "u2")
                        Fixtures.users2 (seenTableNames [Fixtures.users]) eq_refl)).
Defined.

End validateTable_shared_checks_example.

(** C4, where the code departs from it. [validateTable] is written as the
    table pass for one table, but its copy of the column loop stops after
    the name and type checks. For the table of 'should validate a correct
    table', whose primary key is nullable, the table pass reports
    PRIMARY_KEY_NULLABLE and [validateTable] returns a valid result without
    errors; for a table whose auto-increment key is a VARCHAR(50), the
    table pass reports AUTO_INCREMENT_NON_NUMERIC and [validateTable]
    again returns a valid result without errors. Both tables are written in
    ASCII, so this is what every engine computes. *)
Lemma validateTable_skips_column_checks {unicode : JsString.Unicode} :
  (Schema.getTable Fixtures.usersOnly "u" = Some Fixtures.users
   ∧ filter (hasCode "PRIMARY_KEY_NULLABLE")
            (ValidationResult.errors
               (ValidationEngine.validateSchema Fixtures.usersOnly))
     = [ValidationEngine.primaryKeyNullable Fixtures.users
          (Fixtures.column "u_id" "id" "INT" true true false)]
   ∧ ValidationEngine.validateTable Fixtures.usersOnly "u"
     = {| ValidationResult.valid := true;
          ValidationResult.errors := [];
          ValidationResult.warnings := [] |})
  ∧ (Schema.getTable Fixtures.tagsOnly "g" = Some Fixtures.tags
     ∧ filter (hasCode "AUTO_INCREMENT_NON_NUMERIC")
              (ValidationResult.errors
                 (ValidationEngine.validateSchema Fixtures.tagsOnly))
       = [ValidationEngine.autoIncrementNonNumeric Fixtures.tags
            (Fixtures.column "g_id" "id" "VARCHAR(50)" true false true)]
     ∧ ValidationEngine.validateTable Fixtures.tagsOnly "g"
       = {| ValidationResult.valid := true;
            ValidationResult.errors := [];
            ValidationResult.warnings := [] |}).
Proof.
  assert (Husers : asciiSchema Fixtures.usersOnly)
    by repeat (constructor; try reflexivity).
  assert (Htags : asciiSchema Fixtures.tagsOnly)
    by repeat (constructor; try reflexivity).
  destruct (validation_agree unicode JsString.asciiOnly _ Husers) as (-> & -> & _).
  destruct (validation_agree unicode JsString.asciiOnly _ Htags) as (-> & -> & _).
  split; (split; [reflexivity|]); (split; [|vm_compute; reflexivity]).
  - vm_compute. reflexivity.
  - vm_compute. reflexivity.
Qed.

(** ** Insertion-ordered maps *)

Section JsMapFacts.

Context {unicode : JsString.Unicode}.

Context {V : Type}.
Implicit Types (m : JsMap.t V) (k : string) (v : V).

Lemma filter_ext_in {X} (P Q : X → Prop)
    `{∀ x, Decision (P x)} `{∀ x, Decision (Q x)} (l : list X) :
  (∀ x, x ∈ l → P x ↔ Q x) → filter P l = filter Q l.
Proof.
  induction l as [|x l IH]; intros HPQ; [reflexivity|].
  rewrite !filter_cons, IH by (intros; apply HPQ; by right).
  apply decide_ext, HPQ. by left.
Qed.

Lemma Forall_filter_keep {X} (P Q : X → Prop) `{∀ x, Decision (Q x)} (l : list X) :
  Forall P l → Forall P (filter Q l).
Proof.
  rewrite !Forall_forall. intros Hl x [_ Hx]%list_elem_of_filter. auto.
Qed.

Lemma get_Some_elem m k v : JsMap.get k m = Some v → (k, v) ∈ m.
Proof.
  induction m as [|[k' v'] m IH]; simpl; [done|].
  case_decide; intros; simplify_eq; [by left | right; auto].
Qed.

Lemma get_None m k : JsMap.get k m = None ↔ k ∉ JsMap.keys m.
Proof.
  unfold JsMap.keys. induction m as [|[k' v'] m IH]; simpl.
  - split; [intros _; apply not_elem_of_nil | done].
  - rewrite not_elem_of_cons. case_decide as Hk; simplify_eq.
    + split; [done | intros [? _]; done].
    + rewrite IH. split; [intros; split; [congruence | done] | tauto].
Qed.

Lemma elem_get m k v : JsMap.wf m → (k, v) ∈ m → JsMap.get k m = Some v.
Proof.
  unfold JsMap.wf, JsMap.keys. induction m as [|[k' v'] m IH]; simpl.
  - intros _ H. by apply elem_of_nil in H.
  - intros [Hk' Hm]%NoDup_cons [Heq|Hin]%elem_of_cons; simplify_eq.
    + by rewrite decide_True.
    + rewrite decide_False; [auto|].
      intros ->. apply Hk'. by apply (list_elem_of_fmap_2 fst _ (k, v)).
Qed.

Lemma get_delete m k k' :
  JsMap.get k' (JsMap.delete k m) = if decide (k' = k) then None else JsMap.get k' m.
Proof.
  unfold JsMap.delete. induction m as [|[k1 v1] m IH]; simpl.
  - by case_decide.
  - rewrite filter_cons. simpl.
    destruct (decide (k1 ≠ k)) as [Hne|Heq%dec_stable]; simpl.
    + rewrite IH. repeat case_decide; simplify_eq; done.
    + rewrite IH. repeat case_decide; simplify_eq; done.
Qed.

Lemma delete_absent m k : JsMap.get k m = None → JsMap.delete k m = m.
Proof.
  rewrite get_None. unfold JsMap.delete, JsMap.keys. intros Hk.
  apply filter_all, Forall_forall. intros [k' v'] Hin Heq.
  simpl in Heq; subst k'.
  apply Hk. by apply (list_elem_of_fmap_2 fst _ (k, v')).
Qed.

Lemma delete_all m (ks : list string) :
  foldl (λ m k, JsMap.delete k m) m ks = filter (λ e, e.1 ∉ ks) m.
Proof.
  revert m. induction ks as [|k ks IH]; intros m; simpl.
  - symmetry. apply filter_all, Forall_forall. intros e _. apply not_elem_of_nil.
  - rewrite IH. unfold JsMap.delete. rewrite list_filter_filter.
    apply list_filter_iff. intros e. rewrite not_elem_of_cons. tauto.
Qed.

Lemma set_fresh m k v : k ∉ JsMap.keys m → JsMap.set k v m = m ++ [(k, v)].
Proof.
  unfold JsMap.keys. induction m as [|[k' v'] m IH]; simpl; [done|].
  rewrite not_elem_of_cons. intros [Hne Hk].
  rewrite decide_False by congruence. by rewrite IH.
Qed.

Lemma keys_set m k v :
  JsMap.keys (JsMap.set k v m)
  = if decide (k ∈ JsMap.keys m) then JsMap.keys m else JsMap.keys m ++ [k].
Proof.
  unfold JsMap.keys. induction m as [|[k' v'] m IH].
  - destruct (decide (k ∈ (([] : JsMap.t V).*1))) as [Hin|_];
      [by apply elem_of_nil in Hin | done].
  - cbn [JsMap.set]. destruct (decide (k' = k)) as [->|Hne].
    + rewrite !fmap_cons. cbn [fst]. rewrite decide_True; [done | by left].
    + rewrite !fmap_cons. cbn [fst]. rewrite IH.
      destruct (decide (k ∈ m.*1)) as [Hin|Hnin].
      * rewrite decide_True; [done | by right].
      * rewrite decide_False; [done|]. rewrite not_elem_of_cons. split; congruence.
Qed.

Lemma wf_set m k v : JsMap.wf m → JsMap.wf (JsMap.set k v m).
Proof.
  unfold JsMap.wf. rewrite keys_set. case_decide; [done|].
  intros Hm. apply NoDup_app. split; [done|]. split; [|apply NoDup_singleton].
  intros x Hx ->%list_elem_of_singleton. done.
Qed.

Lemma wf_filter (P : string * V → Prop) `{∀ e, Decision (P e)} m :
  JsMap.wf m → JsMap.wf (filter P m).
Proof.
  unfold JsMap.wf, JsMap.keys.
  induction m as [|[k' v'] m IH]; [done|].
  rewrite fmap_cons. cbn [fst]. intros [Hk' Hm]%NoDup_cons. rewrite filter_cons.
  case_decide; [|auto].
  rewrite fmap_cons. cbn [fst]. apply NoDup_cons. split; [|auto].
  intros ([k1 v1] & ? & [_ Hin]%list_elem_of_filter)%list_elem_of_fmap.
  simpl in *; subst k1. apply Hk'. by apply (list_elem_of_fmap_2 fst _ (k', v1)).
Qed.

Lemma wf_delete m k : JsMap.wf m → JsMap.wf (JsMap.delete k m).
Proof. apply wf_filter. Qed.

Lemma keys_filter_elem (P : string * V → Prop) `{∀ e, Decision (P e)} m k :
  k ∈ JsMap.keys (filter P m) → k ∈ JsMap.keys m.
Proof.
  unfold JsMap.keys.
  intros ([k1 v1] & -> & [_ Hin]%list_elem_of_filter)%list_elem_of_fmap.
  by apply (list_elem_of_fmap_2 fst _ (k1, v1)).
Qed.

Lemma get_filter (P : string * V → Prop) `{∀ e, Decision (P e)} m k :
  JsMap.wf m →
  JsMap.get k (filter P m)
  = match JsMap.get k m with
    | Some v => if decide (P (k, v)) then Some v else None
    | None => None
    end.
Proof.
  unfold JsMap.wf, JsMap.keys. induction m as [|[k' v'] m IH]; [done|].
  rewrite fmap_cons. cbn [fst]. intros [Hk' Hm]%NoDup_cons.
  rewrite filter_cons. cbn [JsMap.get].
  destruct (decide (k' = k)) as [->|Hne].
  - destruct (decide (P (k, v'))) as [HP|HP].
    + cbn [JsMap.get]. by rewrite decide_True.
    + apply get_None. intros Hin. by apply Hk', (keys_filter_elem P).
  - destruct (decide (P (k', v'))) as [HP|HP]; [|auto].
    cbn [JsMap.get]. rewrite decide_False by done. auto.
Qed.

Lemma Forall_set (P : string * V → Prop) m k v :
  P (k, v) → Forall P m → Forall P (JsMap.set k v m).
Proof.
  intros Hkv. induction m as [|[k' v'] m IH]; simpl.
  - by repeat constructor.
  - intros [H1 H2]%Forall_cons. case_decide; subst; constructor; auto.
Qed.

End JsMapFacts.

(** ** The schema invariant along the mutation surface *)

Section SchemaInvariant.

Context {unicode : JsString.Unicode}.

Lemma wf_empty : Schema.wf Schema.empty.
Proof. repeat split; constructor. Qed.

Lemma wf_addTable (table : Table.t) (s : Schema.t) :
Schema.wf s → Schema.wf (Schema.addTable table s).
Proof.
intros (Ht & Hr & Hti & Hri). repeat split; simpl; auto using wf_set.
by apply Forall_set.
Qed.

Lemma wf_addRelationship (rel : Relationship.t) (s : Schema.t) :
Schema.wf s → Schema.wf (Schema.addRelationship rel s).
Proof.
intros (Ht & Hr & Hti & Hri). repeat split; simpl; auto using wf_set.
by apply Forall_set.
Qed.

Lemma wf_removeRelationship (id : string) (s : Schema.t) :
Schema.wf s → Schema.wf (Schema.removeRelationship id s).
Proof.
intros (Ht & Hr & Hti & Hri). repeat split; simpl; auto using wf_delete.
by apply Forall_filter_keep.
Qed.

Lemma wf_removeTable (id : string) (s : Schema.t) :
Schema.wf s → Schema.wf (Schema.removeTable id s).
Proof.
intros (Ht & Hr & Hti & Hri). unfold Schema.wf, Schema.removeTable.
cbn [Schema.tables Schema.relationships]. rewrite delete_all.
repeat split; auto using wf_delete, wf_filter, Forall_filter_keep.
by apply Forall_filter_keep.
Qed.

(** Every schema built through the mutation surface keeps the invariant. *)
Lemma reachable_wf (s : Schema.t) : reachable s → Schema.wf s.
Proof.
induction 1;
  auto using wf_empty, wf_addTable, wf_addRelationship, wf_removeTable,
    wf_removeRelationship.
Qed.

End SchemaInvariant.

(** ** Removing a table *)

Section RemoveTable.

Context {unicode : JsString.Unicode}.

Lemma toDelete_from (id : string) (rels : JsMap.t Relationship.t) (acc : list string) :
foldl (λ acc e,
         JsArray.pushIf
           (JsString.eqb (Relationship.sourceTableId e.2) id
            || JsString.eqb (Relationship.targetTableId e.2) id)
           e.1 acc) acc rels
= acc ++ (filter (λ e, touches id e.2) rels).*1.
Proof.
revert acc. induction rels as [|[k r] rels IH]; intros acc; simpl.
- by rewrite app_nil_r.
- rewrite IH, pushIf_app, <- app_assoc. f_equal.
  rewrite filter_cons. unfold touches, JsString.eqb. simpl.
  repeat case_bool_decide; case_decide; simpl; tauto.
Qed.

Lemma toDelete_spec (id : string) (rels : JsMap.t Relationship.t) :
Schema.toDelete id rels = (filter (λ e, touches id e.2) rels).*1.
Proof. unfold Schema.toDelete. by rewrite toDelete_from. Qed.

(** With pairwise distinct keys, deleting the collected ids one by one
  removes the relationships that touch [id] and no other. *)
Lemma removeTable_relationships (id : string) (s : Schema.t) :
JsMap.wf (Schema.relationships s) →
Schema.relationships (Schema.removeTable id s)
= filter (λ e, ¬ touches id e.2) (Schema.relationships s).
Proof.
intros Hwf. simpl. rewrite delete_all, toDelete_spec.
apply filter_ext_in. intros [k r] Hin. simpl. split.
- intros Hk Hr. apply Hk.
  apply (list_elem_of_fmap_2 fst _ (k, r)), list_elem_of_filter. by split.
- intros Hr ([k' r'] & ? & [Hr' Hin']%list_elem_of_filter)%list_elem_of_fmap.
  simpl in *; subst k'. apply Hr.
  apply (elem_get _ _ _ Hwf) in Hin, Hin'. congruence.
Qed.

Lemma removeTable_getRelationship (id relId : string) (s : Schema.t) :
JsMap.wf (Schema.relationships s) →
Schema.getRelationship (Schema.removeTable id s) relId
= match Schema.getRelationship s relId with
  | Some r => if decide (touches id r) then None else Some r
  | None => None
  end.
Proof.
intros Hwf. unfold Schema.getRelationship.
rewrite removeTable_relationships, get_filter by done.
destruct (JsMap.get relId (Schema.relationships s)) as [r|]; [|done].
cbn [snd]. destruct (decide (touches id r)), (decide (¬ touches id r)); done.
Qed.

End RemoveTable.

(** C9. [removeTable id] leaves no table under [id], keeps every other table
    and the iteration order, and removes exactly the relationships whose
    source or target table is [id], keeping every other relationship and
    their order; the name and the metadata of the schema stay. *)
Theorem removeTable_cascades (schema : Schema.t) (id : string) :
  JsMap.wf (Schema.relationships schema) →
  Schema.tables (Schema.removeTable id schema)
  = filter (λ e, e.1 ≠ id) (Schema.tables schema)
  ∧ Schema.getTable (Schema.removeTable id schema) id = None
  ∧ (∀ other, other ≠ id →
       Schema.getTable (Schema.removeTable id schema) other
       = Schema.getTable schema other)
  ∧ Schema.relationships (Schema.removeTable id schema)
    = filter (λ e, ¬ touches id e.2) (Schema.relationships schema)
  ∧ (∀ relId,
       Schema.getRelationship (Schema.removeTable id schema) relId
       = match Schema.getRelationship schema relId with
         | Some r => if decide (touches id r) then None else Some r
         | None => None
         end)
  ∧ Schema.name (Schema.removeTable id schema) = Schema.name schema
  ∧ Schema.metadata (Schema.removeTable id schema) = Schema.metadata schema.
Proof.
  intros Hwf.
  split; [reflexivity|].
  split; [unfold Schema.getTable; simpl; rewrite get_delete; by rewrite decide_True|].
  split; [intros other Hne; unfold Schema.getTable; simpl;
          rewrite get_delete; by rewrite decide_False|].
  split; [by apply removeTable_relationships|].
  split; [|done].
  intros relId. by apply removeTable_getRelationship.
Qed.

Lemma removeTable_cascades_witness :
  Schema.getTable (Schema.removeTable "t1" Fixtures.directCycle) "t1" = None
  ∧ Schema.getTable (Schema.removeTable "t1" Fixtures.directCycle) "t2"
    = Some Fixtures.table2
  ∧ Schema.relationships (Schema.removeTable "t1" Fixtures.directCycle)
    = filter (λ e, ¬ touches "t1" e.2) (Schema.relationships Fixtures.directCycle).
Proof.
  assert (Hwf : JsMap.wf (Schema.relationships Fixtures.directCycle))
    by (apply (bool_decide_unpack _); vm_compute; exact I).
  destruct (removeTable_cascades Fixtures.directCycle "t1" Hwf)
    as (_ & Hgone & Hother & Hrels & _).
  split; [exact Hgone|]. split; [|exact Hrels].
  rewrite (Hother "t2") by discriminate. reflexivity.
Defined.

(** C10. When no table sits under [id], [removeTable id] leaves the table
    map as it is and still deletes every relationship whose source or target
    table is [id], keeping the others. *)
Theorem removeTable_absent_table (schema : Schema.t) (id : string) :
  JsMap.wf (Schema.relationships schema) →
  Schema.getTable schema id = None →
  Schema.tables (Schema.removeTable id schema) = Schema.tables schema
  ∧ Schema.relationships (Schema.removeTable id schema)
    = filter (λ e, ¬ touches id e.2) (Schema.relationships schema)
  ∧ (∀ relId r,
       Schema.getRelationship schema relId = Some r →
       Schema.getRelationship (Schema.removeTable id schema) relId
       = if decide (touches id r) then None else Some r).
Proof.
  intros Hwf Habsent.
  split; [by apply delete_absent|].
  split; [by apply removeTable_relationships|].
  intros relId r Hr.
  by rewrite removeTable_getRelationship, Hr.
Qed.

Lemma removeTable_absent_table_witness :
  Schema.tables (Schema.removeTable "t1" Fixtures.dangling)
  = Schema.tables Fixtures.dangling
  ∧ Schema.relationships (Schema.removeTable "t1" Fixtures.dangling)
    = filter (λ e, ¬ touches "t1" e.2) (Schema.relationships Fixtures.dangling)
  ∧ Schema.getRelationship (Schema.removeTable "t1" Fixtures.dangling) "rel3" = None.
Proof.
  assert (Hwf : JsMap.wf (Schema.relationships Fixtures.dangling))
    by (apply (bool_decide_unpack _); vm_compute; exact I).
  destruct (removeTable_absent_table Fixtures.dangling "t1" Hwf eq_refl)
    as (Htables & Hrels & Hget).
  split; [exact Htables|]. split; [exact Hrels|].
  exact (Hget "rel3" (Fixtures.oneToMany "rel3" "t2" "t1" "t2_fk" "t1_id") eq_refl).
Defined.

(** ** Serialization round trip *)

Section RoundTrip.

Context {unicode : JsString.Unicode}.

Lemma Column_roundtrip (c : Column.t) :
Column.fromJSON (Column.toJSON c) = Returns (Some c).
Proof. destruct c as [? ? ? ? ? ? ? ? [?|] [?|]]; reflexivity. Qed.

Lemma Relationship_roundtrip (r : Relationship.t) :
Relationship.fromJSON (Relationship.toJSON r) = Returns (Some r).
Proof.
destruct r as [? [?|] [] ? ? ? ? [[]|] [[]|] [?|]]; reflexivity.
Qed.

Lemma mapM_roundtrip {A} (of_ : A → JsValue) (as_ : JsValue → option A) (l : list A) :
(∀ x, as_ (of_ x) = Some x) → mapM as_ (of_ <$> l) = Some l.
Proof.
intros Hx. induction l as [|x l IH]; [reflexivity|].
rewrite fmap_cons. cbn [mapM]. rewrite Hx, IH. reflexivity.
Qed.

Lemma Index_roundtrip (i : Table.Index) : Table.asIndex (Table.ofIndex i) = Some i.
Proof.
destruct i as [name columns unique]. unfold Table.ofIndex, Table.asIndex.
cbn [Table.index_name Table.index_columns Table.index_unique String.eqb Ascii.eqb
     Bool.eqb andb].
by rewrite (mapM_roundtrip JsStr JsAny.asString).
Qed.

Lemma Constraint_roundtrip (c : Table.Constraint) :
Table.asConstraint (Table.ofConstraint c) = Some c.
Proof. by destruct c as [[] ?]. Qed.

(** Reading back, in order, the columns that [toJSON] wrote puts them at
  the end of the column list. *)
Lemma addColumns_from (cols : list Column.t) (tbl : Table.t) :
JsAny.forEach Column.fromJSON Table.addColumn (Column.toJSON <$> cols) (Some tbl)
= Returns (Some {| Table.id := Table.id tbl; Table.name := Table.name tbl;
                   Table.position := Table.position tbl;
                   Table.columns := Table.columns tbl ++ cols;
                   Table.indexes := Table.indexes tbl;
                   Table.constraints := Table.constraints tbl;
                   Table.comment := Table.comment tbl |}).
Proof.
revert tbl. induction cols as [|c cols IH]; intros tbl.
- destruct tbl. cbn. by rewrite app_nil_r.
- rewrite fmap_cons. cbn [JsAny.forEach]. rewrite Column_roundtrip.
  cbn [mbind option_bind]. rewrite IH. cbn. by rewrite <- app_assoc.
Qed.

Lemma Table_roundtrip (t : Table.t) :
Table.fromJSON (Table.toJSON t) = Returns (Some t).
Proof.
destruct t as [id name [x y] columns indexes constraints comment].
unfold Table.fromJSON, Table.toJSON.
cbn [Table.id Table.name Table.position Table.x Table.y Table.columns
     Table.indexes Table.constraints Table.comment
     JsAny.nullish JsAny.prop JsAny.lookup JsAny.or JsAny.truthy JsAny.iterate
     JsAny.asString JsAny.asNumber JsAny.asArray
     String.eqb Ascii.eqb Bool.eqb mbind option_bind].
rewrite (mapM_roundtrip Table.ofIndex Table.asIndex) by apply Index_roundtrip.
rewrite (mapM_roundtrip Table.ofConstraint Table.asConstraint)
  by apply Constraint_roundtrip.
cbn [mbind option_bind].
destruct comment as [comment|];
  cbn [JsAny.ofOptional JsAny.asOptional JsAny.asString fmap option_fmap option_map
       mbind option_bind];
  by rewrite addColumns_from.
Qed.

(** Adding back, in iteration order, entries that sit under their own ids
  and under keys not yet in the map rebuilds them at the end of it. *)
Lemma addTables_from (m : JsMap.t Table.t) (s : Schema.t) :
JsMap.wf (Schema.tables s ++ m) →
Forall (λ e, e.1 = Table.id e.2) m →
JsAny.forEach Table.fromJSON Schema.addTable (Table.toJSON <$> JsMap.values m) (Some s)
= Returns (Some {| Schema.name := Schema.name s;
                   Schema.tables := Schema.tables s ++ m;
                   Schema.relationships := Schema.relationships s;
                   Schema.metadata := Schema.metadata s |}).
Proof.
revert s. induction m as [|[k t] m IH]; intros s Hwf Hid.
- destruct s. cbn. by rewrite app_nil_r.
- apply Forall_cons in Hid as [Hk Hid]. cbn [fst snd] in Hk. subst k.
  unfold JsMap.values. rewrite !fmap_cons. cbn [JsAny.forEach snd].
  rewrite Table_roundtrip. cbn [mbind option_bind].
  assert (Hset : JsMap.set (Table.id t) t (Schema.tables s)
                 = Schema.tables s ++ [(Table.id t, t)]).
  { apply set_fresh. unfold JsMap.wf, JsMap.keys in *.
    rewrite fmap_app, fmap_cons in Hwf. cbn [fst] in Hwf.
    apply NoDup_app in Hwf as (_ & Hdisj & _).
    intros Hin. apply (Hdisj _ Hin). by left. }
  fold (JsMap.values m). rewrite IH.
  + unfold Schema.addTable. cbn. by rewrite Hset, <- app_assoc.
  + unfold Schema.addTable. cbn. by rewrite Hset, <- app_assoc.
  + done.
Qed.

Lemma addRelationships_from (m : JsMap.t Relationship.t) (s : Schema.t) :
JsMap.wf (Schema.relationships s ++ m) →
Forall (λ e, e.1 = Relationship.id e.2) m →
JsAny.forEach Relationship.fromJSON Schema.addRelationship
              (Relationship.toJSON <$> JsMap.values m) (Some s)
= Returns (Some {| Schema.name := Schema.name s;
                   Schema.tables := Schema.tables s;
                   Schema.relationships := Schema.relationships s ++ m;
                   Schema.metadata := Schema.metadata s |}).
Proof.
revert s. induction m as [|[k r] m IH]; intros s Hwf Hid.
- destruct s. cbn. by rewrite app_nil_r.
- apply Forall_cons in Hid as [Hk Hid]. cbn [fst snd] in Hk. subst k.
  unfold JsMap.values. rewrite !fmap_cons. cbn [JsAny.forEach snd].
  rewrite Relationship_roundtrip. cbn [mbind option_bind].
  assert (Hset : JsMap.set (Relationship.id r) r (Schema.relationships s)
                 = Schema.relationships s ++ [(Relationship.id r, r)]).
  { apply set_fresh. unfold JsMap.wf, JsMap.keys in *.
    rewrite fmap_app, fmap_cons in Hwf. cbn [fst] in Hwf.
    apply NoDup_app in Hwf as (_ & Hdisj & _).
    intros Hin. apply (Hdisj _ Hin). by left. }
  fold (JsMap.values m). rewrite IH.
  + unfold Schema.addRelationship. cbn. by rewrite Hset, <- app_assoc.
  + unfold Schema.addRelationship. cbn. by rewrite Hset, <- app_assoc.
  + done.
Qed.

(** The round trip returns, and gives the schema back, except that an empty
  schema name becomes the default name. *)
Lemma fromJSON_toJSON (s : Schema.t) :
Schema.wf s →
Schema.fromJSON (Schema.toJSON s)
= Returns (Some {| Schema.name := if JsString.falsy (Schema.name s)
                                  then "Untitled Schema" else Schema.name s;
                   Schema.tables := Schema.tables s;
                   Schema.relationships := Schema.relationships s;
                   Schema.metadata := Schema.metadata s |}).
Proof.
intros (Ht & Hr & Hti & Hri).
unfold Schema.fromJSON, Schema.toJSON.
cbn [JsAny.nullish JsAny.prop JsAny.lookup JsAny.or JsAny.truthy JsAny.iterate
     String.eqb Ascii.eqb Bool.eqb].
assert (Hname : JsAny.asString
                  (JsAny.or (JsStr (Schema.name s)) (JsStr "Untitled Schema"))
                = Some (if JsString.falsy (Schema.name s)
                        then "Untitled Schema" else Schema.name s)).
{ unfold JsAny.or, JsAny.truthy. by destruct (JsString.falsy (Schema.name s)). }
rewrite Hname. cbn [mbind option_bind].
rewrite addTables_from by done. cbn [Schema.name Schema.tables Schema.relationships
                                     Schema.metadata app].
rewrite addRelationships_from by done.
reflexivity.
Qed.

Lemma forM_ext {A S} (f g : A → S → option S) (l : list A) (st : S) :
(∀ a st, f a st = g a st) → ValidationEngine.forM f l st = ValidationEngine.forM g l st.
Proof.
intros Hfg. revert st. induction l as [|a l IH]; intros st; [reflexivity|].
cbn [ValidationEngine.forM]. rewrite Hfg.
destruct (g a st) as [st'|]; [apply IH | reflexivity].
Qed.

(** Validation reads the two maps of a schema and nothing else. *)
Lemma hasCycle_maps (n n' : string) ts rs (md md' : list (string * JsValue))
  (fuel : nat) (tableId : string) (path : list string) (st : ValidationEngine.Dfs) :
ValidationEngine.hasCycle fuel (Schema.mk n' ts rs md') tableId path st
= ValidationEngine.hasCycle fuel (Schema.mk n ts rs md) tableId path st.
Proof.
revert tableId path st.
induction fuel as [|fuel IH]; intros tableId path st; [reflexivity|].
cbn [ValidationEngine.hasCycle].
repeat case_bool_decide; try reflexivity.
f_equal. apply forM_ext. intros rel st'.
destruct (JsString.eqb _ _); [|reflexivity]. by rewrite IH.
Qed.

Lemma checkCircularDependencies_maps (n n' : string) ts rs
  (md md' : list (string * JsValue)) :
ValidationEngine.checkCircularDependencies (Schema.mk n' ts rs md')
= ValidationEngine.checkCircularDependencies (Schema.mk n ts rs md).
Proof.
unfold ValidationEngine.checkCircularDependencies, ValidationEngine.circularWarnings.
do 3 f_equal. apply forM_ext. intros tableId st.
case_bool_decide; [reflexivity|].
f_equal. apply hasCycle_maps.
Qed.

Lemma validateSchema_maps (s s' : Schema.t) :
Schema.tables s' = Schema.tables s →
Schema.relationships s' = Schema.relationships s →
ValidationEngine.validateSchema s' = ValidationEngine.validateSchema s
∧ (∀ id, ValidationEngine.validateTable s' id = ValidationEngine.validateTable s id)
∧ (∀ id, ValidationEngine.validateRelationship s' id
         = ValidationEngine.validateRelationship s id).
Proof.
destruct s as [n ts rs md], s' as [n' ts' rs' md'].
cbn [Schema.tables Schema.relationships]. intros -> ->.
split; [|split; intros id; reflexivity].
unfold ValidationEngine.validateSchema.
by rewrite (checkCircularDependencies_maps n n' ts rs md md').
Qed.

End RoundTrip.

(** C7. For a schema whose entries sit under their own ids, saving it with
    [toJSON] and reading it back with [fromJSON] returns, without throwing,
    a schema with the same tables and relationships in the same order, so
    whole-schema validation (and the two single-entity entry points) return
    the very same result: same [valid], same errors, same warnings. A
    relationship that names a table or column no longer there is read back
    like any other. *)
Theorem roundtrip_preserves_validation {unicode : JsString.Unicode} (schema : Schema.t) :
  Schema.wf schema →
  ∃ restored,
    Schema.fromJSON (Schema.toJSON schema) = Returns (Some restored)
    ∧ ValidationEngine.validateSchema restored = ValidationEngine.validateSchema schema
    ∧ Schema.tables restored = Schema.tables schema
    ∧ Schema.relationships restored = Schema.relationships schema
    ∧ (∀ id, ValidationEngine.validateTable restored id
             = ValidationEngine.validateTable schema id)
    ∧ (∀ id, ValidationEngine.validateRelationship restored id
             = ValidationEngine.validateRelationship schema id).
Proof.
  intros Hwf. eexists. split; [by apply fromJSON_toJSON|].
  match goal with
  | |- ValidationEngine.validateSchema ?restored = _ ∧ _ =>
      destruct (validateSchema_maps schema restored eq_refl eq_refl)
        as (Hs & Htable & Hrel)
  end.
  repeat split; auto.
Qed.

Section roundtrip_preserves_validation_example.

#[local] Existing Instance JsString.asciiOnly.

Lemma roundtrip_preserves_validation_witness :
  reachable Fixtures.dangling
  ∧ Schema.getTable Fixtures.dangling "t1" = None
  ∧ Relationship.targetTableId <$> Schema.getRelationship Fixtures.dangling "rel3"
    = Some "t1"
  ∧ ∃ restored,
      Schema.fromJSON (Schema.toJSON Fixtures.dangling) = Returns (Some restored)
      ∧ ValidationEngine.validateSchema restored
        = ValidationEngine.validateSchema Fixtures.dangling.
Proof.
  assert (Hbuilt : reachable Fixtures.dangling)
    by (repeat constructor).
  split; [exact Hbuilt|]. split; [reflexivity|]. split; [reflexivity|].
  destruct (roundtrip_preserves_validation (unicode := JsString.asciiOnly)
              Fixtures.dangling (reachable_wf _ Hbuilt))
    as (restored & Hread & Hsame & _).
  by exists restored.
Defined.

End roundtrip_preserves_validation_example.

(** ** The circular-dependency pass *)

Section CyclePath.

Context {unicode : JsString.Unicode}.

Import ValidationEngine.

Lemma indexOf_first (x : string) (pre rest : list string) :
x ∉ pre → JsArray.indexOf x (pre ++ x :: rest) = Z.of_nat (length pre).
Proof.
induction pre as [|y pre IH]; intros Hx.
- cbn. by rewrite decide_True.
- apply not_elem_of_cons in Hx as [Hne Hx].
  cbn [app JsArray.indexOf]. rewrite decide_False by congruence.
  rewrite IH by done. cbn [length].
  destruct (Z.ltb_spec (Z.of_nat (length pre)) 0); lia.
Qed.

Lemma slice_from {A} (n : nat) (l : list A) : JsArray.slice (Z.of_nat n) l = drop n l.
Proof.
unfold JsArray.slice.
destruct (Z.ltb_spec (Z.of_nat n) 0); [lia|]. by rewrite Nat2Z.id.
Qed.

(** On a path that holds [x], the warning lists the path from the first [x]
  to its end. *)
Lemma circularDependency_on_path (schema : Schema.t) (x : string)
  (pre rest : list string) :
x ∉ pre →
circularDependency schema x (pre ++ x :: rest) = cycleWarning schema x rest.
Proof.
intros Hx. unfold circularDependency, cycleWarning.
by rewrite indexOf_first, slice_from, drop_app_length.
Qed.

Lemma chain_suffix (schema : Schema.t) (pre path : list string) :
chain schema (pre ++ path) → chain schema path.
Proof.
induction pre as [|a pre IH]; [done|].
destruct pre as [|b pre]; cbn [app chain] in *.
- destruct path; [done | by intros [_ ?]].
- intros [_ ?]. auto.
Qed.

Lemma chain_snoc (schema : Schema.t) (path : list string) (x : string) :
chain schema path →
(∀ closing, last path = Some closing → edge schema closing x) →
chain schema (path ++ [x]).
Proof.
induction path as [|a path IH]; [done|].
destruct path as [|b path]; cbn [app chain] in *.
- intros _ Hlast. split; [by apply Hlast | done].
- intros [Hab Hchain] Hlast. split; [done|].
  apply IH; [done|]. intros closing Hclosing. apply Hlast.
  by rewrite last_cons_cons.
Qed.

Lemma forM_total {A S} (J : S → Prop) (f : A → S → option S) (l : list A) :
(∀ a st, a ∈ l → J st → ∃ st', f a st = Some st' ∧ J st') →
∀ st, J st → ∃ st', forM f l st = Some st' ∧ J st'.
Proof.
induction l as [|a l IH]; intros Hf st Hst; cbn [forM].
- eauto.
- destruct (Hf a st) as (st1 & -> & Hst1); [by left | done |].
  cbn [mbind option_bind]. apply IH; [|done].
  intros a' st' Ha'. apply Hf. by right.
Qed.

End CyclePath.

Section Traversal.

Context {unicode : JsString.Unicode}.

Import ValidationEngine.

Context (schema : Schema.t).

Lemma path_length (path : list string) :
NoDup path → (∀ x, x ∈ path → x ∈ stackable schema) →
length path ≤ length (stackable schema).
Proof. intros Hnd Hin. by apply submseteq_length, NoDup_submseteq. Qed.

Lemma dfsFuel_stackable : dfsFuel schema = S (length (stackable schema)).
Proof.
unfold dfsFuel, stackable, JsMap.size, JsMap.keys, JsMap.values.
by rewrite length_app, !length_fmap.
Qed.

(** Entering [hasCycle] on a stack closed by [tableId] reports a cycle. *)
Lemma revisit_reportsCycle (tableId : string) (path : list string) (st : Dfs) :
onPath schema path st →
(∀ closing, last path = Some closing → edge schema closing tableId) →
tableId ∈ recursionStack st →
reportsCycle schema (circularDependency schema tableId path).
Proof.
intros (Hnd & Hstack & _ & _ & Hchain & _) Hclose Hrev.
rewrite Hstack in Hrev. apply elem_of_list_to_set in Hrev.
apply list_elem_of_split_l in Hrev as (pre & rest & -> & Hpre).
rewrite circularDependency_on_path by done.
destruct (last (tableId :: rest)) as [closing|] eqn:Hlast.
- exists tableId, rest, closing. split; [done|].
  split; [by apply NoDup_app in Hnd as (_ & _ & ?)|].
  split; [by eapply chain_suffix|].
  split; [done|]. apply Hclose. by rewrite last_app_cons.
- by apply last_None in Hlast.
Qed.

Lemma onPath_push (tableId : string) (path : list string) (st st' : Dfs) :
onPath schema path st →
tableId ∈ stackable schema →
(∀ closing, last path = Some closing → edge schema closing tableId) →
tableId ∉ recursionStack st →
recursionStack st' = {[tableId]} ∪ recursionStack st →
{[tableId]} ∪ visited st ⊆ visited st' →
Forall (reportsCycle schema) (found st') →
onPath schema (path ++ [tableId]) st'.
Proof.
intros (Hnd & Hstack & Hvis & Hin & Hchain & _) Hid Hclose Hnew Hstack' Hvis' Hfound'.
assert (tableId ∉ path) by (by rewrite Hstack, elem_of_list_to_set in Hnew).
split; [|split; [|split; [|split; [|split]]]]; try done.
- apply NoDup_app. split; [done|]. split; [|apply NoDup_singleton].
  intros x Hx ->%list_elem_of_singleton. done.
- rewrite Hstack', Hstack, list_to_set_snoc_L. set_solver.
- rewrite Hstack'. set_solver.
- intros x [Hx| ->%list_elem_of_singleton]%elem_of_app; auto.
- by apply chain_snoc.
Qed.

Lemma hasCycle_total (fuel : nat) :
∀ tableId path st,
  onPath schema path st →
  tableId ∈ stackable schema →
  (∀ closing, last path = Some closing → edge schema closing tableId) →
  length (stackable schema) < fuel + length path →
  ∃ b st',
    hasCycle fuel schema tableId path st = Some (b, st')
    ∧ recursionStack st' = recursionStack st
    ∧ visited st ⊆ visited st'
    ∧ Forall (reportsCycle schema) (found st').
Proof.
induction fuel as [|fuel IH]; intros tableId path st Hpath Hid Hclose Hfuel.
- destruct Hpath as (Hnd & _ & _ & Hin & _).
  pose proof (path_length path Hnd Hin). lia.
- cbn [hasCycle]. case_bool_decide as Hrev; [|case_bool_decide as Hseen].
  + eexists _, _. split; [reflexivity|]. cbn.
    split; [done|]. split; [done|].
    apply Forall_app. split; [by destruct Hpath as (_ & _ & _ & _ & _ & ?)|].
    constructor; [|constructor]. by eapply revisit_reportsCycle.
  + eexists _, _. split; [reflexivity|].
    split; [done|]. split; [done|]. by destruct Hpath as (_ & _ & _ & _ & _ & ?).
  + set (J := λ s : Dfs,
                recursionStack s = {[tableId]} ∪ recursionStack st
                ∧ {[tableId]} ∪ visited st ⊆ visited s
                ∧ Forall (reportsCycle schema) (found s)).
    match goal with
    | |- context [forM ?f ?l ?s] =>
        destruct (forM_total J f l) with (st := s) as (st2 & Hloop & HJ)
    end.
    * intros rel s Hrel HJs.
      destruct (JsString.eqb (Relationship.sourceTableId rel) tableId) eqn:Hsrc;
        [|by eauto].
      destruct HJs as (Hs1 & Hs2 & Hs3).
      apply bool_decide_eq_true in Hsrc.
      destruct (IH (Relationship.targetTableId rel) (path ++ [tableId]) s)
        as (b & s' & Hcall & Hrs & Hvs & Hfs).
      -- by eapply onPath_push.
      -- apply elem_of_app. right. by apply list_elem_of_fmap_2.
      -- intros closing. rewrite last_snoc. intros [= <-].
         apply Exists_exists. by exists rel.
      -- rewrite length_app. cbn [length]. lia.
      -- rewrite Hcall. cbn. eexists. split; [reflexivity|].
         split; [congruence|]. split; [set_solver | done].
    * split; [done|]. split; [done|]. by destruct Hpath as (_ & _ & _ & _ & _ & ?).
    * rewrite Hloop. cbn. destruct HJ as (HJ1 & HJ2 & HJ3).
      eexists _, _. split; [reflexivity|]. cbn.
      split; [rewrite HJ1; set_solver|]. split; [set_solver | done].
Qed.

(** With at least [dfsFuel] levels of recursion the pass completes, and
  each of its warnings reports a cycle of the relationship graph. *)
Lemma circularWarnings_total (fuel : nat) :
dfsFuel schema ≤ fuel →
∃ ws, circularWarnings fuel schema = Some ws ∧ Forall (reportsCycle schema) ws.
Proof.
intros Hfuel. rewrite dfsFuel_stackable in Hfuel. unfold circularWarnings.
set (K := λ s : Dfs, recursionStack s = ∅ ∧ Forall (reportsCycle schema) (found s)).
match goal with
| |- context [forM ?f ?l ?s] =>
    destruct (forM_total K f l) with (st := s) as (st2 & Hloop & HK)
end.
- intros tableId s Hkey HKs.
  case_bool_decide; [by eauto|]. destruct HKs as (Hs1 & Hs2).
  destruct (hasCycle_total fuel tableId [] s) as (b & s' & Hcall & Hrs & _ & Hfs).
  + split; [constructor|]. split; [done|]. split; [rewrite Hs1; set_solver|].
    split; [by intros x Hx%elem_of_nil|]. done.
  + apply elem_of_app. by left.
  + by intros closing.
  + cbn [length]. lia.
  + rewrite Hcall. cbn. eexists. split; [reflexivity|]. split; [congruence | done].
- split; [done | constructor].
- rewrite Hloop. cbn. destruct HK. eauto.
Qed.

End Traversal.

Section Fuel.

Context {unicode : JsString.Unicode}.

Import ValidationEngine.

Context (schema : Schema.t).

Lemma forM_mono {A S} (f g : A → S → option S) (l : list A) :
(∀ a s s', f a s = Some s' → g a s = Some s') →
∀ st st', forM f l st = Some st' → forM g l st = Some st'.
Proof.
intros Hfg. induction l as [|a l IH]; intros st st'; cbn [forM]; [done|].
destruct (f a st) as [st1|] eqn:Hstep; [|done].
rewrite (Hfg _ _ _ Hstep). cbn [mbind option_bind]. apply IH.
Qed.

Lemma hasCycle_S (fuel : nat) (tableId : string) (path : list string) (st : Dfs) :
hasCycle (S fuel) schema tableId path st
= if bool_decide (tableId ∈ recursionStack st) then
    Some (true,
          {| visited := visited st;
             recursionStack := recursionStack st;
             found := found st ++ [circularDependency schema tableId path] |})
  else if bool_decide (tableId ∈ visited st) then
    Some (false, st)
  else
    st' ← forM (λ rel st,
                  if JsString.eqb (Relationship.sourceTableId rel) tableId
                  then snd <$> hasCycle fuel schema
                                 (Relationship.targetTableId rel)
                                 (path ++ [tableId]) st
                  else Some st)
               (JsMap.values (Schema.relationships schema))
               {| visited := {[tableId]} ∪ visited st;
                  recursionStack := {[tableId]} ∪ recursionStack st;
                  found := found st |};
    Some (false,
          {| visited := visited st';
             recursionStack := recursionStack st' ∖ {[tableId]};
             found := found st' |}).
Proof. reflexivity. Qed.

(** A run that completes is not changed by allowing more recursion. *)
Lemma hasCycle_fuel_S (fuel : nat) :
∀ tableId path st r,
  hasCycle fuel schema tableId path st = Some r →
  hasCycle (S fuel) schema tableId path st = Some r.
Proof.
induction fuel as [|fuel IH]; intros tableId path st r; [done|].
rewrite (hasCycle_S fuel), (hasCycle_S (S fuel)).
destruct (bool_decide (tableId ∈ recursionStack st)); [done|].
destruct (bool_decide (tableId ∈ visited st)); [done|].
match goal with
| |- context [forM ?f ?l ?s] => destruct (forM f l s) as [st2|] eqn:Hloop
end; [|done].
match goal with
| |- _ → (mbind _ (forM ?g ?l ?s)) = _ => assert (forM g l s = Some st2) as ->
end; [|done].
revert Hloop. apply forM_mono. intros rel s s'.
destruct (JsString.eqb _ _); [|done].
destruct (hasCycle fuel schema _ _ s) as [r'|] eqn:Hcall; [|done].
by rewrite (IH _ _ _ _ Hcall).
Qed.

Lemma hasCycle_fuel_le (fuel fuel' : nat) tableId path st r :
fuel ≤ fuel' →
hasCycle fuel schema tableId path st = Some r →
hasCycle fuel' schema tableId path st = Some r.
Proof. induction 1; auto using hasCycle_fuel_S. Qed.

Lemma circularWarnings_fuel_le (fuel fuel' : nat) ws :
fuel ≤ fuel' →
circularWarnings fuel schema = Some ws →
circularWarnings fuel' schema = Some ws.
Proof.
intros Hle. unfold circularWarnings.
match goal with
| |- context [forM ?f ?l ?s] => destruct (forM f l s) as [st2|] eqn:Hloop
end; [|done].
match goal with
| |- _ → (mbind _ (forM ?g ?l ?s)) = _ => assert (forM g l s = Some st2) as ->
end; [|done].
revert Hloop. apply forM_mono. intros tableId s s'.
destruct (bool_decide _); [done|].
destruct (hasCycle fuel schema _ _ s) as [r'|] eqn:Hcall; [|done].
by rewrite (hasCycle_fuel_le _ _ _ _ _ _ Hle Hcall).
Qed.

Lemma checkCircularDependencies_total :
∃ ws,
  (∀ fuel, dfsFuel schema ≤ fuel → circularWarnings fuel schema = Some ws)
  ∧ ValidationResult.warnings (checkCircularDependencies schema) = ws
  ∧ Forall (reportsCycle schema) ws.
Proof.
destruct (circularWarnings_total schema (dfsFuel schema)) as (ws & Hrun & Hws);
  [done|].
exists ws. split; [|split; [|done]].
- intros fuel Hle. by eapply circularWarnings_fuel_le.
- unfold checkCircularDependencies. cbn [ValidationResult.warnings].
  by rewrite Hrun.
Qed.

End Fuel.

(** C3, as the code has it. When [hasCycle] is entered on a table that is
    on the active recursion stack it pushes one CIRCULAR_DEPENDENCY warning,
    on that table, and answers [true]. The message of the warning lists the
    active path from the revisited table up to the table whose relationship
    leads back to it, every id shown as the name of its table, or as the id
    itself when the schema has no such table; the revisited table opens the
    list and is not repeated at its end. The pass always completes (more
    recursion than [dfsFuel] changes nothing), produces no error, and each of
    its warnings lists a cycle of distinct tables of the relationship graph
    in this way. *)
Theorem circular_dependency_lists_cycle (schema : Schema.t) :
  (∀ fuel tableId path st,
     tableId ∈ ValidationEngine.recursionStack st →
     ValidationEngine.hasCycle (S fuel) schema tableId path st
     = Some (true,
             {| ValidationEngine.visited := ValidationEngine.visited st;
                ValidationEngine.recursionStack := ValidationEngine.recursionStack st;
                ValidationEngine.found :=
                  ValidationEngine.found st
                  ++ [ValidationEngine.circularDependency schema tableId path] |}))
  ∧ (∀ tableId pre rest,
       tableId ∉ pre →
       ValidationEngine.circularDependency schema tableId (pre ++ tableId :: rest)
       = cycleWarning schema tableId rest)
  ∧ (∀ id,
       ValidationEngine.tableLabel schema id
       = match Schema.getTable schema id with
         | Some table => Table.name table
         | None => id
         end)
  ∧ (∃ ws,
       (∀ fuel, ValidationEngine.dfsFuel schema ≤ fuel →
                ValidationEngine.circularWarnings fuel schema = Some ws)
       ∧ ValidationResult.warnings (ValidationEngine.checkCircularDependencies schema)
         = ws
       ∧ Forall (reportsCycle schema) ws)
  ∧ ValidationResult.errors (ValidationEngine.checkCircularDependencies schema) = [].
Proof.
  split.
  { intros fuel tableId path st Hrev. rewrite hasCycle_S.
    by rewrite bool_decide_eq_true_2. }
  split; [intros; by apply circularDependency_on_path|].
  split; [done|].
  split; [apply checkCircularDependencies_total | done].
Qed.

Lemma circular_dependency_lists_cycle_witness :
  ValidationEngine.circularDependency Fixtures.directCycle "t1" ["t1"; "t2"]
  = cycleWarning Fixtures.directCycle "t1" ["t2"].
Proof.
  apply (proj1 (proj2 (circular_dependency_lists_cycle Fixtures.directCycle))
               "t1" [] ["t2"]).
  apply not_elem_of_nil.
Defined.

(** The claim C3 fails as stated: for the two tables of 'should detect
    direct circular dependency' the one warning reads "table1 → table2";
    no warning closes the path with "table1" again. *)
Lemma circular_message_not_closed :
  ValidationResult.warnings (ValidationEngine.checkCircularDependencies Fixtures.directCycle)
  = [cycleWarning Fixtures.directCycle "t1" ["t2"]]
  ∧ ValidationWarning.message (cycleWarning Fixtures.directCycle "t1" ["t2"])
    = "Circular dependency detected: table1 → table2"
  ∧ ¬ (∃ w,
         w ∈ ValidationResult.warnings
               (ValidationEngine.checkCircularDependencies Fixtures.directCycle)
         ∧ ValidationWarning.message w
           = "Circular dependency detected: table1 → table2 → table1").
Proof.
  assert (Hrun :
    ValidationResult.warnings
      (ValidationEngine.checkCircularDependencies Fixtures.directCycle)
    = [cycleWarning Fixtures.directCycle "t1" ["t2"]]) by (vm_compute; reflexivity).
  split; [exact Hrun|]. split; [vm_compute; reflexivity|].
  rewrite Hrun. intros (w & ->%list_elem_of_singleton & Hmsg).
  vm_compute in Hmsg. discriminate Hmsg.
Qed.

(** * Further properties *)

(** ** [Relationship.validate] beyond the column short-circuit *)

Section ValidateOutcome.

Context {unicode : JsString.Unicode}.

Import RelationshipValidator.

Lemma endpoints_None (r : Relationship.t) (schema : Schema.t) :
  endpoints r schema = None →
  ValidationResult.valid (validate r schema) = false
  ∧ ValidationResult.warnings (validate r schema) = []
  ∧ ValidationResult.errors (validate r schema) ≠ []
  ∧ Forall (λ e, ValidationError.code e ∈ notFoundCodes)
           (ValidationResult.errors (validate r schema)).
Proof.
  unfold endpoints, validate.
  destruct (Schema.getTable schema (Relationship.sourceTableId r)) as [sourceTable|],
           (Schema.getTable schema (Relationship.targetTableId r)) as [targetTable|];
    cbn [mbind option_bind]; intros Hnone;
    try (repeat split; [discriminate | codes]).
  destruct (Table.getColumn sourceTable (Relationship.sourceColumnId r)),
           (Table.getColumn targetTable (Relationship.targetColumnId r));
    cbn [mbind option_bind] in Hnone; try discriminate Hnone;
    repeat split; try discriminate; codes.
Qed.

Lemma endpoints_Some (r : Relationship.t) (schema : Schema.t)
    sourceTable targetTable sourceColumn targetColumn :
  endpoints r schema = Some (sourceTable, targetTable, sourceColumn, targetColumn) →
  ValidationResult.valid (validate r schema)
  = areTypesCompatible (Column.type sourceColumn) (Column.type targetColumn)
  ∧ ValidationResult.errors (validate r schema)
    = if areTypesCompatible (Column.type sourceColumn) (Column.type targetColumn)
      then [] else [typeMismatch sourceColumn targetColumn].
Proof.
  unfold endpoints, validate.
  destruct (Schema.getTable schema (Relationship.sourceTableId r)) as [st|];
    [|discriminate].
  destruct (Schema.getTable schema (Relationship.targetTableId r)) as [tt|];
    [|discriminate].
  cbn [mbind option_bind].
  destruct (Table.getColumn st (Relationship.sourceColumnId r)) as [sc|];
    [|discriminate].
  destruct (Table.getColumn tt (Relationship.targetColumnId r)) as [tc|];
    [|discriminate].
  cbn [mbind option_bind]. intros [= <- <- <- <-].
  cbn [ValidationResult.valid ValidationResult.errors].
  destruct (areTypesCompatible (Column.type sc) (Column.type tc)); split; reflexivity.
Qed.

End ValidateOutcome.

(** X1. When the source table or the target table of a relationship does
    not resolve, [validate] returns at once: invalid, no warning, and as
    errors SOURCE_TABLE_NOT_FOUND if the source is missing followed by
    TARGET_TABLE_NOT_FOUND if the target is missing. No column is looked
    up. *)
Theorem validate_table_not_found {unicode : JsString.Unicode}
    (r : Relationship.t) (schema : Schema.t) :
  Schema.getTable schema (Relationship.sourceTableId r) = None
  ∨ Schema.getTable schema (Relationship.targetTableId r) = None →
  RelationshipValidator.validate r schema
  = {| ValidationResult.valid := false;
       ValidationResult.errors :=
         match Schema.getTable schema (Relationship.sourceTableId r) with
         | Some _ => []
         | None => [RelationshipValidator.sourceTableNotFound r]
         end
         ++ match Schema.getTable schema (Relationship.targetTableId r) with
            | Some _ => []
            | None => [RelationshipValidator.targetTableNotFound r]
            end;
       ValidationResult.warnings := [] |}.
Proof.
  unfold RelationshipValidator.validate.
  destruct (Schema.getTable schema (Relationship.sourceTableId r)),
           (Schema.getTable schema (Relationship.targetTableId r));
    intros [Hnone|Hnone]; try discriminate Hnone; reflexivity.
Qed.

Section validate_table_not_found_example.

#[local] Existing Instance JsString.asciiOnly.

Lemma validate_table_not_found_witness :
  ValidationResult.errors
    (RelationshipValidator.validate
       (Fixtures.oneToMany "rel3" "t2" "t1" "t2_fk" "t1_id") Fixtures.dangling)
  = [RelationshipValidator.targetTableNotFound
       (Fixtures.oneToMany "rel3" "t2" "t1" "t2_fk" "t1_id")].
Proof.
  exact (f_equal ValidationResult.errors
           (validate_table_not_found
              (Fixtures.oneToMany "rel3" "t2" "t1" "t2_fk" "t1_id") Fixtures.dangling
              (or_intror eq_refl))).
Defined.

End validate_table_not_found_example.

(** X2. A relationship is valid exactly when its two tables and its two
    columns resolve and the types of the two columns are compatible; the
    relationship type, the key flags and the column names play no part. *)
Theorem validate_valid_iff {unicode : JsString.Unicode} (r : Relationship.t) (schema : Schema.t) :
  ValidationResult.valid (RelationshipValidator.validate r schema)
  = match endpoints r schema with
    | Some (_, _, sourceColumn, targetColumn) =>
        RelationshipValidator.areTypesCompatible
          (Column.type sourceColumn) (Column.type targetColumn)
    | None => false
    end.
Proof.
  destruct (endpoints r schema) as [[[[st tt] sc] tc]|] eqn:Hends.
  - by apply endpoints_Some in Hends as [-> _].
  - by apply endpoints_None in Hends as [-> _].
Qed.

(** X3. A result of [validate] that carries a warning carries no not-found
    error: warnings are only computed once both tables and both columns are
    there, and then the only possible error is TYPE_MISMATCH. Conversely,
    when something does not resolve, every error is a not-found error and
    there is at least one. *)
Theorem validate_warnings_need_endpoints {unicode : JsString.Unicode}
    (r : Relationship.t) (schema : Schema.t) :
  (ValidationResult.warnings (RelationshipValidator.validate r schema) ≠ [] →
   is_Some (endpoints r schema)
   ∧ Forall (hasCode "TYPE_MISMATCH")
            (ValidationResult.errors (RelationshipValidator.validate r schema)))
  ∧ (endpoints r schema = None →
     ValidationResult.warnings (RelationshipValidator.validate r schema) = []
     ∧ ValidationResult.errors (RelationshipValidator.validate r schema) ≠ []
     ∧ Forall (λ e, ValidationError.code e ∈ notFoundCodes)
              (ValidationResult.errors (RelationshipValidator.validate r schema))).
Proof.
  split.
  - intros Hwarn.
    destruct (endpoints r schema) as [[[[st tt] sc] tc]|] eqn:Hends.
    + split; [by eexists|].
      apply endpoints_Some in Hends as [_ ->].
      destruct (RelationshipValidator.areTypesCompatible _ _); repeat constructor.
    + by apply endpoints_None in Hends as (_ & ? & _).
  - intros Hends. by apply endpoints_None in Hends as (_ & ? & ? & ?).
Qed.

Section validate_warnings_need_endpoints_example.

#[local] Existing Instance JsString.asciiOnly.

Lemma validate_warnings_need_endpoints_witness :
  ValidationResult.warnings
    (RelationshipValidator.validate Fixtures.postsToUsers Fixtures.blog) = []
  ∧ ValidationResult.errors
      (RelationshipValidator.validate Fixtures.postsToUsers Fixtures.blog) ≠ [].
Proof.
  destruct (proj2 (validate_warnings_need_endpoints (unicode := JsString.asciiOnly)
              Fixtures.postsToUsers Fixtures.blog)
                  eq_refl) as (Hw & He & _).
  exact (conj Hw He).
Defined.

End validate_warnings_need_endpoints_example.

(** ** The Snowflake statement of a relationship *)

(** X4. [generateRelationship] returns the empty string exactly when a table
    or a column of the relationship does not resolve; in particular a
    relationship that passes [validate] always gets its ALTER TABLE
    statement, and one with a not-found error never does. *)
Theorem generateRelationship_empty_iff {unicode : JsString.Unicode}
    (r : Relationship.t) (schema : Schema.t) :
  (SnowflakeGenerator.generateRelationship r schema = "" ↔ endpoints r schema = None)
  ∧ (ValidationResult.valid (RelationshipValidator.validate r schema) = true →
     SnowflakeGenerator.generateRelationship r schema ≠ "")
  ∧ (Exists (λ e, ValidationError.code e ∈ notFoundCodes)
            (ValidationResult.errors (RelationshipValidator.validate r schema)) →
     SnowflakeGenerator.generateRelationship r schema = "").
Proof.
  assert (Hiff : SnowflakeGenerator.generateRelationship r schema = ""
                 ↔ endpoints r schema = None).
  { unfold SnowflakeGenerator.generateRelationship, endpoints.
    destruct (Schema.getTable schema (Relationship.sourceTableId r)) as [st|];
      [|done].
    destruct (Schema.getTable schema (Relationship.targetTableId r)) as [tt|];
      [|done].
    cbn [mbind option_bind].
    destruct (Table.getColumn st (Relationship.sourceColumnId r)) as [sc|];
      [|done].
    destruct (Table.getColumn tt (Relationship.targetColumnId r)) as [tc|];
      [|done].
    cbn [mbind option_bind]. split; discriminate. }
  split; [exact Hiff|]. split.
  - intros Hvalid Hempty. apply Hiff, endpoints_None in Hempty as [Hinvalid _].
    congruence.
  - intros Hnf. apply Hiff.
    destruct (endpoints r schema) as [[[[st tt] sc] tc]|] eqn:Hends; [|done].
    apply endpoints_Some in Hends as [_ Herr]. rewrite Herr in Hnf.
    destruct (RelationshipValidator.areTypesCompatible _ _).
    + by apply Exists_nil in Hnf.
    + apply Exists_cons in Hnf as [Hnf|Hnf]; [|by apply Exists_nil in Hnf].
      exfalso. revert Hnf. by apply (bool_decide_unpack _).
Qed.

Section generateRelationship_empty_iff_example.

#[local] Existing Instance JsString.asciiOnly.

Lemma generateRelationship_empty_iff_witness :
  SnowflakeGenerator.generateRelationship Fixtures.postsToUsers Fixtures.blog = "".
Proof.
  exact (proj2 (proj1 (generateRelationship_empty_iff (unicode := JsString.asciiOnly)
              Fixtures.postsToUsers Fixtures.blog))
               eq_refl).
Defined.

End generateRelationship_empty_iff_example.

(** ** The mutation surface of the schema *)

Section SchemaSurface.

Context {unicode : JsString.Unicode}.

Lemma get_set {V} (m : JsMap.t V) (k k' : string) (v : V) :
  JsMap.get k' (JsMap.set k v m) = if decide (k' = k) then Some v else JsMap.get k' m.
Proof.
  induction m as [|[k1 v1] m IH]; cbn [JsMap.set JsMap.get].
  - destruct (decide (k = k')), (decide (k' = k)); congruence.
  - destruct (decide (k1 = k)) as [->|Hne]; cbn [JsMap.get].
    + destruct (decide (k = k')), (decide (k' = k)); congruence.
    + rewrite IH. destruct (decide (k1 = k')), (decide (k' = k)); congruence.
Qed.

Lemma delete_set_fresh {V} (m : JsMap.t V) (k : string) (v : V) :
  JsMap.get k m = None → JsMap.delete k (JsMap.set k v m) = m.
Proof.
  intros Hk. rewrite set_fresh by (by apply get_None).
  unfold JsMap.delete. rewrite filter_app, filter_cons_False, filter_nil, app_nil_r
    by (cbn; auto).
  by apply delete_absent.
Qed.

Lemma toDelete_untouched (id : string) (rels : JsMap.t Relationship.t) :
  Forall (λ e, ¬ touches id e.2) rels → Schema.toDelete id rels = [].
Proof.
  intros Hrels. rewrite toDelete_spec.
  by rewrite (filter_none (λ e, touches id e.2)).
Qed.

Lemma getTable_addTable (table : Table.t) (s : Schema.t) (id : string) :
  Schema.getTable (Schema.addTable table s) id
  = if decide (id = Table.id table) then Some table else Schema.getTable s id.
Proof. apply get_set. Qed.

Lemma getRelationship_addRelationship (rel : Relationship.t) (s : Schema.t) (id : string) :
  Schema.getRelationship (Schema.addRelationship rel s) id
  = if decide (id = Relationship.id rel) then Some rel else Schema.getRelationship s id.
Proof. apply get_set. Qed.

End SchemaSurface.

(** X5. [addTable] files the table under its own id: looking that id up
    gives the table back, every other id resolves as before, and the
    relationships are not touched. A table whose id is already there takes
    the place of the old one, so the iteration order is kept; a new id goes
    last. *)
Theorem addTable_lookup (table : Table.t) (schema : Schema.t) :
  (∀ id, Schema.getTable (Schema.addTable table schema) id
         = if decide (id = Table.id table) then Some table
           else Schema.getTable schema id)
  ∧ JsMap.keys (Schema.tables (Schema.addTable table schema))
    = (if decide (Table.id table ∈ JsMap.keys (Schema.tables schema))
       then JsMap.keys (Schema.tables schema)
       else JsMap.keys (Schema.tables schema) ++ [Table.id table])
  ∧ Schema.relationships (Schema.addTable table schema) = Schema.relationships schema.
Proof.
  split; [intros id; apply get_set|]. split; [apply keys_set | reflexivity].
Qed.

(** X6. [addRelationship] and [removeRelationship]: a relationship that was
    added is found under its id and no other id changes; after
    [removeRelationship] the id resolves to nothing and no other id changes;
    neither touches the tables; removing an id that is not there changes
    nothing, and removing a relationship just added under a fresh id gives
    the schema back. *)
Theorem relationship_add_remove (rel : Relationship.t) (schema : Schema.t) :
  (∀ id, Schema.getRelationship (Schema.addRelationship rel schema) id
         = if decide (id = Relationship.id rel) then Some rel
           else Schema.getRelationship schema id)
  ∧ (∀ removed id,
       Schema.getRelationship (Schema.removeRelationship removed schema) id
       = if decide (id = removed) then None else Schema.getRelationship schema id)
  ∧ Schema.tables (Schema.addRelationship rel schema) = Schema.tables schema
  ∧ (∀ removed, Schema.tables (Schema.removeRelationship removed schema)
                = Schema.tables schema)
  ∧ (∀ removed, Schema.getRelationship schema removed = None →
                Schema.removeRelationship removed schema = schema)
  ∧ (Schema.getRelationship schema (Relationship.id rel) = None →
     Schema.removeRelationship (Relationship.id rel) (Schema.addRelationship rel schema)
     = schema).
Proof.
  split; [intros id; apply get_set|].
  split; [intros removed id; apply get_delete|].
  split; [reflexivity|]. split; [reflexivity|].
  destruct schema as [n ts rs md]. unfold Schema.getRelationship.
  cbn [Schema.relationships]. split.
  - intros removed Hnone. unfold Schema.removeRelationship.
    cbn [Schema.name Schema.tables Schema.relationships Schema.metadata].
    by rewrite delete_absent.
  - intros Hnone. unfold Schema.removeRelationship, Schema.addRelationship.
    cbn [Schema.name Schema.tables Schema.relationships Schema.metadata].
    by rewrite delete_set_fresh.
Qed.

Lemma relationship_add_remove_witness :
  Schema.removeRelationship "fk" (Schema.addRelationship Fixtures.postsToUsers Fixtures.usersOnly)
  = Fixtures.usersOnly.
Proof.
  exact (proj2 (proj2 (proj2 (proj2 (proj2
           (relationship_add_remove Fixtures.postsToUsers Fixtures.usersOnly)))))
           eq_refl).
Defined.

(** X7. Adding a table under a fresh id and removing it again gives the
    schema back, provided no relationship names that id (otherwise the
    cascade of [removeTable] takes those relationships with it). *)
Theorem removeTable_addTable (table : Table.t) (schema : Schema.t) :
  Schema.getTable schema (Table.id table) = None →
  Forall (λ e, ¬ touches (Table.id table) e.2) (Schema.relationships schema) →
  Schema.removeTable (Table.id table) (Schema.addTable table schema) = schema.
Proof.
  destruct schema as [n ts rs md]. unfold Schema.getTable. cbn [Schema.tables Schema.relationships].
  intros Hfresh Hrels. unfold Schema.removeTable, Schema.addTable.
  cbn [Schema.tables Schema.relationships Schema.name Schema.metadata].
  by rewrite delete_set_fresh, toDelete_untouched.
Qed.

Lemma removeTable_addTable_witness :
  Schema.removeTable "o" (Schema.addTable Fixtures.orphan Fixtures.directCycle)
  = Fixtures.directCycle.
Proof.
  apply (removeTable_addTable Fixtures.orphan Fixtures.directCycle); [reflexivity|].
  apply (bool_decide_unpack _). vm_compute. exact I.
Defined.

(** X8. [removeTable] can be repeated and reordered: removing the same id
    twice is removing it once, and two removals give the same schema in
    either order. *)
Theorem removeTable_idempotent_commutes (schema : Schema.t) (a b : string) :
  JsMap.wf (Schema.relationships schema) →
  Schema.removeTable a (Schema.removeTable a schema) = Schema.removeTable a schema
  ∧ Schema.removeTable a (Schema.removeTable b schema)
    = Schema.removeTable b (Schema.removeTable a schema).
Proof.
  intros Hwf.
  assert (Hshape : ∀ id s, JsMap.wf (Schema.relationships s) →
            Schema.removeTable id s
            = {| Schema.name := Schema.name s;
                 Schema.tables := filter (λ e, e.1 ≠ id) (Schema.tables s);
                 Schema.relationships :=
                   filter (λ e, ¬ touches id e.2) (Schema.relationships s);
                 Schema.metadata := Schema.metadata s |}).
  { intros id s Hs. rewrite <- (removeTable_relationships id s Hs). reflexivity. }
  assert (Hwf' : ∀ id, JsMap.wf (Schema.relationships (Schema.removeTable id schema))).
  { intros id. rewrite removeTable_relationships by done. by apply wf_filter. }
  split.
  - rewrite (Hshape a (Schema.removeTable a schema)) by done.
    rewrite !(Hshape a schema) by done. cbn. f_equal.
    + rewrite list_filter_filter. apply list_filter_iff. tauto.
    + rewrite list_filter_filter. apply list_filter_iff. tauto.
  - rewrite (Hshape a (Schema.removeTable b schema)),
            (Hshape b (Schema.removeTable a schema)) by done.
    rewrite (Hshape a schema), (Hshape b schema) by done. cbn. f_equal.
    + rewrite !list_filter_filter. apply list_filter_iff. tauto.
    + rewrite !list_filter_filter. apply list_filter_iff. tauto.
Qed.

Lemma removeTable_idempotent_commutes_witness :
  Schema.removeTable "t1" (Schema.removeTable "t2" Fixtures.directCycle)
  = Schema.removeTable "t2" (Schema.removeTable "t1" Fixtures.directCycle).
Proof.
  apply (removeTable_idempotent_commutes Fixtures.directCycle "t1" "t2").
  apply (bool_decide_unpack _). vm_compute. exact I.
Defined.

(** X9. The cascade of [removeTable] keeps the references whole: the
    relationships that stay name neither end the removed id, so their tables
    resolve as before; a schema in which every relationship names two
    existing tables is still such a schema after any [removeTable]. *)
Theorem removeTable_keeps_references (schema : Schema.t) (id : string) :
  JsMap.wf (Schema.relationships schema) →
  Forall (λ e,
            Schema.getTable (Schema.removeTable id schema) (Relationship.sourceTableId e.2)
            = Schema.getTable schema (Relationship.sourceTableId e.2)
            ∧ Schema.getTable (Schema.removeTable id schema) (Relationship.targetTableId e.2)
              = Schema.getTable schema (Relationship.targetTableId e.2))
         (Schema.relationships (Schema.removeTable id schema))
  ∧ (noDangling schema → noDangling (Schema.removeTable id schema)).
Proof.
  intros Hwf.
  assert (Hkept : ∀ e, e ∈ Schema.relationships (Schema.removeTable id schema) →
            e ∈ Schema.relationships schema
            ∧ Relationship.sourceTableId e.2 ≠ id
            ∧ Relationship.targetTableId e.2 ≠ id).
  { intros e. rewrite removeTable_relationships by done.
    intros [Hno Hin]%list_elem_of_filter. unfold touches in Hno. tauto. }
  assert (Hget : ∀ other, other ≠ id →
            Schema.getTable (Schema.removeTable id schema) other
            = Schema.getTable schema other).
  { intros other Hne. unfold Schema.getTable. cbn [Schema.removeTable Schema.tables].
    rewrite get_delete. by rewrite decide_False. }
  split.
  - apply Forall_forall. intros e (_ & Hs & Ht)%Hkept. split; by apply Hget.
  - unfold noDangling. rewrite !Forall_forall. intros Hall e He.
    destruct (Hkept e He) as (Hin & Hs & Ht).
    rewrite !Hget by done. by apply Hall.
Qed.

Lemma removeTable_keeps_references_witness :
  noDangling (Schema.removeTable "t1" Fixtures.directCycle).
Proof.
  apply (removeTable_keeps_references Fixtures.directCycle "t1").
  - apply (bool_decide_unpack _). vm_compute. exact I.
  - unfold noDangling. apply (bool_decide_unpack _). vm_compute. exact I.
Defined.

(** ** The columns of a table *)

Section TableColumns.

Context {unicode : JsString.Unicode}.

Lemma findColumn_app (id : string) (cols more : list Column.t) :
  Table.findColumn id (cols ++ more)
  = match Table.findColumn id cols with
    | Some c => Some c
    | None => Table.findColumn id more
    end.
Proof.
  induction cols as [|c cols IH]; [reflexivity|].
  cbn [app Table.findColumn]. by destruct (JsString.eqb (Column.id c) id).
Qed.

Lemma findColumn_filter (id removed : string) (cols : list Column.t) :
  Table.findColumn id (filter (λ c, Column.id c ≠ removed) cols)
  = if decide (id = removed) then None else Table.findColumn id cols.
Proof.
  induction cols as [|c cols IH].
  - by destruct (decide (id = removed)).
  - rewrite filter_cons. unfold JsString.eqb in *.
    destruct (decide (Column.id c ≠ removed)) as [Hne|Heq%dec_stable];
      cbn [Table.findColumn]; unfold JsString.eqb; rewrite IH.
    + case_bool_decide; destruct (decide (id = removed)); congruence.
    + case_bool_decide; destruct (decide (id = removed)); congruence.
Qed.

Lemma findColumn_None (id : string) (cols : list Column.t) :
  Table.findColumn id cols = None ↔ Forall (λ c, Column.id c ≠ id) cols.
Proof.
  induction cols as [|c cols IH]; cbn [Table.findColumn].
  - split; [constructor | done].
  - unfold JsString.eqb. rewrite Forall_cons. case_bool_decide.
    + split; [done | by intros [? _]].
    + rewrite IH. tauto.
Qed.

Lemma validateTable_column_codes (table : Table.t) (cols : list Column.t)
    (names : gset string) :
  Forall (λ e, ValidationError.code e ∈ singleTableColumnCodes)
         (foldl (ValidationEngine.validateTable_column table) (names, []) cols).2.
Proof.
  revert names. induction cols as [|c cols IH]; intros names; [constructor|].
  rewrite (foldl_appending_cons _ _ _ _ (validateTable_column_appending table)).
  apply Forall_app. split; [|apply IH].
  unfold ValidationEngine.validateTable_column; cbn [snd fst].
  codes.
Qed.

Lemma Exists_foreign_code (codes : list string) (c : string)
    (l : list ValidationError.t) :
  c ∉ codes →
  Forall (λ e, ValidationError.code e ∈ codes) l →
  ¬ Exists (hasCode c) l.
Proof.
  intros Hc Hl (e & He & Hcode)%Exists_exists.
  rewrite Forall_forall in Hl. specialize (Hl e He).
  unfold hasCode in Hcode. congruence.
Qed.

End TableColumns.

(** X10. [addColumn] appends without looking at ids. A column id that the
    table already has keeps resolving to the older column, so the new one
    cannot be reached through [getColumn]; a new id resolves to the new
    column, and no other id changes. *)
Theorem addColumn_getColumn (column : Column.t) (table : Table.t) (id : string) :
  Table.getColumn (Table.addColumn column table) id
  = match Table.getColumn table id with
    | Some older => Some older
    | None => if decide (Column.id column = id) then Some column else None
    end.
Proof.
  unfold Table.getColumn, Table.addColumn. cbn [Table.columns].
  rewrite findColumn_app. destruct (Table.findColumn id (Table.columns table)); [done|].
  cbn [Table.findColumn]. unfold JsString.eqb.
  by case_bool_decide; case_decide.
Qed.

(** X11. [removeColumn] removes every column of that id, duplicates
    included: the id resolves to nothing afterwards, every other id resolves
    as before, a table without that id is left as it is, and a column added
    under a new id is taken out again by [removeColumn]. *)
Theorem removeColumn_getColumn (table : Table.t) (removed : string) :
  (∀ id, Table.getColumn (Table.removeColumn removed table) id
         = if decide (id = removed) then None else Table.getColumn table id)
  ∧ Forall (λ c, Column.id c ≠ removed) (Table.columns (Table.removeColumn removed table))
  ∧ (Table.getColumn table removed = None → Table.removeColumn removed table = table)
  ∧ (∀ column, Column.id column = removed →
               Table.getColumn table removed = None →
               Table.removeColumn removed (Table.addColumn column table) = table).
Proof.
  split; [intros id; apply findColumn_filter|].
  split.
  { cbn [Table.removeColumn Table.columns]. apply Forall_forall.
    by intros c [? _]%list_elem_of_filter. }
  destruct table as [tid n p cols ix cs cm]. unfold Table.getColumn.
  cbn [Table.columns]. split.
  - intros Hnone%findColumn_None. unfold Table.removeColumn.
    cbn [Table.id Table.name Table.position Table.columns Table.indexes
         Table.constraints Table.comment].
    by rewrite filter_all.
  - intros column Hid Hnone%findColumn_None. unfold Table.removeColumn, Table.addColumn.
    cbn [Table.id Table.name Table.position Table.columns Table.indexes
         Table.constraints Table.comment].
    rewrite filter_app, filter_all, filter_cons_False, filter_nil, app_nil_r; auto.
Qed.

Lemma removeColumn_getColumn_witness :
  Table.removeColumn "t1_fk" Fixtures.table1
  = Fixtures.table "t1" "table1" [Fixtures.column "t1_id" "id" "INT" true true false]
  ∧ Table.removeColumn "nope" Fixtures.table1 = Fixtures.table1.
Proof.
  split.
  - exact (proj2 (proj2 (proj2 (removeColumn_getColumn
             (Fixtures.table "t1" "table1"
                [Fixtures.column "t1_id" "id" "INT" true true false]) "t1_fk")))
             (Fixtures.column "t1_fk" "table2_id" "INT" false true false)
             eq_refl eq_refl).
  - exact (proj1 (proj2 (proj2 (removeColumn_getColumn Fixtures.table1 "nope"))) eq_refl).
Defined.

(** ** A table without columns *)

(** X12. A table without columns fails single-table validation with both
    TABLE_NO_COLUMNS and TABLE_NO_PRIMARY_KEY (after TABLE_EMPTY_NAME when
    its name is blank) and nothing else; in general TABLE_NO_COLUMNS never
    comes without TABLE_NO_PRIMARY_KEY. *)
Theorem validateTable_no_columns {unicode : JsString.Unicode}
    (schema : Schema.t) (tableId : string) (table : Table.t) :
  Schema.getTable schema tableId = Some table →
  (Table.columns table = [] →
   ValidationResult.errors (ValidationEngine.validateTable schema tableId)
   = (if ValidationEngine.blank (Table.name table)
      then [ValidationEngine.tableEmptyName table] else [])
     ++ [ValidationEngine.tableNoColumns table; ValidationEngine.tableNoPrimaryKey table])
  ∧ (Exists (hasCode "TABLE_NO_COLUMNS")
            (ValidationResult.errors (ValidationEngine.validateTable schema tableId)) →
     Exists (hasCode "TABLE_NO_PRIMARY_KEY")
            (ValidationResult.errors (ValidationEngine.validateTable schema tableId))).
Proof.
  intros Htable.
  assert (Hempty : Table.columns table = [] →
    ValidationResult.errors (ValidationEngine.validateTable schema tableId)
    = (if ValidationEngine.blank (Table.name table)
       then [ValidationEngine.tableEmptyName table] else [])
      ++ [ValidationEngine.tableNoColumns table; ValidationEngine.tableNoPrimaryKey table]).
  { intros Hcols. unfold ValidationEngine.validateTable, Table.getPrimaryKeys.
    rewrite Htable, Hcols. cbn [ValidationResult.errors foldl snd].
    by destruct (ValidationEngine.blank (Table.name table)). }
  split; [exact Hempty|].
  destruct (Table.columns table) as [|c cols] eqn:Hcols.
  - rewrite Hempty by done. intros _.
    apply Exists_app. right. apply Exists_cons. right. by apply Exists_cons_hd.
  - intros Hno. exfalso. revert Hno.
    unfold ValidationEngine.validateTable. rewrite Htable, Hcols.
    cbn [ValidationResult.errors].
    rewrite (foldl_appending _ (validateTable_column_appending table)).
    cbn [fst snd]. rewrite Exists_app. intros [Hbase|Hcolumns].
    + revert Hbase. rewrite (bool_decide_eq_false_2 (length (c :: cols) = 0)) by done.
      destruct (ValidationEngine.blank (Table.name table)),
        (bool_decide (length (Table.getPrimaryKeys table) = 0));
        apply (bool_decide_unpack _); vm_compute; exact I.
    + revert Hcolumns. apply (Exists_foreign_code singleTableColumnCodes).
      * apply (bool_decide_unpack _). vm_compute. exact I.
      * apply validateTable_column_codes.
Qed.

Section validateTable_no_columns_example.

#[local] Existing Instance JsString.asciiOnly.

Lemma validateTable_no_columns_witness :
  ValidationResult.errors (ValidationEngine.validateTable Fixtures.twoUsers "u2")
  = [ValidationEngine.tableNoColumns Fixtures.users2;
     ValidationEngine.tableNoPrimaryKey Fixtures.users2].
Proof.
  exact (proj1 (validateTable_no_columns (unicode := JsString.asciiOnly)
              Fixtures.twoUsers "u2" Fixtures.users2 eq_refl)
               eq_refl).
Defined.

End validateTable_no_columns_example.
(** ** Saving and reading back *)

Section Deserialization.

Context {unicode : JsString.Unicode}.

(** What every [add] keeps holds of what a loop returns. *)
Lemma forEach_invariant {A S} (I : S → Prop) (step : JsValue → outcome A)
    (add : A → S → S) (items : list JsValue) :
  (∀ a s, I s → I (add a s)) →
  ∀ acc s', JsAny.forEach step add items acc = Returns (Some s') →
            (∀ s, acc = Some s → I s) → I s'.
Proof.
  intros Hadd. induction items as [|item items IH]; intros acc s' Hrun Hacc.
  - cbn in Hrun. apply Hacc. congruence.
  - cbn [JsAny.forEach] in Hrun. destruct (step item) as [|a]; [done|].
    apply (IH _ _ Hrun). intros s Hs.
    destruct a as [a|], acc as [s0|]; cbn in Hs; try done.
    simplify_eq. by apply Hadd, Hacc.
Qed.

(** A loop throws as soon as its body does, whatever went before. *)
Lemma forEach_throws {A S} (step : JsValue → outcome A) (add : A → S → S)
    (items : list JsValue) (item : JsValue) :
  item ∈ items → step item = TypeError →
  ∀ acc, JsAny.forEach step add items acc = TypeError.
Proof.
  intros Hin Hthrow. induction items as [|x items IH]; intros acc.
  - by apply elem_of_nil in Hin.
  - cbn [JsAny.forEach]. apply elem_of_cons in Hin as [<-|Hin].
    + by rewrite Hthrow.
    + destruct (step x); [done | by apply IH].
Qed.

Lemma fromJSON_wf (json : JsValue) (schema : Schema.t) :
  Schema.fromJSON json = Returns (Some schema) → Schema.wf schema.
Proof.
  unfold Schema.fromJSON. destruct (JsAny.nullish json); [done|]. cbv zeta.
  destruct (JsAny.iterate (JsAny.or (JsAny.prop "tables" json) _)) as [tables|];
    [|done].
  destruct (JsAny.forEach Table.fromJSON _ tables _) as [|schema1] eqn:Htables;
    [done|].
  destruct (JsAny.iterate (JsAny.or (JsAny.prop "relationships" json) _))
    as [relationships|]; [|done].
  intros Hrun.
  apply (forEach_invariant Schema.wf _ _ _ (λ a s, wf_addRelationship a s) _ _ Hrun).
  intros s ->.
  apply (forEach_invariant Schema.wf _ _ _ (λ a s, wf_addTable a s) _ _ Htables).
  intros s0 Hs0.
  destruct (JsAny.asString _) as [name|]; [|done]. cbn [mbind option_bind] in Hs0.
  destruct (JsAny.or (JsAny.prop "metadata" json) _); try done.
  cbn [mbind option_bind] in Hs0. simplify_eq. repeat split; constructor.
Qed.

Lemma Table_fromJSON_throws (item : JsValue) :
  JsAny.nullish item = true ∨ JsAny.nullish (JsAny.prop "position" item) = true →
  Table.fromJSON item = TypeError.
Proof.
  unfold Table.fromJSON. intros [->| ->]; [done|]. by destruct (JsAny.nullish item).
Qed.

End Deserialization.

(** X13. Columns, tables and relationships survive their own round trip:
    [fromJSON (toJSON x)] returns [x], with every flag, optional field,
    column order, index and constraint. Consequently [toJSON] loses
    nothing: two values with the same JSON are the same. *)
Theorem model_roundtrips {unicode : JsString.Unicode} :
  (∀ c, Column.fromJSON (Column.toJSON c) = Returns (Some c))
  ∧ (∀ t, Table.fromJSON (Table.toJSON t) = Returns (Some t))
  ∧ (∀ r, Relationship.fromJSON (Relationship.toJSON r) = Returns (Some r))
  ∧ (∀ t t', Table.toJSON t = Table.toJSON t' → t = t')
  ∧ (∀ r r', Relationship.toJSON r = Relationship.toJSON r' → r = r').
Proof.
  split; [apply Column_roundtrip|]. split; [apply Table_roundtrip|].
  split; [apply Relationship_roundtrip|]. split.
  - intros t t' Heq. pose proof (Table_roundtrip t) as Ht.
    rewrite Heq, Table_roundtrip in Ht. congruence.
  - intros r r' Heq. pose proof (Relationship_roundtrip r) as Hr.
    rewrite Heq, Relationship_roundtrip in Hr. congruence.
Qed.

(** X14. [clone] returns the same tables, relationships and metadata; the
    only thing it can change is an empty schema name, which comes back as
    'Untitled Schema'. So a clone equals its original exactly when the name
    is not empty, and cloning a clone changes nothing. *)
Theorem clone_exact {unicode : JsString.Unicode} (schema : Schema.t) :
  Schema.wf schema →
  Schema.clone schema
  = Returns (Some {| Schema.name := if decide (Schema.name schema = "")
                                    then "Untitled Schema" else Schema.name schema;
                     Schema.tables := Schema.tables schema;
                     Schema.relationships := Schema.relationships schema;
                     Schema.metadata := Schema.metadata schema |})
  ∧ (Schema.clone schema = Returns (Some schema) ↔ Schema.name schema ≠ "")
  ∧ (∀ cloned, Schema.clone schema = Returns (Some cloned) →
               Schema.clone cloned = Returns (Some cloned)).
Proof.
  intros Hwf.
  assert (Hclone : ∀ s, Schema.wf s →
    Schema.clone s
    = Returns (Some {| Schema.name := if decide (Schema.name s = "")
                                      then "Untitled Schema" else Schema.name s;
                       Schema.tables := Schema.tables s;
                       Schema.relationships := Schema.relationships s;
                       Schema.metadata := Schema.metadata s |})).
  { intros s Hs. unfold Schema.clone. rewrite fromJSON_toJSON by done.
    unfold JsString.falsy. by case_bool_decide; case_decide. }
  split; [by apply Hclone|]. split.
  - rewrite Hclone by done. destruct schema as [n ts rs md].
    cbn [Schema.name Schema.tables Schema.relationships Schema.metadata].
    case_decide as Hn.
    + subst n. split; [intros [=] | done].
    + split; [done | reflexivity].
  - intros cloned. rewrite (Hclone schema Hwf). intros [= <-]. rewrite Hclone.
    + cbn [Schema.name Schema.tables Schema.relationships Schema.metadata].
      do 3 f_equal. repeat case_decide; try done.
    + destruct Hwf as (? & ? & ? & ?). by repeat split.
Qed.

Section clone_exact_example.

#[local] Existing Instance JsString.asciiOnly.

Lemma clone_exact_witness :
  Schema.clone Fixtures.dangling = Returns (Some Fixtures.dangling).
Proof.
  assert (Hwf : Schema.wf Fixtures.dangling)
    by (apply reachable_wf; repeat constructor).
  apply (proj1 (proj2 (clone_exact (unicode := JsString.asciiOnly) Fixtures.dangling Hwf))).
  discriminate.
Defined.

End clone_exact_example.

(** X15. What [Schema.fromJSON] does with any value at all. When it returns
    a schema that the typed models describe, the entries of that schema sit
    under their own ids with no key twice. When [json.tables] is an array
    with an item that is [null] or [undefined], or that has no [position],
    it throws a [TypeError], whatever else the value holds. *)
Theorem fromJSON_wellformed {unicode : JsString.Unicode} (json : JsValue) :
  (∀ schema, Schema.fromJSON json = Returns (Some schema) → Schema.wf schema)
  ∧ (∀ items item,
       JsAny.prop "tables" json = JsArr items →
       item ∈ items →
       JsAny.nullish item = true
       ∨ JsAny.nullish (JsAny.prop "position" item) = true →
       Schema.fromJSON json = TypeError).
Proof.
  split; [apply fromJSON_wf|].
  intros items item Htables Hin Hitem. unfold Schema.fromJSON.
  destruct json; try discriminate Htables. cbn [JsAny.nullish]. cbv zeta.
  rewrite Htables. cbn [JsAny.or JsAny.truthy JsAny.iterate].
  by rewrite (forEach_throws Table.fromJSON Schema.addTable items item Hin
                (Table_fromJSON_throws item Hitem)).
Qed.

Section fromJSON_wellformed_example.

#[local] Existing Instance JsString.asciiOnly.

Lemma fromJSON_wellformed_witness :
  Schema.fromJSON
    (JsObj [("name", JsStr "shop");
            ("tables", JsArr [Table.toJSON Fixtures.users;
                              JsObj [("id", JsStr "t"); ("name", JsStr "orders")]])])
  = TypeError.
Proof.
  apply (proj2 (fromJSON_wellformed (unicode := JsString.asciiOnly) _)
               [Table.toJSON Fixtures.users;
                JsObj [("id", JsStr "t"); ("name", JsStr "orders")]]
               (JsObj [("id", JsStr "t"); ("name", JsStr "orders")])).
  - reflexivity.
  - right. left.
  - right. reflexivity.
Defined.

End fromJSON_wellformed_example.

(** ** Type strings *)

Section TypeStrings.

Context {unicode : JsString.Unicode}.

Import RelationshipValidator.

Lemma groups_disjoint (x : string) :
  (x ∈ numericTypes → (x ∉ stringTypes) ∧ (x ∉ dateTypes))
  ∧ (x ∈ stringTypes → x ∉ dateTypes).
Proof.
  assert (Hn : Forall (λ x, (x ∉ stringTypes) ∧ (x ∉ dateTypes)) numericTypes)
    by (apply (bool_decide_unpack _); vm_compute; exact I).
  assert (Hs : Forall (λ x, x ∉ dateTypes) stringTypes)
    by (apply (bool_decide_unpack _); vm_compute; exact I).
  rewrite Forall_forall in Hn, Hs. split; auto.
Qed.

Lemma sameGroup_trans (a b c : string) :
  sameGroup a b → sameGroup b c → sameGroup a c.
Proof.
  unfold sameGroup.
  destruct (groups_disjoint a) as [Ha1 Ha2], (groups_disjoint b) as [Hb1 Hb2],
    (groups_disjoint c) as [Hc1 Hc2].
  intros [->|Hab] [->|Hbc]; try tauto.
Qed.

Lemma numericTypes_normal : Forall (λ n, normalize n = n) numericTypes.
Proof.
  unfold numericTypes.
  repeat (apply Forall_cons; split;
          [rewrite normalize_ascii by reflexivity; reflexivity|]).
  apply Forall_nil_2.
Qed.

Lemma isNumericType_spec (t : string) :
  ValidationEngine.isNumericType t = true ↔ normalize t ∈ numericTypes.
Proof. apply includes_spec. Qed.

Lemma splitHead_append (sep : ascii) (a rest : string) :
  JsString.splitHead sep (a +:+ String sep rest) = JsString.splitHead sep a.
Proof.
  induction a as [|c a IH].
  - change (JsString.splitHead sep (String sep rest) = JsString.splitHead sep "").
    cbn [JsString.splitHead]. by rewrite decide_True.
  - change (JsString.splitHead sep (String c (a +:+ String sep rest))
            = JsString.splitHead sep (String c a)).
    cbn [JsString.splitHead]. by rewrite IH.
Qed.

Lemma splitHead_mapChars (f : ascii → ascii) (sep : ascii) (s : string) :
  (∀ c, f c = sep ↔ c = sep) →
  JsString.splitHead sep (JsString.mapChars f s)
  = JsString.mapChars f (JsString.splitHead sep s).
Proof.
  intros Hf. induction s as [|c s IH]; [reflexivity|].
  cbn [JsString.mapChars JsString.splitHead].
  destruct (decide (f c = sep)) as [Hc|Hc]; destruct (decide (c = sep)) as [Hc'|Hc'].
  - reflexivity.
  - exfalso. apply Hc'. by apply Hf.
  - exfalso. apply Hc. by apply Hf.
  - cbn [JsString.mapChars]. by rewrite IH.
Qed.

Lemma trimStart_mapChars (f : ascii → ascii) (s : string) :
  (∀ c, Ascii.is_space (f c) = Ascii.is_space c) →
  JsString.trimStart (JsString.mapChars f s)
  = JsString.mapChars f (JsString.trimStart s).
Proof.
  intros Hf. induction s as [|c s IH]; [reflexivity|].
  cbn [JsString.mapChars JsString.trimStart]. rewrite Hf.
  by destruct (Ascii.is_space c).
Qed.

Lemma trimEnd_mapChars (f : ascii → ascii) (s : string) :
  (∀ c, Ascii.is_space (f c) = Ascii.is_space c) →
  JsString.trimEnd (JsString.mapChars f s)
  = JsString.mapChars f (JsString.trimEnd s).
Proof.
  intros Hf. induction s as [|c s IH]; [reflexivity|].
  cbn [JsString.mapChars JsString.trimEnd]. rewrite IH, Hf.
  destruct (JsString.trimEnd s); cbn [JsString.mapChars]; [|reflexivity].
  by destruct (Ascii.is_space c).
Qed.

Lemma mapChars_compose (f g : ascii → ascii) (s : string) :
  JsString.mapChars f (JsString.mapChars g s) = JsString.mapChars (λ c, f (g c)) s.
Proof. induction s as [|c s IH]; [reflexivity|]. cbn [JsString.mapChars]. by rewrite IH. Qed.

Lemma mapChars_ext (f g : ascii → ascii) (s : string) :
  (∀ c, f c = g c) → JsString.mapChars f s = JsString.mapChars g s.
Proof.
  intros Hfg. induction s as [|c s IH]; [reflexivity|].
  cbn [JsString.mapChars]. by rewrite Hfg, IH.
Qed.

Lemma char_facts (c : ascii) :
  (JsString.lowerChar c = "("%char ↔ c = "("%char)
  ∧ (JsString.upperChar c = "("%char ↔ c = "("%char)
  ∧ Ascii.is_space (JsString.lowerChar c) = Ascii.is_space c
  ∧ Ascii.is_space (JsString.upperChar c) = Ascii.is_space c
  ∧ JsString.upperChar (JsString.lowerChar c) = JsString.upperChar c
  ∧ JsString.upperChar (JsString.upperChar c) = JsString.upperChar c
  ∧ ((nat_of_ascii c <? 128) = true →
     (nat_of_ascii (JsString.lowerChar c) <? 128) = true
     ∧ (nat_of_ascii (JsString.upperChar c) <? 128) = true).
Proof.
  destruct c as [[] [] [] [] [] [] [] []]; vm_compute; repeat split; congruence.
Qed.

Lemma asciiNormalize_mapChars (f : ascii → ascii) (s : string) :
  (∀ c, f c = "("%char ↔ c = "("%char) →
  (∀ c, Ascii.is_space (f c) = Ascii.is_space c) →
  (∀ c, JsString.upperChar (f c) = JsString.upperChar c) →
  asciiNormalize (JsString.mapChars f s) = asciiNormalize s.
Proof.
  intros Hparen Hspace Hupper. unfold asciiNormalize.
  rewrite splitHead_mapChars, trimStart_mapChars, trimEnd_mapChars by done.
  rewrite mapChars_compose. by apply mapChars_ext.
Qed.

(** On an ASCII type string, the case of its letters is lost in
    [normalize]. *)
Lemma normalize_case (a : string) :
  JsString.isAscii a = true →
  normalize (JsString.toLowerCase a) = normalize a
  ∧ normalize (JsString.toUpperCase a) = normalize a.
Proof.
  intros Hascii.
  rewrite (JsString.toLowerCase_ascii a Hascii), (JsString.toUpperCase_ascii a Hascii).
  assert (Hlower : JsString.isAscii (JsString.mapChars JsString.lowerChar a) = true).
  { apply isAscii_mapChars; [|done]. intros c Hc. by apply (char_facts c). }
  assert (Hupper : JsString.isAscii (JsString.mapChars JsString.upperChar a) = true).
  { apply isAscii_mapChars; [|done]. intros c Hc. by apply (char_facts c). }
  rewrite (normalize_ascii _ Hlower), (normalize_ascii _ Hupper),
    (normalize_ascii _ Hascii).
  split; apply asciiNormalize_mapChars; intros c; apply (char_facts c).
Qed.

End TypeStrings.

(** X16. Compatibility of types is an equivalence: every type is compatible
    with itself, and two types compatible with a third one are compatible
    with each other (the three groups share no type name). *)
Theorem areTypesCompatible_equivalence {unicode : JsString.Unicode} (a b c : string) :
  RelationshipValidator.areTypesCompatible a a = true
  ∧ (RelationshipValidator.areTypesCompatible a b = true →
     RelationshipValidator.areTypesCompatible b c = true →
     RelationshipValidator.areTypesCompatible a c = true).
Proof.
  rewrite !areTypesCompatible_spec. split; [by left|]. apply sameGroup_trans.
Qed.

Section areTypesCompatible_equivalence_example.

#[local] Existing Instance JsString.asciiOnly.

Lemma areTypesCompatible_equivalence_witness :
  RelationshipValidator.areTypesCompatible "int" "Decimal(10,2)" = true.
Proof.
  exact (proj2 (areTypesCompatible_equivalence (unicode := JsString.asciiOnly)
              "int" "BIGINT(20)" "Decimal(10,2)")
               eq_refl eq_refl).
Defined.

End areTypesCompatible_equivalence_example.

(** X17. The auto-increment check and the relationship check agree on what
    a numeric type is: [isNumericType t] holds exactly when [t] is
    compatible with INT, or with any other type of the numeric group. *)
Theorem isNumericType_compatible {unicode : JsString.Unicode} (t n : string) :
  n ∈ RelationshipValidator.numericTypes →
  ValidationEngine.isNumericType t = RelationshipValidator.areTypesCompatible t n.
Proof.
  intros Hn. apply eq_true_iff_eq.
  rewrite isNumericType_spec, areTypesCompatible_spec.
  pose proof numericTypes_normal as Hnormal. rewrite Forall_forall in Hnormal.
  rewrite (Hnormal n Hn). unfold sameGroup.
  destruct (groups_disjoint n) as [Hn1 Hn2]. destruct (Hn1 Hn) as [Hns Hnd].
  split; [tauto|]. intros [->|[?|[?|?]]]; tauto.
Qed.

Section isNumericType_compatible_example.

#[local] Existing Instance JsString.asciiOnly.

Lemma isNumericType_compatible_witness :
  ValidationEngine.isNumericType "decimal(10,2)"
  = RelationshipValidator.areTypesCompatible "decimal(10,2)" "INT".
Proof.
  apply (isNumericType_compatible (unicode := JsString.asciiOnly) "decimal(10,2)" "INT").
  apply (bool_decide_unpack _). vm_compute. exact I.
Defined.

End isNumericType_compatible_example.

(** X18. Type strings are read without their parenthesised arguments:
    appending "(...)" to a type changes neither what it is compatible with
    nor whether it counts as numeric. A type written in ASCII is also read
    without regard to the case of its letters. *)
Theorem type_arguments_and_case_ignored {unicode : JsString.Unicode} (a args b : string) :
  RelationshipValidator.areTypesCompatible (a +:+ "(" +:+ args) b
  = RelationshipValidator.areTypesCompatible a b
  ∧ ValidationEngine.isNumericType (a +:+ "(" +:+ args)
    = ValidationEngine.isNumericType a
  ∧ (JsString.isAscii a = true →
     RelationshipValidator.areTypesCompatible (JsString.toLowerCase a) b
     = RelationshipValidator.areTypesCompatible a b
     ∧ RelationshipValidator.areTypesCompatible (JsString.toUpperCase a) b
       = RelationshipValidator.areTypesCompatible a b
     ∧ ValidationEngine.isNumericType (JsString.toLowerCase a)
       = ValidationEngine.isNumericType a).
Proof.
  assert (Hargs : RelationshipValidator.normalize (a +:+ "(" +:+ args)
                  = RelationshipValidator.normalize a).
  { unfold RelationshipValidator.normalize.
    change ("(" +:+ args) with (String "("%char args).
    by rewrite (splitHead_append "("%char a args). }
  unfold RelationshipValidator.areTypesCompatible, ValidationEngine.isNumericType.
  fold (RelationshipValidator.normalize (a +:+ "(" +:+ args)).
  fold (RelationshipValidator.normalize (JsString.toLowerCase a)).
  fold (RelationshipValidator.normalize (JsString.toUpperCase a)).
  fold (RelationshipValidator.normalize a).
  rewrite Hargs. split; [done|]. split; [done|].
  intros Hascii. destruct (normalize_case a Hascii) as [-> ->]. done.
Qed.

Section type_arguments_and_case_ignored_example.

#[local] Existing Instance JsString.asciiOnly.

Lemma type_arguments_and_case_ignored_witness :
  RelationshipValidator.areTypesCompatible (JsString.toLowerCase "VarChar") "TEXT"
  = RelationshipValidator.areTypesCompatible "VarChar" "TEXT".
Proof.
  exact (proj1 (proj2 (proj2 (type_arguments_and_case_ignored (unicode := JsString.asciiOnly)
              "VarChar" "255)" "TEXT"))
                      eq_refl)).
Defined.

End type_arguments_and_case_ignored_example.

(** ** What a valid schema is *)

Section ValidSchema.

Context {unicode : JsString.Unicode}.

Import ValidationEngine.

Lemma pushIf_nil {A} (c : bool) (x : A) (l : list A) :
  JsArray.pushIf c x l = [] ↔ c = false ∧ l = [].
Proof.
  destruct c; cbn [JsArray.pushIf].
  - split; [by destruct l | by intros [? _]].
  - tauto.
Qed.

Lemma concat_fmap_nil {A B} (f : A → list B) (l : list A) :
  concat (f <$> l) = [] ↔ Forall (λ x, f x = []) l.
Proof.
  induction l as [|x l IH]; [by split; [constructor|]|].
  rewrite fmap_cons. cbn [concat]. rewrite app_nil, IH, Forall_cons. tauto.
Qed.

Lemma concat_imap_nil {A B} (f : nat → A → list B) (l : list A) (i : nat) (x : A) :
  concat (imap f l) = [] → l !! i = Some x → f i x = [].
Proof.
  revert f i. induction l as [|y l IH]; intros f i Hnil Hi; [done|].
  rewrite imap_cons in Hnil. cbn [concat] in Hnil.
  apply app_nil in Hnil as [Hy Hl].
  destruct i as [|i]; cbn in Hi; [by simplify_eq|].
  by apply (IH (f ∘ S) i).
Qed.

(** The column loop of the table pass finds nothing exactly when each column
    is clean and no lower-cased name comes twice or is already in [names]. *)
Lemma validateTables_columns_nil (table : Table.t) (cols : list Column.t)
    (names : gset string) :
  (foldl (validateTables_column table) (names, []) cols).2 = []
  ↔ Forall cleanColumn cols
    ∧ NoDup ((λ c, JsString.toLowerCase (Column.name c)) <$> cols)
    ∧ Forall (λ c, JsString.toLowerCase (Column.name c) ∉ names) cols.
Proof.
  revert names. induction cols as [|c cols IH]; intros names.
  - split; [intros _; repeat split; constructor | done].
  - rewrite (foldl_appending_cons _ _ _ _ (validateTables_column_appending table)).
    rewrite app_nil, IH. unfold validateTables_column at 1 2. cbn [fst snd].
    rewrite !pushIf_nil, fmap_cons, NoDup_cons, !Forall_cons.
    rewrite bool_decide_eq_false, andb_false_iff, negb_false_iff.
    unfold cleanColumn.
    assert (Hseen : Forall (λ c0, JsString.toLowerCase (Column.name c0)
                                  ∉ ({[JsString.toLowerCase (Column.name c)]} ∪ names)) cols
                    ↔ Forall (λ c0, JsString.toLowerCase (Column.name c0) ∉ names) cols
                      ∧ JsString.toLowerCase (Column.name c)
                        ∉ (λ c, JsString.toLowerCase (Column.name c)) <$> cols).
    { rewrite !Forall_forall, list_elem_of_fmap. split.
      - intros H. split.
        + intros x Hx. specialize (H x Hx). set_solver.
        + intros (x & Hx1 & Hx2). specialize (H x Hx2). set_solver.
      - intros [H1 H2] x Hx. specialize (H1 x Hx).
        assert (JsString.toLowerCase (Column.name x)
                ≠ JsString.toLowerCase (Column.name c)).
        { intros Heq. apply H2. exists x. by rewrite Heq. }
        set_solver. }
    rewrite Hseen.
    destruct (Column.primaryKey c), (Column.nullable c), (Column.autoIncrement c),
      (isNumericType (Column.type c)); cbn [andb negb];
      intuition (try discriminate; auto).
Qed.

(** One table in the table pass. *)
Lemma tableErrors_nil (seen : gset string) (t : Table.t) :
  tableErrors seen t = [] ↔ (lowerName t ∉ seen) ∧ cleanTable t.
Proof.
  unfold tableErrors, validateTables_table. cbn [fst snd].
  rewrite (foldl_appending _ (validateTables_column_appending t)). cbn [fst snd].
  rewrite app_nil, !pushIf_nil, validateTables_columns_nil.
  rewrite !bool_decide_eq_false. fold (lowerName t). unfold cleanTable.
  assert (Hpk : length (Table.getPrimaryKeys t) ≠ 0
                ↔ Exists (λ c, Column.primaryKey c = true) (Table.columns t)).
  { unfold Table.getPrimaryKeys.
    induction (Table.columns t) as [|c cols IH]; [by rewrite Exists_nil|].
    rewrite filter_cons, Exists_cons. case_decide; cbn [length]; [|tauto].
    split; [by left | done]. }
  rewrite Hpk.
  assert (Hcols : Exists (λ c, Column.primaryKey c = true) (Table.columns t) →
                  length (Table.columns t) ≠ 0).
  { destruct (Table.columns t); [by intros ?%Exists_nil | done]. }
  assert (Hfresh : Forall (λ c, JsString.toLowerCase (Column.name c) ∉ (∅ : gset string))
                          (Table.columns t)).
  { apply Forall_forall. intros c _. apply not_elem_of_empty. }
  tauto.
Qed.

(** The table loop finds nothing exactly when each table is clean and no
    lower-cased table name comes twice or is already in [seen]. *)
Lemma validateTables_nil (ts : list Table.t) (seen : gset string) :
  (foldl validateTables_table (seen, []) ts).2 = []
  ↔ Forall cleanTable ts
    ∧ NoDup (lowerName <$> ts)
    ∧ Forall (λ t, lowerName t ∉ seen) ts.
Proof.
  revert seen. induction ts as [|t ts IH]; intros seen.
  - split; [intros _; repeat split; constructor | done].
  - cbn [foldl]. rewrite validateTables_table_step.
    rewrite (foldl_appending _ validateTables_table_appending). cbn [snd].
    rewrite app_nil_l, app_nil, IH, tableErrors_nil.
    rewrite fmap_cons, NoDup_cons, !Forall_cons.
    assert (Hseen : Forall (λ u, lowerName u ∉ ({[lowerName t]} ∪ seen)) ts
                    ↔ Forall (λ u, lowerName u ∉ seen) ts
                      ∧ lowerName t ∉ lowerName <$> ts).
    { rewrite !Forall_forall, list_elem_of_fmap. split.
      - intros H. split.
        + intros x Hx. specialize (H x Hx). set_solver.
        + intros (x & Hx1 & Hx2). specialize (H x Hx2). set_solver.
      - intros [H1 H2] x Hx. specialize (H1 x Hx).
        assert (lowerName x ≠ lowerName t).
        { intros Heq. apply H2. exists x. by rewrite Heq. }
        set_solver. }
    rewrite Hseen. tauto.
Qed.

Lemma validateRelationships_errors (schema : Schema.t) :
  ValidationResult.errors (validateRelationships schema)
  = concat ((λ r, ValidationResult.errors (RelationshipValidator.validate r schema))
              <$> JsMap.values (Schema.relationships schema))
  ∧ ValidationResult.warnings (validateRelationships schema)
    = concat ((λ r, ValidationResult.warnings (RelationshipValidator.validate r schema))
                <$> JsMap.values (Schema.relationships schema)).
Proof.
  unfold validateRelationships. rewrite validateRelationships_from. by split.
Qed.

Lemma validate_errors_nil (r : Relationship.t) (schema : Schema.t) :
  ValidationResult.errors (RelationshipValidator.validate r schema) = []
  ↔ ValidationResult.valid (RelationshipValidator.validate r schema) = true.
Proof.
  symmetry. apply validIffNoErrors_iff, validate_validIffNoErrors.
Qed.

Lemma validateSchema_valid_iff (schema : Schema.t) :
  ValidationResult.valid (validateSchema schema) = true
  ↔ Forall cleanTable (JsMap.values (Schema.tables schema))
    ∧ NoDup (lowerName <$> JsMap.values (Schema.tables schema))
    ∧ Forall (λ r, ValidationResult.valid (RelationshipValidator.validate r schema) = true)
             (JsMap.values (Schema.relationships schema)).
Proof.
  rewrite (validIffNoErrors_iff (validateSchema schema)) by reflexivity.
  rewrite validateSchema_errors, app_nil.
  rewrite (proj1 (validateRelationships_errors schema)), concat_fmap_nil.
  unfold validateTables. cbn [ValidationResult.errors].
  rewrite validateTables_nil.
  assert (Hfresh : Forall (λ t, lowerName t ∉ (∅ : gset string))
                          (JsMap.values (Schema.tables schema))).
  { apply Forall_forall. intros t _. apply not_elem_of_empty. }
  assert (Hrels : Forall (λ r, ValidationResult.errors
                                 (RelationshipValidator.validate r schema) = [])
                         (JsMap.values (Schema.relationships schema))
                  ↔ Forall (λ r, ValidationResult.valid
                                   (RelationshipValidator.validate r schema) = true)
                           (JsMap.values (Schema.relationships schema))).
  { apply Forall_iff. intros r. apply validate_errors_nil. }
  tauto.
Qed.

End ValidSchema.

(** X19. The relationship pass is the concatenation, in iteration order, of
    what [validate] returns for each relationship; on a map with distinct
    keys that is what [validateRelationship] returns for each id in turn. *)
Theorem validateRelationships_per_id {unicode : JsString.Unicode} (schema : Schema.t) :
  JsMap.wf (Schema.relationships schema) →
  ValidationResult.errors (ValidationEngine.validateRelationships schema)
  = concat ((λ id, ValidationResult.errors
                     (ValidationEngine.validateRelationship schema id))
              <$> JsMap.keys (Schema.relationships schema))
  ∧ ValidationResult.warnings (ValidationEngine.validateRelationships schema)
    = concat ((λ id, ValidationResult.warnings
                       (ValidationEngine.validateRelationship schema id))
                <$> JsMap.keys (Schema.relationships schema)).
Proof.
  intros Hwf.
  assert (Hid : ∀ e, e ∈ Schema.relationships schema →
            ValidationEngine.validateRelationship schema e.1
            = RelationshipValidator.validate e.2 schema).
  { intros [k r] Hin. cbn [fst snd].
    unfold ValidationEngine.validateRelationship, Schema.getRelationship.
    by rewrite (elem_get _ _ _ Hwf Hin). }
  destruct (validateRelationships_errors schema) as [-> ->].
  unfold JsMap.keys, JsMap.values. rewrite <- !list_fmap_compose.
  split; f_equal; apply list_fmap_ext; intros i e He%list_elem_of_lookup_2;
    cbn; by rewrite Hid.
Qed.

Section validateRelationships_per_id_example.

#[local] Existing Instance JsString.asciiOnly.

Lemma validateRelationships_per_id_witness :
  ValidationResult.errors (ValidationEngine.validateRelationships Fixtures.blog)
  = concat ((λ id, ValidationResult.errors
                     (ValidationEngine.validateRelationship Fixtures.blog id))
              <$> ["fk"]).
Proof.
  apply (validateRelationships_per_id (unicode := JsString.asciiOnly) Fixtures.blog).
  apply (bool_decide_unpack _). vm_compute. exact I.
Defined.

End validateRelationships_per_id_example.

(** X20. A schema that passes whole-schema validation passes the
    single-entity entry points too: [validateTable] is valid for every id
    that resolves to a table, and [validateRelationship] for every id that
    resolves to a relationship. *)
Theorem validateSchema_valid_entities {unicode : JsString.Unicode} (schema : Schema.t) :
  ValidationResult.valid (ValidationEngine.validateSchema schema) = true →
  (∀ id, is_Some (Schema.getTable schema id) →
         ValidationResult.valid (ValidationEngine.validateTable schema id) = true)
  ∧ (∀ id, is_Some (Schema.getRelationship schema id) →
           ValidationResult.valid (ValidationEngine.validateRelationship schema id) = true).
Proof.
  intros (Htables & _ & Hrels)%validateSchema_valid_iff.
  rewrite Forall_forall in Htables. rewrite Forall_forall in Hrels. split.
  - intros id [t Ht].
    apply (validIffNoErrors_iff _ (validateTable_validIffNoErrors schema id)).
    rewrite (validateTable_errors schema id t (∅ : gset string) Ht).
    assert (Hblock : tableErrors ∅ t = []).
    { apply tableErrors_nil. split; [apply not_elem_of_empty|].
      apply Htables. apply get_Some_elem in Ht.
      by apply (list_elem_of_fmap_2 snd _ (id, t)). }
    by rewrite Hblock.
  - intros id [r Hr]. unfold ValidationEngine.validateRelationship. rewrite Hr.
    apply Hrels. apply get_Some_elem in Hr.
    by apply (list_elem_of_fmap_2 snd _ (id, r)).
Qed.

Section validateSchema_valid_entities_example.

#[local] Existing Instance JsString.asciiOnly.

Lemma validateSchema_valid_entities_witness :
  ValidationResult.valid (ValidationEngine.validateTable Fixtures.validBlog "p") = true.
Proof.
  apply (proj1 (validateSchema_valid_entities (unicode := JsString.asciiOnly)
              Fixtures.validBlog eq_refl)).
  by eexists.
Defined.

End validateSchema_valid_entities_example.

(** X21. A schema passes whole-schema validation exactly when no two tables
    share a lower-cased name; every table has a non-blank name, a primary-key
    column and no two columns sharing a lower-cased name; every column has a
    non-blank name and type, is not a nullable primary key and is numeric if
    it auto-increments; and every relationship passes [validate]. Warnings,
    cycles and orphan tables among them, never make a schema invalid. *)
Theorem validateSchema_valid_exactly {unicode : JsString.Unicode} (schema : Schema.t) :
  ValidationResult.valid (ValidationEngine.validateSchema schema) = true
  ↔ NoDup ((λ t, JsString.toLowerCase (Table.name t))
             <$> JsMap.values (Schema.tables schema))
    ∧ Forall cleanTable (JsMap.values (Schema.tables schema))
    ∧ Forall (λ r, ValidationResult.valid
                     (RelationshipValidator.validate r schema) = true)
             (JsMap.values (Schema.relationships schema)).
Proof. rewrite validateSchema_valid_iff. unfold lowerName. tauto. Qed.

(** ** Which schemas get a CIRCULAR_DEPENDENCY warning *)

Section CycleDetection.

Context {unicode : JsString.Unicode}.

Import ValidationEngine.

Context (schema : Schema.t).

Lemma forM_prefix {A S} (J : list A → S → Prop) (f : A → S → option S) (l : list A) :
(∀ pre a s s', J pre s → f a s = Some s' → J (pre ++ [a]) s') →
∀ pre st st', J pre st → forM f l st = Some st' → J (pre ++ l) st'.
Proof.
intros Hstep. induction l as [|a l IH]; intros pre st st' Hst Hrun; cbn [forM] in Hrun.
- rewrite app_nil_r. by simplify_eq.
- destruct (f a st) as [st1|] eqn:Hf; cbn in Hrun; [|done].
  rewrite cons_middle, app_assoc. eapply IH; [|exact Hrun]. by eapply Hstep.
Qed.

Lemma edge_relationship (a b : string) :
edge schema a b
↔ ∃ rel, rel ∈ JsMap.values (Schema.relationships schema)
         ∧ Relationship.sourceTableId rel = a ∧ Relationship.targetTableId rel = b.
Proof. unfold edge. by rewrite Exists_exists. Qed.

Lemma settled_rtc (st : Dfs) (a b : string) :
settled schema st → a ∈ finished st → rtc (edge schema) a b → b ∈ finished st.
Proof. intros [Hclosed _] Ha Hab. induction Hab; eauto. Qed.

Lemma chain_rtc (rest : list string) :
∀ a z, chain schema (a :: rest) → last (a :: rest) = Some z → rtc (edge schema) a z.
Proof.
induction rest as [|b rest IH]; intros a z Hchain Hlast.
- cbn in Hlast. simplify_eq. reflexivity.
- destruct Hchain as [Hab Hchain]. eapply rtc_l; [exact Hab|]. by apply IH.
Qed.

(** A call of [hasCycle] that reports nothing leaves its table, and keeps
  what holds of the tables left before. *)
Lemma hasCycle_quiet (fuel : nat) :
∀ tableId path st b st',
  hasCycle fuel schema tableId path st = Some (b, st') →
  found st' = [] →
  found st = []
  ∧ (settled schema st →
     settled schema st'
     ∧ tableId ∈ finished st'
     ∧ recursionStack st' = recursionStack st
     ∧ visited st ⊆ visited st').
Proof.
induction fuel as [|fuel IH]; intros tableId path st b st' Hrun Hquiet; [done|].
rewrite hasCycle_S in Hrun.
case_bool_decide as Hrev; [|case_bool_decide as Hseen].
- simplify_eq. cbn in Hquiet. by destruct (found st).
- simplify_eq. split; [done|]. intros Hst. unfold finished. set_solver.
- match type of Hrun with
  | context [forM ?f ?l ?s] => destruct (forM f l s) as [st2|] eqn:Hloop
  end; cbn in Hrun; [|done].
  simplify_eq. cbn in Hquiet.
  set (J := λ (pre : list Relationship.t) (s : Dfs),
         found s = [] →
         found st = []
         ∧ (settled schema st →
            settled schema s
            ∧ recursionStack s = {[tableId]} ∪ recursionStack st
            ∧ {[tableId]} ∪ visited st ⊆ visited s
            ∧ ∀ rel, rel ∈ pre → Relationship.sourceTableId rel = tableId →
                     Relationship.targetTableId rel ∈ finished s)).
  eapply (forM_prefix J) with (pre := []) in Hloop.
  + rewrite app_nil_l in Hloop. destruct (Hloop Hquiet) as [Hfound Hpost].
    split; [done|]. intros Hst.
    destruct (Hpost Hst) as ([Hclosed Hacyclic] & Hstack & Hvis & Htargets).
    assert (Hfin : ∀ a, a ∈ finished {| visited := visited st2;
                                         recursionStack := recursionStack st2 ∖ {[tableId]};
                                         found := found st2 |}
                        ↔ a ∈ finished st2 ∨ a = tableId).
    { intros a. unfold finished. cbn. rewrite Hstack.
      destruct (decide (a = tableId)) as [->|]; set_solver. }
    assert (Hsucc : ∀ b, edge schema tableId b → b ∈ finished st2).
    { intros c (rel & Hrel & Hsrc & <-)%edge_relationship. by apply Htargets. }
    assert (Hself : tableId ∉ finished st2).
    { unfold finished. rewrite Hstack. set_solver. }
    split; [split|split; [|split]].
    * intros a c [Ha| ->]%Hfin Hac; apply Hfin; left; eauto.
    * intros a [Ha| ->]%Hfin; [by apply Hacyclic|].
      intros Hcycle. apply Hself. unfold cyclic in Hcycle.
      assert (∃ c, edge schema tableId c ∧ rtc (edge schema) c tableId)
        as (c & Hc & Hback).
      { inversion Hcycle as [? ? Hedge|? c ? Hedge Hrest]; simplify_eq.
        - by exists tableId.
        - exists c. split; [done|]. by apply tc_rtc. }
      apply (settled_rtc st2 c tableId); [by split | by apply Hsucc | done].
    * apply Hfin. by right.
    * cbn. rewrite Hstack. set_solver.
    * cbn. set_solver.
  + clear Hloop. intros pre rel s s' HJ Hstep Hquiet'. cbv beta in Hstep.
    destruct (JsString.eqb (Relationship.sourceTableId rel) tableId) eqn:Hsrc.
    * destruct (hasCycle fuel schema _ _ s) as [[b' s1]|] eqn:Hcall;
        cbn in Hstep; [|done].
      simplify_eq.
      destruct (IH _ _ _ _ _ Hcall Hquiet') as [Hfound Hpost].
      destruct (HJ Hfound) as [Hfound0 Hpre]. split; [done|]. intros Hst.
      destruct (Hpre Hst) as (Hs & Hstack & Hvis & Htargets).
      destruct (Hpost Hs) as (Hs' & Htarget & Hstack' & Hvis').
      split; [done|]. split; [congruence|]. split; [set_solver|].
      intros rel' [Hrel'| ->%list_elem_of_singleton]%elem_of_app Hsrc'; [|done].
      specialize (Htargets rel' Hrel' Hsrc'). revert Htargets.
      unfold finished. rewrite Hstack'. set_solver.
    * simplify_eq. destruct (HJ Hquiet') as [Hfound0 Hpre].
      split; [done|]. intros Hst.
      destruct (Hpre Hst) as (Hs & Hstack & Hvis & Htargets).
      split; [done|]. split; [done|]. split; [done|].
      intros rel' [Hrel'| ->%list_elem_of_singleton]%elem_of_app Hsrc'; [by auto|].
      apply bool_decide_eq_false in Hsrc. done.
  + intros Hfound. split; [exact Hfound|]. intros [Hclosed Hacyclic].
    assert (Hfin : ∀ a, a ∈ finished {| visited := {[tableId]} ∪ visited st;
                                         recursionStack := {[tableId]} ∪ recursionStack st;
                                         found := found st |}
                        ↔ a ∈ finished st).
    { intros a. unfold finished. cbn. set_solver. }
    split; [split|].
    * intros a c Ha%Hfin Hac. apply Hfin. eauto.
    * intros a Ha%Hfin. by apply Hacyclic.
    * split; [done|]. split; [done|]. by intros rel Hrel%elem_of_nil.
Qed.

(** Every warning is reported on a table that can be reached from a key of
  the table map. *)
Lemma hasCycle_reportedFromTable (fuel : nat) :
∀ tableId path st b st',
  fromTable schema tableId →
  Forall (reportedFromTable schema) (found st) →
  hasCycle fuel schema tableId path st = Some (b, st') →
  Forall (reportedFromTable schema) (found st').
Proof.
induction fuel as [|fuel IH]; intros tableId path st b st' Hfrom Hst Hrun; [done|].
rewrite hasCycle_S in Hrun.
case_bool_decide as Hrev; [|case_bool_decide as Hseen].
- simplify_eq. cbn. apply Forall_app. split; [done|].
  constructor; [|constructor]. by exists tableId.
- by simplify_eq.
- match type of Hrun with
  | context [forM ?f ?l ?s] => destruct (forM f l s) as [st2|] eqn:Hloop
  end; cbn in Hrun; [|done].
  simplify_eq. cbn.
  eapply (forM_preserves (λ s, Forall (reportedFromTable schema) (found s)));
    [| |exact Hloop]; [|done].
  intros rel s s' Hrel Hs Hstep. cbv beta in Hstep.
  destruct (JsString.eqb (Relationship.sourceTableId rel) tableId) eqn:Hsrc;
    [|by simplify_eq].
  destruct (hasCycle fuel schema _ _ s) as [[b' s1]|] eqn:Hcall; cbn in Hstep; [|done].
  simplify_eq. eapply IH; [|exact Hs|exact Hcall].
  apply bool_decide_eq_true in Hsrc.
  destruct Hfrom as (k & Hk & Hreach). exists k. split; [done|].
  eapply rtc_r; [exact Hreach|]. apply edge_relationship. by exists rel.
Qed.

Lemma circularWarnings_reportedFromTable (fuel : nat) (ws : list ValidationWarning.t) :
circularWarnings fuel schema = Some ws → Forall (reportedFromTable schema) ws.
Proof.
unfold circularWarnings.
match goal with
| |- context [forM ?f ?l ?s] => destruct (forM f l s) as [st2|] eqn:Hloop
end; cbn; [|done].
intros [= <-].
eapply (forM_preserves (λ s, Forall (reportedFromTable schema) (found s)));
  [| |exact Hloop]; [|constructor].
intros k s s' Hk Hs Hstep. cbv beta in Hstep. case_bool_decide; [by simplify_eq|].
destruct (hasCycle fuel schema _ _ s) as [[b' s1]|] eqn:Hcall; cbn in Hstep; [|done].
simplify_eq. eapply hasCycle_reportedFromTable; [|exact Hs|exact Hcall].
by exists k.
Qed.

(** A pass that reports nothing has left every table that can be reached
  from a key of the table map, and none of them lies on a cycle. *)
Lemma circularWarnings_quiet (fuel : nat) (c : string) :
circularWarnings fuel schema = Some [] → fromTable schema c → ¬ cyclic schema c.
Proof.
unfold circularWarnings.
match goal with
| |- context [forM ?f ?l ?s] => destruct (forM f l s) as [st2|] eqn:Hloop
end; cbn; [|done].
intros [= Hquiet] (k & Hk & Hreach).
set (K := λ (pre : list string) (s : Dfs),
       found s = [] →
       settled schema s ∧ recursionStack s = ∅ ∧ ∀ k, k ∈ pre → k ∈ visited s).
eapply (forM_prefix K) with (pre := []) in Hloop.
- rewrite app_nil_l in Hloop. destruct (Hloop Hquiet) as (Hst & Hstack & Hkeys).
  assert (Hkfin : k ∈ finished st2).
  { unfold finished. rewrite Hstack. specialize (Hkeys k Hk). set_solver. }
  destruct Hst as [Hclosed Hacyclic]. apply Hacyclic.
  by eapply (settled_rtc st2 k c).
- clear Hloop. intros pre k' s s' HK Hstep Hquiet'. cbv beta in Hstep.
  case_bool_decide as Hseen.
  + simplify_eq. destruct (HK Hquiet') as (Hs & Hstack & Hkeys).
    split; [done|]. split; [done|].
    intros x [Hx| ->%list_elem_of_singleton]%elem_of_app; auto.
  + destruct (hasCycle fuel schema _ _ s) as [[b' s1]|] eqn:Hcall; cbn in Hstep; [|done].
    simplify_eq.
    destruct (hasCycle_quiet _ _ _ _ _ _ Hcall Hquiet') as [Hfound Hpost].
    destruct (HK Hfound) as (Hs & Hstack & Hkeys).
    destruct (Hpost Hs) as (Hs' & Hk' & Hstack' & Hvis').
    split; [done|]. split; [congruence|].
    intros x [Hx| ->%list_elem_of_singleton]%elem_of_app.
    * specialize (Hkeys x Hx). set_solver.
    * revert Hk'. unfold finished. set_solver.
- intros _. split; [|split; [done|by intros x Hx%elem_of_nil]].
  split; intros a; unfold finished; cbn; set_solver.
Qed.

Lemma reportsCycle_cyclic (w : ValidationWarning.t) :
reportsCycle schema w → reportedFromTable schema w →
ValidationWarning.code w = "CIRCULAR_DEPENDENCY"
∧ ∃ c, fromTable schema c ∧ cyclic schema c.
Proof.
intros (tableId & rest & closing & -> & _ & Hchain & Hlast & Hclose) (t & Hfield & Hfrom).
split; [done|]. cbn in Hfield. simplify_eq. exists t. split; [done|].
unfold cyclic. eapply tc_rtc_l; [by eapply chain_rtc|]. by apply tc_once.
Qed.

Lemma checkCircularDependencies_quiet (c : string) :
ValidationResult.warnings (checkCircularDependencies schema) = [] →
fromTable schema c → ¬ cyclic schema c.
Proof.
destruct (checkCircularDependencies_total schema) as (ws & Hrun & Hws & _).
specialize (Hrun _ (le_n _)). rewrite Hws. intros ->.
by apply (circularWarnings_quiet (dfsFuel schema)).
Qed.

Lemma checkCircularDependencies_reports (w : ValidationWarning.t) :
w ∈ ValidationResult.warnings (checkCircularDependencies schema) →
ValidationWarning.code w = "CIRCULAR_DEPENDENCY"
∧ ∃ c, fromTable schema c ∧ cyclic schema c.
Proof.
destruct (checkCircularDependencies_total schema) as (ws & Hrun & Hws & Hcycles).
specialize (Hrun _ (le_n _)). rewrite Hws. intros Hw.
pose proof (circularWarnings_reportedFromTable _ _ Hrun) as Hfrom.
rewrite Forall_forall in Hcycles. rewrite Forall_forall in Hfrom.
apply reportsCycle_cyclic; auto.
Qed.

End CycleDetection.

(** X22. Whole-schema validation carries a CIRCULAR_DEPENDENCY warning
    exactly when the relationship graph has a cycle that can be reached,
    along relationships, from a key of the table map. In particular a cycle
    through a table of the schema is always reported, and a schema whose
    relationships form no cycle gets no such warning. *)
Theorem circular_warning_iff_cycle {unicode : JsString.Unicode} (schema : Schema.t) :
  Exists (hasWarningCode "CIRCULAR_DEPENDENCY")
         (ValidationResult.warnings (ValidationEngine.validateSchema schema))
  ↔ ∃ c, fromTable schema c ∧ cyclic schema c.
Proof.
  rewrite validateSchema_warnings, !Exists_app.
  assert (Hrel : ¬ Exists (hasWarningCode "CIRCULAR_DEPENDENCY")
                   (ValidationResult.warnings
                      (ValidationEngine.validateRelationships schema))).
  { intros (w & Hw & Hcode)%Exists_exists.
    pose proof (validateRelationships_warning_codes schema) as Hcodes.
    rewrite Forall_forall in Hcodes. specialize (Hcodes w Hw).
    unfold hasWarningCode in Hcode. rewrite Hcode in Hcodes.
    revert Hcodes. apply (bool_decide_unpack _). vm_compute. exact I. }
  assert (Horph : ¬ Exists (hasWarningCode "CIRCULAR_DEPENDENCY")
                    (ValidationResult.warnings
                       (ValidationEngine.checkOrphanTables schema))).
  { rewrite checkOrphanTables_warnings. case_bool_decide; [|by intros ?%Exists_nil].
    intros (w & (t & -> & _)%list_elem_of_fmap & Hcode)%Exists_exists.
    discriminate Hcode. }
  split.
  - intros [?|[(w & Hw & _)%Exists_exists|?]]; [done| |done].
    by destruct (checkCircularDependencies_reports schema w Hw) as [_ ?].
  - intros (c & Hfrom & Hcycle). right. left.
    destruct (ValidationResult.warnings
                (ValidationEngine.checkCircularDependencies schema))
      as [|w ws] eqn:Hws.
    + by destruct (checkCircularDependencies_quiet schema c Hws Hfrom).
    + apply Exists_cons. left.
      apply (checkCircularDependencies_reports schema w). rewrite Hws. by left.
Qed.

(** ** Rectangles and dirty regions *)

Section DirtyRegions.

Import DirtyRegionManager.

Lemma mergeRegions_cases (regions : list Geometry.Rect) :
regions ≠ [] → ∃ r, mergeRegions regions = [r].
Proof.
destruct regions as [|r [|r' regions]]; [done| |]; intros _; eexists; reflexivity.
Qed.

Lemma addRegion_full (region : option Geometry.Rect) (m : t) :
fullRedraw m = true → regions m = [] → addRegion region m = m.
Proof.
destruct m as [rs full]. cbn. intros -> ->. by destruct region.
Qed.

End DirtyRegions.

(** X23. Whether two rectangles intersect does not depend on their order,
    whatever numbers (NaN and the infinities included) their sides are. *)
Theorem rectsIntersect_symmetric (a b : Geometry.Rect) :
  Geometry.rectsIntersect a b = Geometry.rectsIntersect b a.
Proof.
  unfold Geometry.rectsIntersect.
  destruct (PrimFloat.ltb _ (Geometry.x b)), (PrimFloat.ltb _ (Geometry.x a)),
    (PrimFloat.ltb _ (Geometry.y b)), (PrimFloat.ltb _ (Geometry.y a)); reflexivity.
Qed.

(** X24. In every state of the dirty-region manager, [isDirty] holds exactly
    when [getRegions] returns something, [getRegions] returns at most one
    rectangle, and a region can only be dirty when the manager is. *)
Theorem dirty_regions_agree (m : DirtyRegionManager.t) :
  (DirtyRegionManager.isDirty m = true ↔ DirtyRegionManager.getRegions m ≠ [])
  ∧ length (DirtyRegionManager.getRegions m) ≤ 1
  ∧ ∀ region, DirtyRegionManager.isRegionDirty region m = true →
              DirtyRegionManager.isDirty m = true.
Proof.
  unfold DirtyRegionManager.isDirty, DirtyRegionManager.getRegions,
    DirtyRegionManager.isRegionDirty.
  destruct (DirtyRegionManager.fullRedraw m); cbn [orb].
  - split; [done|]. split; [cbn; lia | done].
  - destruct (DirtyRegionManager.regions m) as [|r rs] eqn:Hregions.
    + rewrite (bool_decide_eq_true_2 (length [] = 0)) by done.
      rewrite (bool_decide_eq_false_2 (0 < length [])) by (cbn; lia).
      split; [done|]. split; [cbn; lia | done].
    + destruct (mergeRegions_cases (r :: rs)) as [r' Hmerge]; [done|].
      rewrite (bool_decide_eq_false_2 (length (r :: rs) = 0)) by done.
      rewrite (bool_decide_eq_true_2 (0 < length (r :: rs))) by (cbn; lia).
      rewrite Hmerge. split; [done|]. split; [cbn; lia | done].
Qed.

(** X25. A request for a full redraw absorbs what comes before and after it:
    until the manager is cleared, further regions are dropped, every region
    is dirty and [getRegions] is the single unbounded rectangle. Short of a
    full redraw, adding a region keeps dirty what was dirty and makes dirty
    what intersects the new region. *)
Theorem full_redraw_absorbs (m : DirtyRegionManager.t)
    (added : list (option Geometry.Rect)) :
  let m' := foldl (λ m region, DirtyRegionManager.addRegion region m)
                  (DirtyRegionManager.addRegion None m) added in
  m' = DirtyRegionManager.addRegion None m
  ∧ DirtyRegionManager.getRegions m' = [DirtyRegionManager.everything]
  ∧ (∀ region, DirtyRegionManager.isRegionDirty region m' = true)
  ∧ (∀ region dirty,
       DirtyRegionManager.isRegionDirty region
         (DirtyRegionManager.addRegion (Some dirty) m)
       = DirtyRegionManager.isRegionDirty region m
         || (negb (DirtyRegionManager.fullRedraw m)
             && Geometry.rectsIntersect region dirty)).
Proof.
  cbv zeta.
  assert (Habsorb : foldl (λ m region, DirtyRegionManager.addRegion region m)
                          (DirtyRegionManager.addRegion None m) added
                    = DirtyRegionManager.addRegion None m).
  { cbn [DirtyRegionManager.addRegion].
    induction added as [|region added IH]; [done|].
    cbn [foldl]. by rewrite addRegion_full. }
  rewrite Habsorb. split; [done|]. split; [done|]. split; [done|].
  intros region dirty.
  unfold DirtyRegionManager.isRegionDirty, DirtyRegionManager.addRegion.
  destruct (DirtyRegionManager.fullRedraw m) eqn:Hfull; [by rewrite Hfull|].
  cbn [DirtyRegionManager.fullRedraw DirtyRegionManager.regions negb andb].
  rewrite existsb_app. cbn [existsb]. by rewrite orb_false_r.
Qed.

(** ** Key columns of a table *)

Lemma filter_comm {A} (P Q : A → Prop) `{!∀ x, Decision (P x)} `{!∀ x, Decision (Q x)}
    (l : list A) :
  filter P (filter Q l) = filter Q (filter P l).
Proof.
  rewrite !list_filter_filter. apply list_filter_iff. intros x. tauto.
Qed.

(** X26. [getPrimaryKeys] and [getForeignKeys] follow the column list:
    removing a column removes it from both and leaves the rest in place, and
    adding a column puts it at the end of the list of each flag it has. *)
Theorem key_columns_follow_columns (table : Table.t) (column : Column.t)
    (columnId : string) :
  Table.getPrimaryKeys (Table.removeColumn columnId table)
  = filter (λ c, Column.id c ≠ columnId) (Table.getPrimaryKeys table)
  ∧ Table.getForeignKeys (Table.removeColumn columnId table)
    = filter (λ c, Column.id c ≠ columnId) (Table.getForeignKeys table)
  ∧ Table.getPrimaryKeys (Table.addColumn column table)
    = Table.getPrimaryKeys table ++ (if Column.primaryKey column then [column] else [])
  ∧ Table.getForeignKeys (Table.addColumn column table)
    = Table.getForeignKeys table ++ (if Column.foreignKey column then [column] else []).
Proof.
  unfold Table.getPrimaryKeys, Table.getForeignKeys, Table.removeColumn, Table.addColumn.
  cbn [Table.columns]. repeat split.
  - apply filter_comm.
  - apply filter_comm.
  - rewrite filter_app. f_equal. rewrite filter_cons, filter_nil.
    by destruct (Column.primaryKey column).
  - rewrite filter_app. f_equal. rewrite filter_cons, filter_nil.
    by destruct (Column.foreignKey column).
Qed.

(** ** Validity under the mutations of the schema *)

Section ValidityUnderMutation.

Context {unicode : JsString.Unicode}.

Import ValidationEngine.

(** [validate] reads the schema through the two table lookups only. *)
Lemma validate_ext (r : Relationship.t) (s s' : Schema.t) :
Schema.getTable s (Relationship.sourceTableId r)
= Schema.getTable s' (Relationship.sourceTableId r) →
Schema.getTable s (Relationship.targetTableId r)
= Schema.getTable s' (Relationship.targetTableId r) →
RelationshipValidator.validate r s = RelationshipValidator.validate r s'.
Proof.
intros Hsource Htarget. unfold RelationshipValidator.validate.
by rewrite Hsource, Htarget.
Qed.

Lemma valid_resolves (r : Relationship.t) (s : Schema.t) :
ValidationResult.valid (RelationshipValidator.validate r s) = true →
is_Some (Schema.getTable s (Relationship.sourceTableId r))
∧ is_Some (Schema.getTable s (Relationship.targetTableId r)).
Proof.
intros Hvalid.
destruct (endpoints r s) as [e|] eqn:Hends.
- unfold endpoints in Hends.
  destruct (Schema.getTable s (Relationship.sourceTableId r)); [|done].
  destruct (Schema.getTable s (Relationship.targetTableId r)); [|done].
  by split.
- apply endpoints_None in Hends as [Hinvalid _]. congruence.
Qed.

Lemma getTable_removeTable (id k : string) (s : Schema.t) :
Schema.getTable (Schema.removeTable id s) k
= if decide (k = id) then None else Schema.getTable s k.
Proof. apply get_delete. Qed.

Lemma values_delete {V} (k : string) (m : JsMap.t V) :
JsMap.values (JsMap.delete k m) `sublist_of` JsMap.values m.
Proof.
unfold JsMap.values, JsMap.delete. apply fmap_sublist, sublist_filter.
Qed.

End ValidityUnderMutation.

(** X27. Adding a table keeps a valid schema valid when the table is filed
    under an unused id, no table of the schema has its name up to letter
    case, and the table itself is in order: non-blank name, a primary key,
    columns with distinct names that pass the column checks. *)
Theorem addTable_keeps_valid {unicode : JsString.Unicode} (table : Table.t) (schema : Schema.t) :
  ValidationResult.valid (ValidationEngine.validateSchema schema) = true →
  Schema.getTable schema (Table.id table) = None →
  cleanTable table →
  lowerName table ∉ lowerName <$> JsMap.values (Schema.tables schema) →
  ValidationResult.valid
    (ValidationEngine.validateSchema (Schema.addTable table schema)) = true.
Proof.
  intros (Htables & Hnames & Hrels)%validateSchema_valid_iff Hfresh Hclean Hname.
  apply validateSchema_valid_iff.
  assert (Hvalues : JsMap.values (Schema.tables (Schema.addTable table schema))
                    = JsMap.values (Schema.tables schema) ++ [table]).
  { cbn [Schema.addTable Schema.tables]. rewrite set_fresh.
    - unfold JsMap.values. by rewrite fmap_app.
    - by apply get_None. }
  rewrite Hvalues. split; [|split].
  - apply Forall_app. split; [done|]. by constructor.
  - rewrite fmap_app. apply NoDup_app. split; [done|]. split.
    + intros x Hx ->%list_elem_of_singleton. done.
    + apply NoDup_singleton.
  - cbn [Schema.addTable Schema.relationships].
    eapply Forall_impl; [exact Hrels|]. intros r Hvalid. cbv beta in Hvalid.
    destruct (valid_resolves r schema Hvalid) as [[st Hst] [tt Htt]].
    rewrite (validate_ext r (Schema.addTable table schema) schema); [done| |].
    + rewrite getTable_addTable. case_decide as Heq; [|done]. congruence.
    + rewrite getTable_addTable. case_decide as Heq; [|done]. congruence.
Qed.

Section addTable_keeps_valid_example.

#[local] Existing Instance JsString.asciiOnly.

Lemma addTable_keeps_valid_witness :
  ValidationResult.valid
    (ValidationEngine.validateSchema
       (Schema.addTable (Fixtures.table "c" "comments"
                           [Fixtures.column "c_id" "id" "INT" true false false])
                        Fixtures.validBlog)) = true.
Proof.
  apply (addTable_keeps_valid
           (Fixtures.table "c" "comments"
              [Fixtures.column "c_id" "id" "INT" true false false])
           Fixtures.validBlog).
  - reflexivity.
  - reflexivity.
  - unfold cleanTable, cleanColumn. cbn.
    split; [reflexivity|]. split; [by left|]. split.
    + apply NoDup_singleton.
    + constructor; [|constructor]. repeat split; try reflexivity.
      intros [_ ?]. discriminate.
  - apply (bool_decide_unpack _). vm_compute. exact I.
Defined.

End addTable_keeps_valid_example.

(** X28. Removing a table or a relationship never makes a valid schema
    invalid: [removeTable] takes with the table every relationship that
    names it, so no relationship is left without its tables. *)
Theorem removal_keeps_valid {unicode : JsString.Unicode} (schema : Schema.t) (id : string) :
  JsMap.wf (Schema.relationships schema) →
  ValidationResult.valid (ValidationEngine.validateSchema schema) = true →
  ValidationResult.valid
    (ValidationEngine.validateSchema (Schema.removeTable id schema)) = true
  ∧ ValidationResult.valid
      (ValidationEngine.validateSchema (Schema.removeRelationship id schema)) = true.
Proof.
  intros Hwf (Htables & Hnames & Hrels)%validateSchema_valid_iff.
  split; apply validateSchema_valid_iff.
  - assert (Hsub : JsMap.values (Schema.tables (Schema.removeTable id schema))
                   `sublist_of` JsMap.values (Schema.tables schema))
      by apply values_delete.
    split; [|split].
    + rewrite Forall_forall in Htables |- *. intros t Ht. apply Htables.
      by eapply elem_of_sublist.
    + eapply sublist_NoDup; [exact Hnames|]. by apply fmap_sublist.
    + rewrite removeTable_relationships by done.
      unfold JsMap.values. apply Forall_fmap, Forall_forall.
      intros [k r] [Huntouched Hin]%list_elem_of_filter.
      unfold compose. cbn [snd] in *.
      rewrite Forall_forall in Hrels.
      assert (Hvalid : ValidationResult.valid
                         (RelationshipValidator.validate r schema) = true).
      { apply Hrels. by apply (list_elem_of_fmap_2 snd _ (k, r)). }
      rewrite (validate_ext r (Schema.removeTable id schema) schema); [done| |].
      * rewrite getTable_removeTable. case_decide as Heq; [|done].
        exfalso. apply Huntouched. by left.
      * rewrite getTable_removeTable. case_decide as Heq; [|done].
        exfalso. apply Huntouched. by right.
  - split; [done|]. split; [done|].
    assert (Hsub : JsMap.values (Schema.relationships
                                   (Schema.removeRelationship id schema))
                   `sublist_of` JsMap.values (Schema.relationships schema))
      by apply values_delete.
    rewrite Forall_forall in Hrels |- *. intros r Hr.
    rewrite (validate_ext r (Schema.removeRelationship id schema) schema) by done.
    apply Hrels. by eapply elem_of_sublist.
Qed.

Section removal_keeps_valid_example.

#[local] Existing Instance JsString.asciiOnly.

Lemma removal_keeps_valid_witness :
  ValidationResult.valid
    (ValidationEngine.validateSchema (Schema.removeTable "u" Fixtures.validBlog)) = true.
Proof.
  refine (proj1 (removal_keeps_valid (unicode := JsString.asciiOnly)
                   Fixtures.validBlog "u" _ eq_refl)).
  apply (bool_decide_unpack _). vm_compute. exact I.
Defined.

End removal_keeps_valid_example.

(** ** Rectangles with NaN sides *)

Section NaN.

Import Floats.

Lemma is_nan_spec (a : float) : PrimFloat.is_nan a = true → Prim2SF a = S754_nan.
Proof.
unfold PrimFloat.is_nan. rewrite eqb_spec. unfold SFeqb.
destruct (Prim2SF a) as [s|s| |s m e]; cbn [SFcompare]; try done.
- by destruct s.
- rewrite Z.compare_refl, Pos.compare_cont_refl. by destruct s.
Qed.

Lemma SFcompare_nan_r (f : spec_float) : SFcompare f S754_nan = None.
Proof. by destruct f. Qed.

Lemma leb_nan (a b : float) :
PrimFloat.is_nan a = true ∨ PrimFloat.is_nan b = true → PrimFloat.leb a b = false.
Proof.
rewrite leb_spec. unfold SFleb.
intros [->%is_nan_spec| ->%is_nan_spec]; [done|]. by rewrite SFcompare_nan_r.
Qed.

Lemma ltb_nan (a b : float) :
PrimFloat.is_nan a = true ∨ PrimFloat.is_nan b = true → PrimFloat.ltb a b = false.
Proof.
rewrite ltb_spec. unfold SFltb.
intros [->%is_nan_spec| ->%is_nan_spec]; [done|]. by rewrite SFcompare_nan_r.
Qed.

Lemma is_nan_complete (a : float) : Prim2SF a = S754_nan → PrimFloat.is_nan a = true.
Proof. unfold PrimFloat.is_nan. rewrite eqb_spec. by intros ->. Qed.

Lemma add_nan (a b : float) :
PrimFloat.is_nan a = true ∨ PrimFloat.is_nan b = true →
PrimFloat.is_nan (a + b) = true.
Proof.
intros Hnan. apply is_nan_complete. rewrite add_spec. unfold SF64add, SFadd.
destruct Hnan as [->%is_nan_spec| ->%is_nan_spec]; [done|].
by destruct (Prim2SF a) as [s|s| |s m e].
Qed.

End NaN.

(** X29. NaN at the edges: a rectangle contains no point as soon as one of
    the six numbers involved is NaN, whereas a rectangle whose [x] and [y]
    are NaN intersects every rectangle, so that [isRegionDirty] holds of it
    whenever the manager has a region at all. *)
Theorem nan_contains_nothing_intersects_all (rect : Geometry.Rect)
    (point : Geometry.Point) :
  (PrimFloat.is_nan (Geometry.px point) = true
   ∨ PrimFloat.is_nan (Geometry.py point) = true
   ∨ PrimFloat.is_nan (Geometry.x rect) = true
   ∨ PrimFloat.is_nan (Geometry.y rect) = true
   ∨ PrimFloat.is_nan (Geometry.width rect) = true
   ∨ PrimFloat.is_nan (Geometry.height rect) = true →
   Geometry.rectContainsPoint rect point = false)
  ∧ (PrimFloat.is_nan (Geometry.x rect) = true →
     PrimFloat.is_nan (Geometry.y rect) = true →
     (∀ other, Geometry.rectsIntersect rect other = true)
     ∧ ∀ m, DirtyRegionManager.regions m ≠ [] →
            DirtyRegionManager.isRegionDirty rect m = true).
Proof.
  split.
  - unfold Geometry.rectContainsPoint, Geometry.geb.
    intros [Hnan|[Hnan|[Hnan|[Hnan|[Hnan|Hnan]]]]].
    + rewrite (leb_nan (Geometry.x rect) (Geometry.px point)) by auto. done.
    + rewrite (leb_nan (Geometry.y rect) (Geometry.py point)) by auto.
      by rewrite andb_false_r.
    + rewrite (leb_nan (Geometry.x rect) (Geometry.px point)) by auto. done.
    + rewrite (leb_nan (Geometry.y rect) (Geometry.py point)) by auto.
      by rewrite andb_false_r.
    + rewrite (leb_nan (Geometry.px point)) by (right; apply add_nan; auto).
      by rewrite andb_false_r.
    + rewrite (leb_nan (Geometry.py point)) by (right; apply add_nan; auto).
      by rewrite andb_false_r.
  - intros Hx Hy.
    assert (Hall : ∀ other, Geometry.rectsIntersect rect other = true).
    { intros other. unfold Geometry.rectsIntersect.
      rewrite (ltb_nan _ (Geometry.x other)) by (left; apply add_nan; auto).
      rewrite (ltb_nan _ (Geometry.x rect)) by auto.
      rewrite (ltb_nan _ (Geometry.y other)) by (left; apply add_nan; auto).
      rewrite (ltb_nan _ (Geometry.y rect)) by auto.
      done. }
    split; [exact Hall|]. intros m Hregions.
    unfold DirtyRegionManager.isRegionDirty.
    destruct (DirtyRegionManager.fullRedraw m); [done|].
    destruct (DirtyRegionManager.regions m) as [|dirty regions]; [done|].
    cbn [existsb]. by rewrite Hall.
Qed.

Section NaNPoint.

Import PrimFloat.

Lemma nan_contains_nothing_intersects_all_witness :
Geometry.rectContainsPoint
  {| Geometry.x := 0%float; Geometry.y := 0%float;
     Geometry.width := 10%float; Geometry.height := 10%float |}
  {| Geometry.px := nan; Geometry.py := 5%float |} = false.
Proof.
apply (proj1 (nan_contains_nothing_intersects_all
                {| Geometry.x := 0%float; Geometry.y := 0%float;
                   Geometry.width := 10%float; Geometry.height := 10%float |}
                {| Geometry.px := nan; Geometry.py := 5%float |})).
left. reflexivity.
Defined.

End NaNPoint.
